(** * NUVI audio core: the diagnostic harness (AudioCheck) and the capture
    pipeline (AudioRecorder), embedded from the TypeScript sources.

    JavaScript numbers are IEEE-754 binary64 values; they are modelled by
    Rocq's primitive floats, so comparisons, NaN and signed zeros behave as
    they do in the source. *)

From Stdlib Require Import String ZArith List Bool Lia Floats Uint63.
From Stdlib Require Import Permutation Sorted.
Import ListNotations.

#[local] Set Warnings "-inexact-float".

(** ** JavaScript numbers *)

Module JS.

Local Open Scope float_scope.

Definition number := float.

(** [x >= y] and [x > y], written with the primitive tests. *)
Definition geb (x y : number) : bool := y <=? x.
Definition gtb (x y : number) : bool := y <? x.

(** ToBoolean on a number: [0], [-0] and [NaN] are falsy. *)
Definition truthy (x : number) : bool := negb ((x =? 0) || is_nan x).

(** [Math.max(a, b)]: NaN if either is NaN, and [+0] is larger than [-0]. *)
Definition max (a b : number) : number :=
  if is_nan a || is_nan b then nan
  else if a <? b then b
  else if b <? a then a
  else match classify a with NZero => b | _ => a end.

(** [Math.abs]. *)
Definition abs (x : number) : number := PrimFloat.abs x.

(** A length or a loop counter as a number (exact below 2^53). *)
Definition ofZ (z : Z) : number := of_uint63 (Uint63.of_Z z).
Definition ofNat (n : nat) : number := ofZ (Z.of_nat n).

(** The integer a number denotes after [Math.floor]; [None] for NaN and the
    infinities, which [Math.floor] returns unchanged. [floorSF] reads it off
    the sign, mantissa and exponent of the number. *)
Definition floorSF (x : spec_float) : option Z :=
  match x with
  | S754_zero _ => Some 0%Z
  | S754_finite s m e =>
      Some match e with
           | Zneg p =>
               if s then Z.opp (Z.shiftr (Z.pos m + (Z.pow 2 (Z.pos p) - 1)) (Z.pos p))
               else Z.shiftr (Z.pos m) (Z.pos p)
           | _ => let v := Z.shiftl (Z.pos m) e in if s then Z.opp v else v
           end
  | S754_infinity _ | S754_nan => None
  end.

Definition floorZ (x : number) : option Z := floorSF (Prim2SF x).

(** [arr[Math.floor(k)]]: the element at the integer part of [k];
    [undefined] (here [None]) when that is not an index of the array. *)
Definition index {A} (arr : list A) (k : number) : option A :=
  match floorZ k with
  | Some z => if (z <? 0)%Z then None else nth_error arr (Z.to_nat z)
  | None => None
  end.

(** [v || d] for [v] a number or [undefined]. *)
Definition orElse (v : option number) (d : number) : number :=
  match v with
  | Some x => if truthy x then x else d
  | None => d
  end.

(** The number of rounds of [for (let i = 0; i < limit; i++)]; [None] when
    the loop never ends: above 2^53 the counter no longer grows ([i++]
    rounds back to 2^53), so [i < limit] stays true. *)
Definition loopCount (limit : number) : option nat :=
  if is_nan limit || (limit <=? 0) then Some O
  else if 9007199254740992 <? limit then None
  else match floorZ limit with
       | Some z => Some (if ofZ z =? limit then Z.to_nat z else Z.to_nat (z + 1))
       | None => None
       end.

(** [arr.reduce((a, b) => a + b, 0)]. *)
Definition sum (arr : list number) : number :=
  fold_left (fun a b => a + b) arr 0.

(** [arr.length > 0 ? arr.reduce((a, b) => a + b, 0) / arr.length : 0]. *)
Definition average (arr : list number) : number :=
  match arr with
  | [] => 0
  | _ => sum arr / ofNat (List.length arr)
  end.

(** [[...arr].sort(cmp)]: the sort is stable and, for a consistent
    comparator, its result does not depend on the engine's algorithm; a
    comparator result that is not greater than zero (NaN included) leaves
    the pair in place. *)
Section Sort.
Variable cmp : number -> number -> number.

Fixpoint insert (x : number) (l : list number) : list number :=
  match l with
  | [] => [x]
  | y :: l' => if gtb (cmp x y) 0 then y :: insert x l' else x :: l
  end.

Fixpoint sort (l : list number) : list number :=
  match l with
  | [] => []
  | x :: l' => insert x (sort l')
  end.
End Sort.

(** [[...arr].sort((a, b) => a - b)]. *)
Definition sortAscending (arr : list number) : list number :=
  sort (fun a b => a - b) arr.

(** An array holds fewer than 2^32 elements. *)
Definition maxLength : Z := 2 ^ 32.

End JS.

(** ** Rounding in the specification of doubles

    The quantities the facts on double arithmetic below are stated with:
    what a shift and a rounding leave of a mantissa, and the place of a
    number on the integer line. *)

Module Rounding.

Local Open Scope Z_scope.

(** A non-negative mantissa [m] after [k] halvings that started without
    round and sticky bits: the quotient, the last bit shifted out and whether
    any bit below it was set. *)
Definition shifted (m : Z) (k : nat) : shr_record :=
  match k with
  | O => {| shr_m := m; shr_r := false; shr_s := false |}
  | S j => {| shr_m := m / 2 ^ Z.of_nat k;
              shr_r := Z.odd (m / 2 ^ Z.of_nat j);
              shr_s := negb (m mod 2 ^ Z.of_nat j =? 0) |}
  end.

(** The mantissa kept when the low [k] bits of [P] are rounded away to
    nearest, ties to even. *)
Definition roundedMantissa (P k : Z) : Z :=
  let q := P / 2 ^ k in
  if Z.odd (P / 2 ^ (k - 1)) && (negb (P mod 2 ^ (k - 1) =? 0) || Z.odd q)
  then q + 1 else q.

(** A number's place on the integer line: finite numbers by their value in
    units of the smallest subnormal, the infinities beyond all of them. *)
Definition key (x : spec_float) : Z :=
  match x with
  | S754_zero _ => 0
  | S754_finite s m e => cond_Zopp s (Z.pos m * 2 ^ (e + 1074))
  | S754_infinity s => cond_Zopp s (2 ^ 2200)
  | S754_nan => 0
  end.

(** The place of a number of the program. *)
Definition rank (v : JS.number) : Z := key (Prim2SF v).

(** Ascending order of numbers. *)
Definition byRank (a b : JS.number) : Prop := rank a <= rank b.

End Rounding.

(** ** The diagnostic harness: [AudioCheck] *)

Module AudioCheck.

Import JS.
Local Open Scope float_scope.

(** *** Data *)

(** A thrown value, kept as its message. *)
Definition Error := string.

(** [Required<AudioCheckConfig>]. *)
Record AudioCheckConfig := {
  echoTestDuration : number;
  micTestDuration : number;
  minMicLevel : number;
  maxBackgroundNoise : number;
  echoThreshold : number;
  targetSampleRate : number
}.

(** The constructor's argument: every option may be absent. *)
Record ConfigOptions := {
  opt_echoTestDuration : option number;
  opt_micTestDuration : option number;
  opt_minMicLevel : option number;
  opt_maxBackgroundNoise : option number;
  opt_echoThreshold : option number;
  opt_targetSampleRate : option number
}.

(** [a ?? b]. *)
Definition nullish {A} (a : option A) (b : A) : A :=
  match a with Some x => x | None => b end.

Definition makeConfig (c : ConfigOptions) : AudioCheckConfig := {|
  echoTestDuration := nullish (opt_echoTestDuration c) 3;
  micTestDuration := nullish (opt_micTestDuration c) 2;
  minMicLevel := nullish (opt_minMicLevel c) 0.001;
  maxBackgroundNoise := nullish (opt_maxBackgroundNoise c) 0.005;
  echoThreshold := nullish (opt_echoThreshold c) 0.05;
  targetSampleRate := nullish (opt_targetSampleRate c) 24000
|}.

Definition noOptions : ConfigOptions :=
  Build_ConfigOptions None None None None None None.

Definition defaultConfig : AudioCheckConfig := makeConfig noOptions.

Record EchoTestResult := { passed : bool; echoLevel : number }.
Record MicTestResult := { level : number; noise : number }.

(** [Partial<AudioTestResults>] as the harness fills it: the three
    sub-results ([timestamp] and [overallPassed] are never stored). *)
Record PartialResults := {
  p_sampleRate : option number;
  p_echoTest : option EchoTestResult;
  p_microphoneTest : option MicTestResult
}.

Definition noResults : PartialResults := Build_PartialResults None None None.

(** The object [getCompleteResults] builds. The [!] assertions of the source
    do nothing at run time, so a field holds whatever the partial record
    held, [undefined] included. *)
Record AudioTestResults := {
  timestamp : number;
  sampleRate : option number;
  echoTest : option EchoTestResult;
  microphoneTest : option MicTestResult;
  overallPassed : bool
}.

(** Handles on platform objects. *)
Record AudioContextHandle := { ctx_sampleRate : number }.
Record MediaStream := { tracks : list nat }.
Record OscillatorNode := { osc_started : bool }.
Variant GainNode := gain_node.
Variant SourceNode := source_node.
Variant WorkletNode := worklet_node.

Variant Stage :=
  StageInit | StageSampleRate | StageEchoTest | StageMicTest | StageComplete | StageError.

(** Progress messages; the template strings keep their arguments. *)
Inductive Message :=
| Text (s : string)
| Failure (prefix message : string)
| SampleRateReport (rate : number) (ok : bool) (hardwareMax : number)
| EchoRemaining (seconds : number)
| EchoReport (ok : bool) (lvl : number)
| MicRemaining (seconds : number)
| MicReport (lvl nse : number)
| CompleteReport (ok : bool).

(** What a method does to the outside, in order. *)
Inductive Effect :=
| Progress (stage : Stage) (message : Message) (progress : number)
           (snapshot : PartialResults)
| OscillatorStart
| OscillatorStop
| OscillatorDisconnect
| GainDisconnect
| MeterDisconnect
| SourceDisconnect
| TrackStop (track : nat).

Record State := {
  audioContext : option AudioContextHandle;
  stream : option MediaStream;
  source : option SourceNode;
  volMeterWorklet : option WorkletNode;
  oscillator : option OscillatorNode;
  gainNode : option GainNode;
  isRunning : bool;
  config : AudioCheckConfig;
  results : PartialResults;
  volumeHistory : list number;
  backgroundNoiseLevel : number
}.

Definition new (c : ConfigOptions) : State := {|
  audioContext := None; stream := None; source := None;
  volMeterWorklet := None; oscillator := None; gainNode := None;
  isRunning := false; config := makeConfig c; results := noResults;
  volumeHistory := []; backgroundNoiseLevel := 0
|}.

Definition set_audioContext v s :=
  Build_State v (stream s) (source s) (volMeterWorklet s) (oscillator s)
    (gainNode s) (isRunning s) (config s) (results s) (volumeHistory s)
    (backgroundNoiseLevel s).
Definition set_stream v s :=
  Build_State (audioContext s) v (source s) (volMeterWorklet s) (oscillator s)
    (gainNode s) (isRunning s) (config s) (results s) (volumeHistory s)
    (backgroundNoiseLevel s).
Definition set_source v s :=
  Build_State (audioContext s) (stream s) v (volMeterWorklet s) (oscillator s)
    (gainNode s) (isRunning s) (config s) (results s) (volumeHistory s)
    (backgroundNoiseLevel s).
Definition set_volMeterWorklet v s :=
  Build_State (audioContext s) (stream s) (source s) v (oscillator s)
    (gainNode s) (isRunning s) (config s) (results s) (volumeHistory s)
    (backgroundNoiseLevel s).
Definition set_oscillator v s :=
  Build_State (audioContext s) (stream s) (source s) (volMeterWorklet s) v
    (gainNode s) (isRunning s) (config s) (results s) (volumeHistory s)
    (backgroundNoiseLevel s).
Definition set_gainNode v s :=
  Build_State (audioContext s) (stream s) (source s) (volMeterWorklet s)
    (oscillator s) v (isRunning s) (config s) (results s) (volumeHistory s)
    (backgroundNoiseLevel s).
Definition set_isRunning v s :=
  Build_State (audioContext s) (stream s) (source s) (volMeterWorklet s)
    (oscillator s) (gainNode s) v (config s) (results s) (volumeHistory s)
    (backgroundNoiseLevel s).
Definition set_results v s :=
  Build_State (audioContext s) (stream s) (source s) (volMeterWorklet s)
    (oscillator s) (gainNode s) (isRunning s) (config s) v (volumeHistory s)
    (backgroundNoiseLevel s).
Definition set_volumeHistory v s :=
  Build_State (audioContext s) (stream s) (source s) (volMeterWorklet s)
    (oscillator s) (gainNode s) (isRunning s) (config s) (results s) v
    (backgroundNoiseLevel s).
Definition set_backgroundNoiseLevel v s :=
  Build_State (audioContext s) (stream s) (source s) (volMeterWorklet s)
    (oscillator s) (gainNode s) (isRunning s) (config s) (results s)
    (volumeHistory s) v.

Definition record_sampleRate v (r : PartialResults) :=
  Build_PartialResults (Some v) (p_echoTest r) (p_microphoneTest r).
Definition record_echoTest v (r : PartialResults) :=
  Build_PartialResults (p_sampleRate r) (Some v) (p_microphoneTest r).
Definition record_microphoneTest v (r : PartialResults) :=
  Build_PartialResults (p_sampleRate r) (p_echoTest r) (Some v).

(** *** Methods run in a monad of state, thrown errors and effects *)

(** How a call ends: it returns, it throws, or it never ends. *)
Inductive Outcome (A : Type) :=
| Returned (a : A)
| Thrown (e : Error)
| Diverged.
Arguments Returned {A} a.
Arguments Thrown {A} e.
Arguments Diverged {A}.

(** A promise of the platform that has settled. *)
Inductive Settled (A : Type) :=
| Fulfilled (a : A)
| Rejected (e : Error).
Arguments Fulfilled {A} a.
Arguments Rejected {A} e.

Definition M (A : Type) := State -> Outcome A * State * list Effect.

Definition ret {A} (a : A) : M A := fun s => (Returned a, s, []).
Definition throw {A} (e : Error) : M A := fun s => (Thrown e, s, []).

Definition bind {A B} (m : M A) (f : A -> M B) : M B := fun s =>
  match m s with
  | (Returned a, s1, t1) => let '(o, s2, t2) := f a s1 in (o, s2, t1 ++ t2)
  | (Thrown e, s1, t1) => (Thrown e, s1, t1)
  | (Diverged, s1, t1) => (Diverged, s1, t1)
  end.

(** [try { m } catch (e) { h e }]. *)
Definition tryCatch {A} (m : M A) (h : Error -> M A) : M A := fun s =>
  match m s with
  | (Thrown e, s1, t1) => let '(o, s2, t2) := h e s1 in (o, s2, t1 ++ t2)
  | r => r
  end.

(** [try { m } finally { f }]: [f] runs whether [m] returns or throws, and
    an error of its own replaces the outcome of [m]. *)
Definition tryFinally {A} (m : M A) (f : M unit) : M A := fun s =>
  match m s with
  | (Diverged, s1, t1) => (Diverged, s1, t1)
  | (o, s1, t1) =>
      match f s1 with
      | (Returned _, s2, t2) => (o, s2, t1 ++ t2)
      | (Thrown e, s2, t2) => (Thrown e, s2, t1 ++ t2)
      | (Diverged, s2, t2) => (Diverged, s2, t1 ++ t2)
      end
  end.

(** A call that never ends. *)
Definition diverge {A} : M A := fun s => (Diverged, s, []).

Definition get : M State := fun s => (Returned s, s, []).
Definition modify (f : State -> State) : M unit := fun s => (Returned tt, f s, []).
Definition effect (e : Effect) : M unit := fun s => (Returned tt, s, [e]).
Definition effects (l : list Effect) : M unit := fun s => (Returned tt, s, l).

(** [await] on a promise that has settled. *)
Definition await {A} (o : Settled A) : M A :=
  match o with Fulfilled a => ret a | Rejected e => throw e end.

Arguments ret {A} a s /.
Arguments throw {A} e s /.
Arguments bind {A B} m f s /.
Arguments tryCatch {A} m h s /.
Arguments tryFinally {A} m f s /.
Arguments get s /.
Arguments modify f s /.
Arguments effect e s /.
Arguments effects l s /.
Arguments await {A} o s /.
Arguments diverge {A} s /.

Declare Scope harness_scope.
Delimit Scope harness_scope with harness.
Notation "x <- m ;; k" := (bind m (fun x => k))
  (at level 61, m at next level, right associativity) : harness_scope.
Notation "m ;; k" := (bind m (fun _ => k))
  (at level 61, right associativity) : harness_scope.
Local Open Scope harness_scope.

Definition outcome {A} (r : Outcome A * State * list Effect) : Outcome A :=
  fst (fst r).
Definition final {A} (r : Outcome A * State * list Effect) : State :=
  snd (fst r).
Definition trace {A} (r : Outcome A * State * list Effect) : list Effect :=
  snd r.

Definition emitProgress (stage : Stage) (message : Message) (progress : number)
  : M unit :=
  s <- get ;; effect (Progress stage message progress (results s)).
Arguments emitProgress stage message progress s /.

Fixpoint forEach {A} (l : list A) (body : A -> M unit) : M unit :=
  match l with
  | [] => ret tt
  | x :: l' => body x ;; forEach l' body
  end.

(** [for (let i = 0; i < limit; i++) body(i)]. *)
Definition forLoop (limit : number) (body : number -> M unit) : M unit :=
  match loopCount limit with
  | Some rounds => forEach (map ofNat (seq 0 rounds)) body
  | None => diverge
  end.

(** The configurations whose timed loops end. *)
Definition validConfig (c : AudioCheckConfig) : bool :=
  match loopCount (echoTestDuration c), loopCount (micTestDuration c) with
  | Some _, Some _ => true
  | _, _ => false
  end.

(** [oscillator.stop()] throws InvalidStateError on a node that was never
    started. *)
Definition stopOscillator (o : OscillatorNode) : M unit :=
  if osc_started o then effect OscillatorStop
  else throw "InvalidStateError"%string.

(** *** The platform a run meets *)

(** The statements of the echo test and of the mic test at which the
    platform may raise an error. *)
Variant EchoFault := AtCreateOscillator | AtCreateGain | AtConnect | AtStart | AtStop.
Variant MicFault := AtInstallHandler | AtMeasure.

Definition EchoFault_eqb (a b : EchoFault) : bool :=
  match a, b with
  | AtCreateOscillator, AtCreateOscillator | AtCreateGain, AtCreateGain
  | AtConnect, AtConnect | AtStart, AtStart | AtStop, AtStop => true
  | _, _ => false
  end.

Definition MicFault_eqb (a b : MicFault) : bool :=
  match a, b with
  | AtInstallHandler, AtInstallHandler | AtMeasure, AtMeasure => true
  | _, _ => false
  end.

Record Platform := {
  (** [navigator.mediaDevices && navigator.mediaDevices.getUserMedia] *)
  mediaDevices : bool;
  (** [window.AudioContext || window.webkitAudioContext] *)
  webAudio : bool;
  (** how [audioContext({ sampleRate, id })] settles *)
  sharedContext : Settled AudioContextHandle;
  (** how [getUserMedia] settles *)
  getUserMedia : Settled MediaStream;
  (** how [audioWorklet.addModule] settles *)
  addModule : Settled unit;
  (** the rate a throwaway context opened at a requested rate reports;
      [None] when opening or closing it throws *)
  probe : number -> option number;
  (** the meter's readings during the baseline second, the tone and the
      mic measurement *)
  noiseVolumes : list number;
  echoVolumes : list number;
  micVolumes : list number;
  echoFault : option (EchoFault * Error);
  micFault : option (MicFault * Error);
  (** [Date.now()] *)
  now : number
}.

Section Methods.

Variable env : Platform.

Definition echoCheckpoint (p : EchoFault) : M unit :=
  match echoFault env with
  | Some (q, e) => if EchoFault_eqb p q then throw e else ret tt
  | None => ret tt
  end.

Definition micCheckpoint (p : MicFault) : M unit :=
  match micFault env with
  | Some (q, e) => if MicFault_eqb p q then throw e else ret tt
  | None => ret tt
  end.

(** The readings a handler installed on the meter's port receives: none
    when there is no meter to install it on. *)
Definition heard (s : State) (readings : list number) : list number :=
  match volMeterWorklet s with
  | Some _ => readings
  | None => []
  end.

Definition cleanup : M unit :=
  modify (set_isRunning false) ;;
  s <- get ;;
  match oscillator s with
  | Some o =>
      tryCatch (stopOscillator o ;; effect OscillatorDisconnect)
               (fun _ => ret tt) ;;
      modify (set_oscillator None)
  | None => ret tt
  end ;;
  match gainNode s with
  | Some _ => effect GainDisconnect ;; modify (set_gainNode None)
  | None => ret tt
  end ;;
  match volMeterWorklet s with
  | Some _ => effect MeterDisconnect ;; modify (set_volMeterWorklet None)
  | None => ret tt
  end ;;
  match source s with
  | Some _ => effect SourceDisconnect ;; modify (set_source None)
  | None => ret tt
  end ;;
  match stream s with
  | Some st => effects (map TrackStop (tracks st)) ;; modify (set_stream None)
  | None => ret tt
  end ;;
  modify (set_audioContext None).

Definition setupVolumeMeter : M unit :=
  s <- get ;;
  match audioContext s, source s with
  | Some _, Some _ =>
      await (addModule env) ;;
      modify (set_volMeterWorklet (Some worklet_node))
  | _, _ => ret tt
  end.

Definition init : M unit :=
  s <- get ;;
  if isRunning s then throw "AudioCheck is already running"%string
  else
    modify (set_isRunning true) ;;
    emitProgress StageInit (Text "Initializing audio system...") 0 ;;
    tryCatch
      ((if mediaDevices env then ret tt
        else throw "getUserMedia not supported in this browser"%string) ;;
       (if webAudio env then ret tt
        else throw "Web Audio API not supported in this browser"%string) ;;
       ctx <- await (sharedContext env) ;;
       modify (set_audioContext (Some ctx)) ;;
       st <- await (getUserMedia env) ;;
       modify (set_stream (Some st)) ;;
       modify (set_source (Some source_node)) ;;
       setupVolumeMeter ;;
       emitProgress StageInit (Text "Audio system initialized") 100 ;;
       modify (set_isRunning false))
      (fun error =>
         emitProgress StageError (Failure "Initialization failed: " error) 0 ;;
         cleanup ;;
         throw error).

Definition testRates : list number :=
  [96000; 88200; 48000; 44100; 24000; 22050; 16000; 8000].

(** The [for (const rate of testRates)] loop, with its early return. *)
Fixpoint probeRates (rates : list number) : option number :=
  match rates with
  | [] => None
  | rate :: rest =>
      match probe env rate with
      | Some actualRate =>
          if abs (actualRate - rate) <? 1 then Some rate else probeRates rest
      | None => probeRates rest
      end
  end.

Definition getMaxSupportedSampleRate : M number :=
  s <- get ;;
  match probeRates testRates with
  | Some rate => ret rate
  | None => ret (orElse (option_map ctx_sampleRate (audioContext s)) 24000)
  end.

Definition getSampleRate : M number :=
  s <- get ;;
  match audioContext s with
  | None => throw "AudioCheck not initialized. Call init() first."%string
  | Some ctx =>
      modify (set_isRunning true) ;;
      emitProgress StageSampleRate (Text "Checking sample rate capabilities...") 0 ;;
      let sampleRate := ctx_sampleRate ctx in
      modify (fun s => set_results (record_sampleRate sampleRate (results s)) s) ;;
      maxSupportedRate <- getMaxSupportedSampleRate ;;
      emitProgress StageSampleRate
        (SampleRateReport sampleRate
           (geb sampleRate (targetSampleRate (config s))) maxSupportedRate)
        100 ;;
      modify (set_isRunning false) ;;
      ret sampleRate
  end.

Definition measureBackgroundNoise : M unit :=
  s <- get ;;
  let noiseVolumes := heard s (noiseVolumes env) in
  modify (set_backgroundNoiseLevel (average noiseVolumes)).

Definition runEchoTest : M EchoTestResult :=
  s <- get ;;
  match audioContext s, source s with
  | Some _, Some _ =>
      modify (set_isRunning true) ;;
      emitProgress StageEchoTest (Text "Starting echo test...") 0 ;;
      tryCatch
        (emitProgress StageEchoTest (Text "Measuring background noise...") 10 ;;
         measureBackgroundNoise ;;
         echoCheckpoint AtCreateOscillator ;;
         modify (set_oscillator (Some {| osc_started := false |})) ;;
         echoCheckpoint AtCreateGain ;;
         modify (set_gainNode (Some gain_node)) ;;
         echoCheckpoint AtConnect ;;
         s1 <- get ;;
         let echoVolumes := heard s1 (echoVolumes env) in
         echoCheckpoint AtStart ;;
         modify (set_oscillator (Some {| osc_started := true |})) ;;
         effect OscillatorStart ;;
         emitProgress StageEchoTest (Text "Playing test tone...") 30 ;;
         let duration := echoTestDuration (config s) in
         forLoop duration (fun i =>
           emitProgress StageEchoTest (EchoRemaining (duration - i))
             (30 + (i / duration) * 60)) ;;
         echoCheckpoint AtStop ;;
         s2 <- get ;;
         match oscillator s2 with
         | Some o => stopOscillator o
         | None => throw "TypeError"%string
         end ;;
         effect OscillatorDisconnect ;;
         effect GainDisconnect ;;
         modify (set_oscillator None) ;;
         modify (set_gainNode None) ;;
         s3 <- get ;;
         let avgEchoVolume := average echoVolumes in
         let echoLevel := max 0 (avgEchoVolume - backgroundNoiseLevel s3) in
         let echoPassed := echoLevel <? echoThreshold (config s3) in
         modify (fun s =>
           set_results
             (record_echoTest {| passed := echoPassed; echoLevel := echoLevel |}
                (results s)) s) ;;
         emitProgress StageEchoTest (EchoReport echoPassed echoLevel) 100 ;;
         modify (set_isRunning false) ;;
         ret {| passed := echoPassed; echoLevel := echoLevel |})
        (fun error =>
           emitProgress StageError (Failure "Echo test failed: " error) 0 ;;
           modify (set_isRunning false) ;;
           ret {| passed := false; echoLevel := 1 |})
  | _, _ => throw "AudioCheck not initialized. Call init() first."%string
  end.

(** [sortedVolumes[Math.floor(sortedVolumes.length * p)] || 0]. *)
Definition percentile (sortedVolumes : list number) (p : number) : number :=
  orElse (index sortedVolumes (ofNat (List.length sortedVolumes) * p)) 0.

Definition runMicTest : M MicTestResult :=
  s <- get ;;
  match audioContext s, source s with
  | Some _, Some _ =>
      modify (set_isRunning true) ;;
      emitProgress StageMicTest (Text "Testing microphone levels...") 0 ;;
      tryCatch
        (modify (set_volumeHistory []) ;;
         micCheckpoint AtInstallHandler ;;
         let duration := micTestDuration (config s) in
         forLoop duration (fun i =>
           emitProgress StageMicTest (MicRemaining (duration - i))
             ((i / duration) * 90)) ;;
         modify (set_volumeHistory (heard s (micVolumes env))) ;;
         micCheckpoint AtMeasure ;;
         s1 <- get ;;
         let sortedVolumes := sortAscending (volumeHistory s1) in
         let percentile95 := percentile sortedVolumes 0.95 in
         let percentile10 := percentile sortedVolumes 0.10 in
         let micLevel := percentile95 in
         let noiseLevel := percentile10 in
         modify (fun s =>
           set_results
             (record_microphoneTest {| level := micLevel; noise := noiseLevel |}
                (results s)) s) ;;
         emitProgress StageMicTest (MicReport micLevel noiseLevel) 100 ;;
         modify (set_isRunning false) ;;
         ret {| level := micLevel; noise := noiseLevel |})
        (fun error =>
           emitProgress StageError (Failure "Microphone test failed: " error) 0 ;;
           modify (set_isRunning false) ;;
           ret {| level := 0; noise := 1 |})
  | _, _ => throw "AudioCheck not initialized. Call init() first."%string
  end.

Definition isInitialized (s : State) : bool :=
  match audioContext s, source s, volMeterWorklet s with
  | Some _, Some _, Some _ => true
  | _, _, _ => false
  end.

Definition isTestPassed (s : State) : bool :=
  geb (nullish (p_sampleRate (results s)) 0) (targetSampleRate (config s))
  && nullish (option_map passed (p_echoTest (results s))) false
  && geb (nullish (option_map level (p_microphoneTest (results s))) 0)
         (minMicLevel (config s))
  && (nullish (option_map noise (p_microphoneTest (results s))) 1
      <? maxBackgroundNoise (config s)).

Definition isComplete (s : State) : bool :=
  match p_sampleRate (results s) with Some v => truthy v | None => false end
  && match p_echoTest (results s) with Some _ => true | None => false end
  && match p_microphoneTest (results s) with Some _ => true | None => false end.

Definition getCompleteResults : M AudioTestResults :=
  s <- get ;;
  if negb (isComplete s) then throw "Audio check is not complete"%string
  else ret {|
    timestamp := now env;
    sampleRate := p_sampleRate (results s);
    echoTest := p_echoTest (results s);
    microphoneTest := p_microphoneTest (results s);
    overallPassed := isTestPassed s
  |}.

Definition runAllTests : M AudioTestResults :=
  init ;;
  tryFinally
    (getSampleRate ;;
     runEchoTest ;;
     runMicTest ;;
     s <- get ;;
     let overallPassed := isTestPassed s in
     emitProgress StageComplete (CompleteReport overallPassed) 100 ;;
     getCompleteResults)
    cleanup.

End Methods.

(** A call that leaves the configuration [c] alone and, when [ends] is set,
    comes to an end. *)
Definition safe {A} (ends : bool) (c : AudioCheckConfig) (m : M A) : Prop :=
  forall s, config s = c ->
    (ends = true -> outcome (m s) <> Diverged) /\ config (final (m s)) = c.

(** The state [cleanup] leaves, and what it does to get there. *)
Definition released (s : State) : State :=
  set_audioContext None
    (set_stream None
       (set_source None
          (set_volMeterWorklet None
             (set_gainNode None
                (set_oscillator None (set_isRunning false s)))))).

Definition cleanupEffects (s : State) : list Effect :=
  match oscillator s with
  | Some o => if osc_started o then [OscillatorStop; OscillatorDisconnect] else []
  | None => []
  end
  ++ match gainNode s with Some _ => [GainDisconnect] | None => [] end
  ++ match volMeterWorklet s with Some _ => [MeterDisconnect] | None => [] end
  ++ match source s with Some _ => [SourceDisconnect] | None => [] end
  ++ match stream s with Some st => map TrackStop (tracks st) | None => [] end.

(** A candidate rate is supported when the rate realized for it is within
    1 Hz of the request. *)
Definition accepts (env : Platform) (rate : number) : bool :=
  match probe env rate with
  | Some actualRate => abs (actualRate - rate) <? 1
  | None => false
  end.

(** Each element is smaller than the one before it. *)
Fixpoint descending (l : list number) : bool :=
  match l with
  | x :: (y :: _) as rest => (y <? x) && descending rest
  | _ => true
  end.

(** The average level of a window of samples as the specification words
    it: the sum of the samples, taken in the order they arrived, over their
    number, and 0 for a window without samples. It is written with the
    operations on doubles themselves. *)
Definition specAverage (samples : list number) : number :=
  match samples with
  | [] => 0
  | _ :: _ =>
      fold_left PrimFloat.add samples 0
      / of_uint63 (Uint63.of_Z (Z.of_nat (List.length samples)))
  end.

(** The overall verdict as the specification words it. *)
Definition specVerdict (c : AudioCheckConfig) (rate : number)
    (e : EchoTestResult) (m : MicTestResult) : bool :=
  geb rate (targetSampleRate c)
  && passed e
  && geb (level m) (minMicLevel c)
  && (noise m <? maxBackgroundNoise c).

(** A platform on which every step succeeds: a shared context at 24 kHz, a
    stream with one track, throwaway contexts honoured at 48000 and 16000 Hz
    only, and the meter readings given. *)
Definition platformWith (noiseReadings echoReadings micReadings : list number)
  : Platform := {|
  mediaDevices := true;
  webAudio := true;
  sharedContext := Fulfilled {| ctx_sampleRate := 24000 |};
  getUserMedia := Fulfilled {| tracks := [O] |};
  addModule := Fulfilled tt;
  probe := fun rate =>
    if (rate =? 48000) || (rate =? 16000) then Some rate else None;
  noiseVolumes := noiseReadings;
  echoVolumes := echoReadings;
  micVolumes := micReadings;
  echoFault := None;
  micFault := None;
  now := 1700000000000
|}.

(** A hundred readings in ascending order: 0.01, 0.02, ..., 1. *)
Definition hundredLevels : list number :=
  map (fun i => ofNat i / 100) (seq 1 100).

Definition quietRoom : Platform :=
  platformWith [0.001; 0.002] [0.01; 0.02; 0.01] [0.02; 0.002; 0.01; 0.03].

(** What [runAllTests] returns in the quiet room. *)
Definition quietRoomResults : AudioTestResults := {|
  timestamp := 1700000000000;
  sampleRate := Some 24000;
  echoTest := Some {| passed := true; echoLevel := 0.011833333333333335 |};
  microphoneTest := Some {| level := 0.03; noise := 0.002 |};
  overallPassed := true
|}.

(** The same platform with an error raised at a statement of the echo test. *)
Definition withEchoFault (env : Platform) (p : EchoFault) (e : Error) : Platform := {|
  mediaDevices := mediaDevices env;
  webAudio := webAudio env;
  sharedContext := sharedContext env;
  getUserMedia := getUserMedia env;
  addModule := addModule env;
  probe := probe env;
  noiseVolumes := noiseVolumes env;
  echoVolumes := echoVolumes env;
  micVolumes := micVolumes env;
  echoFault := Some (p, e);
  micFault := micFault env;
  now := now env
|}.

(** The same platform with an error raised at a statement of the mic test. *)
Definition withMicFault (env : Platform) (p : MicFault) (e : Error) : Platform := {|
  mediaDevices := mediaDevices env;
  webAudio := webAudio env;
  sharedContext := sharedContext env;
  getUserMedia := getUserMedia env;
  addModule := addModule env;
  probe := probe env;
  noiseVolumes := noiseVolumes env;
  echoVolumes := echoVolumes env;
  micVolumes := micVolumes env;
  echoFault := echoFault env;
  micFault := Some (p, e);
  now := now env
|}.

(** A room in which the tone is not picked up at all: the level measured
    while it plays is the baseline. *)
Definition deadRoom : Platform :=
  platformWith [0.01] [0.01; 0.01] [].

(** A room in which the tone comes back loud over a quiet baseline. *)
Definition loudRoom : Platform :=
  platformWith [0.001; 0.002] [0.2; 0.4; 0.3] [0.02].

(** A platform that raises an error in both tests. *)
Definition faultyPlatform : Platform :=
  withMicFault (withEchoFault quietRoom AtCreateOscillator "NotSupportedError"%string)
    AtInstallHandler "InvalidStateError"%string.

(** A harness in the middle of the tone of the echo test. *)
Definition midTone : State :=
  set_gainNode (Some gain_node)
    (set_oscillator (Some {| osc_started := true |})
       (set_isRunning true (final (init quietRoom (new noOptions))))).

(** A harness that has gone through [init] on a platform. *)
Definition initialized (env : Platform) (c : ConfigOptions) : State :=
  final (init env (new c)).

(** *** What a run holds and releases *)

(** The tracks a run stopped, in order. *)
Definition stopped (t : list Effect) : list nat :=
  flat_map (fun e => match e with TrackStop k => [k] | _ => [] end) t.

(** What [init] needs from the platform to run through: both capabilities,
    and the shared context, the microphone and the meter module granted. *)
Definition grants (env : Platform) : option (AudioContextHandle * MediaStream) :=
  if mediaDevices env && webAudio env then
    match sharedContext env, getUserMedia env, addModule env with
    | Fulfilled ctx, Fulfilled st, Fulfilled _ => Some (ctx, st)
    | _, _, _ => None
    end
  else None.

(** The harness once [init] has stored a context and a stream. *)
Definition acquired (ctx : AudioContextHandle) (st : MediaStream) (s : State) : State :=
  set_isRunning false
    (set_volMeterWorklet (Some worklet_node)
       (set_source (Some source_node)
          (set_stream (Some st) (set_audioContext (Some ctx) s)))).

(** A call that leaves the context, the stream, the source and the meter
    of the harness in place and stops no track. *)
Definition keepsSession {A} (m : M A) : Prop :=
  forall s,
    (audioContext (final (m s)) = audioContext s
     /\ stream (final (m s)) = stream s
     /\ source (final (m s)) = source s
     /\ volMeterWorklet (final (m s)) = volMeterWorklet s)
    /\ stopped (trace (m s)) = [].

(** The three tests in a row, as [runAllTests] runs them. *)
Definition tests (env : Platform) : M MicTestResult :=
  getSampleRate env ;; runEchoTest env ;; runMicTest env.

(** The same platform on which the meter module cannot be loaded. *)
Definition withoutMeterModule (env : Platform) (e : Error) : Platform := {|
  mediaDevices := mediaDevices env;
  webAudio := webAudio env;
  sharedContext := sharedContext env;
  getUserMedia := getUserMedia env;
  addModule := Rejected e;
  probe := probe env;
  noiseVolumes := noiseVolumes env;
  echoVolumes := echoVolumes env;
  micVolumes := micVolumes env;
  echoFault := echoFault env;
  micFault := micFault env;
  now := now env
|}.

(** A room whose meter delivers nothing while the tone plays. *)
Definition silentTone : Platform := platformWith [0.004; 0.002] [] [0.01].

(** The same platform granting another stream. *)
Definition withStream (env : Platform) (st : MediaStream) : Platform := {|
  mediaDevices := mediaDevices env;
  webAudio := webAudio env;
  sharedContext := sharedContext env;
  getUserMedia := Fulfilled st;
  addModule := addModule env;
  probe := probe env;
  noiseVolumes := noiseVolumes env;
  echoVolumes := echoVolumes env;
  micVolumes := micVolumes env;
  echoFault := echoFault env;
  micFault := micFault env;
  now := now env
|}.

End AudioCheck.

(** ** The React hook over the harness: [useAudioCheck] *)

Module UseAudioCheck.

Import JS.
Local Open Scope float_scope.

(** The payload of a ['progress'] event. *)
Module AudioCheckProgress.
Record t := {
  stage : AudioCheck.Stage;
  message : AudioCheck.Message;
  progress : number;
  results : AudioCheck.PartialResults
}.
End AudioCheckProgress.

(** The state variables of the hook. [error] is a string in the source; it
    is kept as the message it was built from. *)
Record Hook := {
  isRunning : bool;
  progress : option AudioCheckProgress.t;
  results : option AudioCheck.AudioTestResults;
  error : option AudioCheck.Message;
  isInitialized : bool
}.

Definition setIsRunning v h :=
  Build_Hook v (progress h) (results h) (error h) (isInitialized h).
Definition setProgress v h :=
  Build_Hook (isRunning h) v (results h) (error h) (isInitialized h).
Definition setResults v h :=
  Build_Hook (isRunning h) (progress h) v (error h) (isInitialized h).
Definition setError v h :=
  Build_Hook (isRunning h) (progress h) (results h) v (isInitialized h).
Definition setIsInitialized v h :=
  Build_Hook (isRunning h) (progress h) (results h) (error h) v.

(** The first render, and the instance the mount effect puts in
    [audioCheckRef]. *)
Definition mounted (config : AudioCheck.ConfigOptions)
  : Hook * option AudioCheck.State :=
  ({| isRunning := false; progress := None; results := None; error := None;
      isInitialized := false |},
   Some (AudioCheck.new config)).

(** The listener the hook registers for ['progress']. *)
Definition handleProgress (progressData : AudioCheckProgress.t) (h : Hook) : Hook :=
  let h := setProgress (Some progressData) h in
  match AudioCheckProgress.stage progressData with
  | AudioCheck.StageError =>
      setIsRunning false (setError (Some (AudioCheckProgress.message progressData)) h)
  | AudioCheck.StageComplete => setError None (setIsRunning false h)
  | _ => h
  end.

(** What the hook makes of one effect of the harness: the ['progress']
    events reach the listener, nothing else does. *)
Definition listen (h : Hook) (e : AudioCheck.Effect) : Hook :=
  match e with
  | AudioCheck.Progress st msg p r =>
      handleProgress {| AudioCheckProgress.stage := st;
                        AudioCheckProgress.message := msg;
                        AudioCheckProgress.progress := p;
                        AudioCheckProgress.results := r |} h
  | _ => h
  end.

(** An awaited call on the instance: the listener runs on each event the
    call emits. *)
Definition during {A} (call : AudioCheck.M A) (h : Hook)
    (audioCheck : AudioCheck.State)
  : AudioCheck.Outcome A * Hook * AudioCheck.State :=
  let '(o, audioCheck', t) := call audioCheck in
  (o, fold_left listen t h, audioCheck').

(** How a promise of the hook ends: it settles (the hook catches every
    error), or the call it waits for never ends. *)
Inductive Reply (A : Type) :=
| Settles (a : A)
| Hangs.
Arguments Settles {A} a.
Arguments Hangs {A}.

(** The callbacks read the state variables of the render they were made
    in; a call made through the latest render reads the current ones. *)
Definition runAllTests (env : AudioCheck.Platform) (h : Hook)
    (audioCheckRef : option AudioCheck.State)
  : Reply (option AudioCheck.AudioTestResults) * Hook * option AudioCheck.State :=
  match isRunning h, audioCheckRef with
  | false, Some audioCheck =>
      let h := setProgress None (setResults None (setError None (setIsRunning true h))) in
      match during (AudioCheck.runAllTests env) h audioCheck with
      | (AudioCheck.Returned testResults, h, audioCheck) =>
          (Settles (Some testResults), setResults (Some testResults) h, Some audioCheck)
      | (AudioCheck.Thrown message, h, audioCheck) =>
          (Settles None,
           setIsRunning false (setError (Some (AudioCheck.Text message)) h),
           Some audioCheck)
      | (AudioCheck.Diverged, h, audioCheck) => (Hangs, h, Some audioCheck)
      end
  | _, _ => (Settles None, h, audioCheckRef)
  end.

(** ['sample-rate' | 'echo-test' | 'mic-test']. *)
Variant Test := SampleRateTest | EchoTest | MicTest.

(** The [any] a single test hands back. *)
Variant TestResult :=
| Rate (sampleRate : number)
| Echo (r : AudioCheck.EchoTestResult)
| Mic (r : AudioCheck.MicTestResult).

(** The [switch (test)] of [runIndividualTest]; its [default] branch is out
    of reach of the three values of the type. *)
Definition runTest (env : AudioCheck.Platform) (test : Test)
  : AudioCheck.M TestResult :=
  match test with
  | SampleRateTest =>
      AudioCheck.bind (AudioCheck.getSampleRate env)
        (fun r => AudioCheck.ret (Rate r))
  | EchoTest =>
      AudioCheck.bind (AudioCheck.runEchoTest env)
        (fun r => AudioCheck.ret (Echo r))
  | MicTest =>
      AudioCheck.bind (AudioCheck.runMicTest env)
        (fun r => AudioCheck.ret (Mic r))
  end.

(** [runIndividualTest]: the harness is initialized first when it is not,
    and every error ends in the [catch] block. *)
Definition runIndividualTest (env : AudioCheck.Platform) (test : Test) (h : Hook)
    (audioCheckRef : option AudioCheck.State)
  : Reply (option TestResult) * Hook * option AudioCheck.State :=
  match isRunning h, audioCheckRef with
  | false, Some audioCheck =>
      let h := setError None (setIsRunning true h) in
      let caught message h audioCheck :=
        (Settles None,
         setIsRunning false (setError (Some (AudioCheck.Text message)) h),
         Some audioCheck) in
      let test h audioCheck :=
        match during (runTest env test) h audioCheck with
        | (AudioCheck.Returned result, h, audioCheck) =>
            (Settles (Some result), setIsRunning false h, Some audioCheck)
        | (AudioCheck.Thrown message, h, audioCheck) => caught message h audioCheck
        | (AudioCheck.Diverged, h, audioCheck) => (Hangs, h, Some audioCheck)
        end in
      if AudioCheck.isInitialized audioCheck then test h audioCheck
      else
        match during (AudioCheck.init env) h audioCheck with
        | (AudioCheck.Returned _, h, audioCheck) =>
            test (setIsInitialized true h) audioCheck
        | (AudioCheck.Thrown message, h, audioCheck) => caught message h audioCheck
        | (AudioCheck.Diverged, h, audioCheck) => (Hangs, h, Some audioCheck)
        end
  | _, _ => (Settles None, h, audioCheckRef)
  end.

(** [init] of the hook. *)
Definition init (env : AudioCheck.Platform) (h : Hook)
    (audioCheckRef : option AudioCheck.State)
  : Reply unit * Hook * option AudioCheck.State :=
  match audioCheckRef with
  | None => (Settles tt, h, None)
  | Some audioCheck =>
      match during (AudioCheck.init env) h audioCheck with
      | (AudioCheck.Returned _, h, audioCheck) =>
          (Settles tt, setError None (setIsInitialized true h), Some audioCheck)
      | (AudioCheck.Thrown message, h, audioCheck) =>
          (Settles tt,
           setIsInitialized false (setError (Some (AudioCheck.Text message)) h),
           Some audioCheck)
      | (AudioCheck.Diverged, h, audioCheck) => (Hangs, h, Some audioCheck)
      end
  end.

(** [cleanup] of the hook: it leaves [results] alone. *)
Definition cleanup (h : Hook) (audioCheckRef : option AudioCheck.State)
  : Hook * option AudioCheck.State :=
  (setIsInitialized false (setError None (setProgress None (setIsRunning false h))),
   option_map (fun audioCheck => AudioCheck.final (AudioCheck.cleanup audioCheck))
     audioCheckRef).

(** [handleRunAllTests] of the view: whether it went on to the session
    ([onAudioCheckPassed]). *)
Definition handleRunAllTests (env : AudioCheck.Platform) (h : Hook)
    (audioCheckRef : option AudioCheck.State)
  : Reply bool * Hook * option AudioCheck.State :=
  if negb (isInitialized h) then (Settles false, h, audioCheckRef)
  else
    match runAllTests env h audioCheckRef with
    | (Settles (Some testResults), h, ref) =>
        (Settles (AudioCheck.overallPassed testResults), h, ref)
    | (Settles None, h, ref) => (Settles false, h, ref)
    | (Hangs, h, ref) => (Hangs, h, ref)
    end.

(** The configuration the view passes. *)
Definition viewConfig : AudioCheck.ConfigOptions := {|
  AudioCheck.opt_echoTestDuration := Some 3;
  AudioCheck.opt_micTestDuration := Some 2;
  AudioCheck.opt_minMicLevel := Some 0.001;
  AudioCheck.opt_maxBackgroundNoise := Some 0.005;
  AudioCheck.opt_echoThreshold := Some 0.05;
  AudioCheck.opt_targetSampleRate := Some 24000
|}.

(** The view once mounted on a platform: the instance made and [init]
    called. *)
Definition viewStarted (env : AudioCheck.Platform)
  : Hook * option AudioCheck.State :=
  let '(_, h, ref) := init env (fst (mounted viewConfig)) (snd (mounted viewConfig)) in
  (h, ref).

End UseAudioCheck.

(** ** The capture pipeline: [AudioRecorder] *)

Module AudioRecorder.

(** The capture device, as a counting test double sees it. A stream
    granted for [{ audio: true }] carries one audio track, so a stream and
    its track share an identifier. *)
Record Device := {
  requests : nat;    (** calls of [getUserMedia] *)
  opens : nat;       (** streams granted; also the next stream's identifier *)
  closes : nat;      (** live tracks stopped *)
  live : list nat    (** streams whose track is still live *)
}.

(** The [await] at which the body of [start] is suspended. *)
Variant Stage := AwaitUserMedia | AwaitContext | AwaitRecorderModule | AwaitVuModule.

(** The promise [start] creates. While pending it records where its
    executor is suspended and how many [handleStop] callbacks [stop] has
    attached with [then]. *)
Variant Promise :=
| Pending (stage : Stage) (onFulfilled : nat)
| Fulfilled
| Rejected.

Record Recorder := {
  stream : option nat;
  audioContext : bool;
  source : option nat;          (** the stream the source node reads *)
  outputs : nat;                (** nodes the source is connected to *)
  recording : bool;
  recordingWorklet : bool;
  vuWorklet : bool;
  sampleRate : JS.number;
  starting : option nat         (** the promise in [this.starting] *)
}.

Record System := {
  recorder : Recorder;
  promises : list Promise;
  device : Device;
  mediaDevices : bool           (** [navigator.mediaDevices.getUserMedia] exists *)
}.

Definition new (rate : JS.number) (supported : bool) : System := {|
  recorder := {| stream := None; audioContext := false; source := None;
                 outputs := 0; recording := false; recordingWorklet := false;
                 vuWorklet := false; sampleRate := rate; starting := None |};
  promises := [];
  device := {| requests := 0; opens := 0; closes := 0; live := [] |};
  mediaDevices := supported
|}.

(** [track.stop()]: ends a live track; nothing happens on an ended one. *)
Definition stopTrack (id : nat) (d : Device) : Device :=
  if existsb (Nat.eqb id) (live d)
  then {| requests := requests d; opens := opens d; closes := S (closes d);
          live := filter (fun x => negb (Nat.eqb id x)) (live d) |}
  else d.

(** The device grants a stream. *)
Definition grant (d : Device) : nat * Device :=
  (opens d, {| requests := requests d; opens := S (opens d); closes := closes d;
               live := live d ++ [opens d] |}).

Definition request (d : Device) : Device :=
  {| requests := S (requests d); opens := opens d; closes := closes d;
     live := live d |}.

Definition set_promise (p : nat) (v : Promise) (l : list Promise) : list Promise :=
  firstn p l ++ v :: skipn (S p) l.

Definition set_starting (v : option nat) (r : Recorder) : Recorder :=
  {| stream := stream r; audioContext := audioContext r; source := source r;
     outputs := outputs r; recording := recording r;
     recordingWorklet := recordingWorklet r; vuWorklet := vuWorklet r;
     sampleRate := sampleRate r; starting := v |}.

(** The closure [handleStop] of [stop]. *)
Definition handleStop (sys : System) : System :=
  let r := recorder sys in
  {| recorder :=
       {| stream := None; audioContext := audioContext r; source := source r;
          outputs := match source r with Some _ => 0 | None => outputs r end;
          recording := false; recordingWorklet := false; vuWorklet := false;
          sampleRate := sampleRate r; starting := starting r |};
     promises := promises sys;
     device := match stream r with
               | Some id => stopTrack id (device sys)
               | None => device sys
               end;
     mediaDevices := mediaDevices sys |}.

(** [start()]: no test of [this.starting]; the executor runs up to its
    first [await], which issues the device request. *)
Definition start (sys : System) : System :=
  if mediaDevices sys then
    {| recorder := set_starting (Some (List.length (promises sys))) (recorder sys);
       promises := promises sys ++ [Pending AwaitUserMedia 0];
       device := request (device sys);
       mediaDevices := mediaDevices sys |}
  else sys.

(** [stop()]. *)
Definition stop (sys : System) : System :=
  match starting (recorder sys) with
  | Some p =>
      match nth_error (promises sys) p with
      | Some (Pending st k) =>
          {| recorder := recorder sys;
             promises := set_promise p (Pending st (S k)) (promises sys);
             device := device sys;
             mediaDevices := mediaDevices sys |}
      | Some Fulfilled => handleStop sys
      | _ => sys
      end
  | None => handleStop sys
  end.

(** The [catch] block of the executor: [reject(error); this.starting = null]. *)
Definition fail (p : nat) (sys : System) : System :=
  {| recorder := set_starting None (recorder sys);
     promises := set_promise p Rejected (promises sys);
     device := device sys;
     mediaDevices := mediaDevices sys |}.

(** The pending [await] of promise [p]'s executor is fulfilled, and the
    executor runs to its next [await] or to its end. *)
Definition resolve (p : nat) (sys : System) : System :=
  let r := recorder sys in
  match nth_error (promises sys) p with
  | Some (Pending AwaitUserMedia k) =>
      let '(id, d) := grant (device sys) in
      {| recorder :=
           {| stream := Some id; audioContext := audioContext r;
              source := source r; outputs := outputs r;
              recording := recording r;
              recordingWorklet := recordingWorklet r; vuWorklet := vuWorklet r;
              sampleRate := sampleRate r; starting := starting r |};
         promises := set_promise p (Pending AwaitContext k) (promises sys);
         device := d;
         mediaDevices := mediaDevices sys |}
  | Some (Pending AwaitContext k) =>
      match stream r with
      | Some id =>
          {| recorder :=
               {| stream := stream r; audioContext := true;
                  source := Some id; outputs := 0;
                  recording := recording r;
                  recordingWorklet := recordingWorklet r;
                  vuWorklet := vuWorklet r;
                  sampleRate := sampleRate r; starting := starting r |};
             promises := set_promise p (Pending AwaitRecorderModule k) (promises sys);
             device := device sys;
             mediaDevices := mediaDevices sys |}
      | None =>
          (* createMediaStreamSource(undefined) throws *)
          fail p
            {| recorder :=
                 {| stream := stream r; audioContext := true;
                    source := source r; outputs := outputs r;
                    recording := recording r;
                    recordingWorklet := recordingWorklet r;
                    vuWorklet := vuWorklet r;
                    sampleRate := sampleRate r; starting := starting r |};
               promises := promises sys;
               device := device sys;
               mediaDevices := mediaDevices sys |}
      end
  | Some (Pending AwaitRecorderModule k) =>
      {| recorder :=
           {| stream := stream r; audioContext := audioContext r;
              source := source r; outputs := S (outputs r);
              recording := recording r;
              recordingWorklet := true; vuWorklet := vuWorklet r;
              sampleRate := sampleRate r; starting := starting r |};
         promises := set_promise p (Pending AwaitVuModule k) (promises sys);
         device := device sys;
         mediaDevices := mediaDevices sys |}
  | Some (Pending AwaitVuModule k) =>
      let settled :=
        {| recorder :=
             {| stream := stream r; audioContext := audioContext r;
                source := source r; outputs := S (outputs r);
                recording := true;
                recordingWorklet := recordingWorklet r; vuWorklet := true;
                sampleRate := sampleRate r; starting := None |};
           promises := set_promise p Fulfilled (promises sys);
           device := device sys;
           mediaDevices := mediaDevices sys |} in
      (* the callbacks attached with [then] run once the executor is done *)
      Nat.iter k handleStop settled
  | _ => sys
  end.

(** The pending [await] of promise [p]'s executor is rejected. *)
Definition reject (p : nat) (sys : System) : System :=
  match nth_error (promises sys) p with
  | Some (Pending _ _) => fail p sys
  | _ => sys
  end.

(** What happens to a recorder: calls from the application, and awaited
    platform operations settling. *)
Variant Action :=
| CallStart
| CallStop
| Resolve (p : nat)
| Reject (p : nat).

Definition step (sys : System) (a : Action) : System :=
  match a with
  | CallStart => start sys
  | CallStop => stop sys
  | Resolve p => resolve p sys
  | Reject p => reject p sys
  end.

Definition run (sys : System) (l : list Action) : System :=
  fold_left step l sys.

(** A promise that has not settled. *)
Definition inFlight (sys : System) (p : nat) : bool :=
  match nth_error (promises sys) p with
  | Some (Pending _ _) => true
  | _ => false
  end.

(** The guarantee on [start] as the specification words it: a call made
    while the attempt in [this.starting] is in flight observes that attempt
    and asks the device for nothing. *)
Definition joinsAttemptInFlight (sys : System) : bool :=
  match starting (recorder sys) with
  | Some p =>
      if inFlight sys p then
        match starting (recorder (start sys)) with
        | Some q => Nat.eqb q p
        | None => false
        end
        && Nat.eqb (requests (device (start sys))) (requests (device sys))
      else true
  | None => true
  end.

(** [start] then [stop] on a fresh recorder, then the awaits of the attempt
    fulfilled [granted] times, then one rejected. *)
Definition stopThenFail (granted : nat) : list Action :=
  [CallStart; CallStop] ++ repeat (Resolve 0) granted ++ [Reject 0].

(** The promise in [this.starting], when there is one, has not settled. *)
Definition startingInFlight (sys : System) : Prop :=
  match starting (recorder sys) with
  | Some p => inFlight sys p = true
  | None => True
  end.

(** A live stream that [this.stream] does not hold. *)
Definition unreferenced (id : nat) (sys : System) : Prop :=
  In id (live (device sys)) /\ id < opens (device sys)
  /\ stream (recorder sys) <> Some id.

End AudioRecorder.

(** * Properties *)

(** ** Facts about the arithmetic of doubles *)

Module RoundingFacts.

Import JS Rounding.
Local Open Scope Z_scope.

Lemma digits2_pos_size p : digits2_pos p = Pos.size p.
Proof. induction p; simpl; congruence. Qed.

Lemma size_bounds p : 2 ^ (Z.pos (Pos.size p) - 1) <= Z.pos p < 2 ^ Z.pos (Pos.size p).
Proof.
  split.
  - pose proof (Pos.size_le p) as H.
    assert (H' : Z.pos (2 ^ Pos.size p) <= Z.pos p~0) by exact H.
    rewrite Pos2Z.inj_pow in H'. change (Z.pos p~0) with (2 * Z.pos p) in H'.
    replace (Z.pos (Pos.size p)) with (Z.succ (Z.pos (Pos.size p) - 1)) in H' by lia.
    rewrite Z.pow_succ_r in H' by lia. lia.
  - pose proof (Pos.size_gt p) as H.
    assert (H' : Z.pos p < Z.pos (2 ^ Pos.size p)) by exact H.
    now rewrite Pos2Z.inj_pow in H'.
Qed.

Lemma digits_unique p d :
  2 ^ (d - 1) <= Z.pos p < 2 ^ d -> Z.pos (digits2_pos p) = d.
Proof.
  intros [Hl Hu]. rewrite digits2_pos_size.
  destruct (size_bounds p) as [Sl Su].
  assert (0 < d).
  { destruct (Z.ltb_spec 0 d); [assumption|].
    rewrite (Z.pow_neg_r 2 (d - 1)) in Hl by lia.
    destruct (Z.eq_dec d 0) as [->|]; [simpl in Hu; lia|].
    rewrite (Z.pow_neg_r 2 d) in Hu by lia. lia. }
  destruct (Z.lt_trichotomy (Z.pos (Pos.size p)) d) as [L|[E|G]]; [|exact E|].
  - assert (2 ^ Z.pos (Pos.size p) <= 2 ^ (d - 1)) by (apply Z.pow_le_mono_r; lia). lia.
  - assert (2 ^ d <= 2 ^ (Z.pos (Pos.size p) - 1)) by (apply Z.pow_le_mono_r; lia). lia.
Qed.

(** shr *)
Lemma iter_pos_nat {A} (f : A -> A) p : forall x,
  iter_pos f p x = Nat.iter (Pos.to_nat p) f x.
Proof.
  induction p as [p IH|p IH|]; intros x; cbn [iter_pos].
  - rewrite !IH, Pos2Nat.inj_xI, Nat.iter_succ_r.
    replace (2 * Pos.to_nat p)%nat with (Pos.to_nat p + Pos.to_nat p)%nat by lia.
    now rewrite Nat.iter_add.
  - rewrite !IH, Pos2Nat.inj_xO.
    replace (2 * Pos.to_nat p)%nat with (Pos.to_nat p + Pos.to_nat p)%nat by lia.
    now rewrite Nat.iter_add.
  - reflexivity.
Qed.

Lemma shr_1_nonneg m r s :
  0 <= m ->
  shr_1 {| shr_m := m; shr_r := r; shr_s := s |}
  = {| shr_m := m / 2; shr_r := Z.odd m; shr_s := r || s |}.
Proof.
  intros H. rewrite <- Z.div2_div.
  destruct m as [|[p|p|]|p]; try reflexivity. lia.
Qed.

Lemma iter_shr_1 m k :
  0 <= m ->
  Nat.iter k shr_1 {| shr_m := m; shr_r := false; shr_s := false |} = shifted m k.
Proof.
  intros Hm. induction k as [|k IH]; [reflexivity|].
  simpl Nat.iter. rewrite IH. destruct k as [|j].
  - simpl shifted. rewrite shr_1_nonneg by assumption.
    simpl. rewrite Z.div_1_r, Z.mod_1_r. reflexivity.
  - unfold shifted. rewrite shr_1_nonneg by (apply Z.div_pos; lia).
    f_equal.
    + rewrite Z.div_div by lia.
      f_equal. rewrite (Nat2Z.inj_succ (S j)), Z.pow_succ_r by lia. lia.
    + rewrite (Nat2Z.inj_succ j), Z.pow_succ_r by lia.
      set (b := 2 ^ Z.of_nat j). assert (0 < b) by (apply Z.pow_pos_nonneg; lia).
      rewrite (Z.mul_comm 2 b), Z.rem_mul_r by lia.
      pose proof (Z.mod_pos_bound m b ltac:(lia)).
      rewrite (Zmod_odd (m / b)).
      destruct (Z.odd (m / b)); simpl.
      * destruct (Z.eqb_spec (m mod b + b * 1) 0); [lia|].
        now destruct (m mod b =? 0).
      * rewrite Z.mul_0_r, Z.add_0_r. reflexivity.
Qed.

Lemma shr_nonneg m e k :
  0 <= m -> 0 < k ->
  shr {| shr_m := m; shr_r := false; shr_s := false |} e k
  = ({| shr_m := m / 2 ^ k;
        shr_r := Z.odd (m / 2 ^ (k - 1));
        shr_s := negb (m mod 2 ^ (k - 1) =? 0) |}, e + k).
Proof.
  intros Hm Hk. destruct k as [|kp|kp]; try lia.
  unfold shr. rewrite iter_pos_nat, iter_shr_1 by assumption.
  destruct (Pos.to_nat kp) as [|j] eqn:E; [lia|].
  unfold shifted. rewrite <- E, positive_nat_Z.
  replace (Z.of_nat j) with (Z.pos kp - 1) by lia. reflexivity.
Qed.

Lemma round_of_shifted m k :
  round_nearest_even (m / 2 ^ k)
    (loc_of_shr_record {| shr_m := m / 2 ^ k;
                          shr_r := Z.odd (m / 2 ^ (k - 1));
                          shr_s := negb (m mod 2 ^ (k - 1) =? 0) |})
  = roundedMantissa m k.
Proof.
  unfold roundedMantissa, loc_of_shr_record, round_nearest_even.
  destruct (Z.odd (m / 2 ^ (k - 1))), (m mod 2 ^ (k - 1) =? 0); simpl;
    rewrite <- ?Z.negb_odd; destruct (Z.odd (m / 2 ^ k)); reflexivity.
Qed.

Lemma fexp_normal d : -1074 <= d - 53 -> fexp prec emax d = d - 53.
Proof. unfold fexp, SpecFloat.emin, prec, emax. lia. Qed.

Lemma quotient_bounds P D k :
  2 ^ (D - 1) <= P < 2 ^ D -> k = D - 53 -> 0 < k ->
  2 ^ 52 <= P / 2 ^ k < 2 ^ 53.
Proof.
  intros [Hl Hu] -> Hk.
  assert (Hp : 0 < 2 ^ (D - 53)) by (apply Z.pow_pos_nonneg; lia).
  assert (E1 : 2 ^ (D - 1) = 2 ^ 52 * 2 ^ (D - 53))
    by (rewrite <- Z.pow_add_r by lia; f_equal; lia).
  assert (E2 : 2 ^ D = 2 ^ 53 * 2 ^ (D - 53))
    by (rewrite <- Z.pow_add_r by lia; f_equal; lia).
  split.
  - apply Z.div_le_lower_bound; lia.
  - apply Z.div_lt_upper_bound; lia.
Qed.

Lemma roundedMantissa_bounds P k :
  P / 2 ^ k <= roundedMantissa P k <= P / 2 ^ k + 1.
Proof.
  unfold roundedMantissa.
  destruct (Z.odd (P / 2 ^ (k - 1)) && (negb (P mod 2 ^ (k - 1) =? 0) || Z.odd (P / 2 ^ k)));
    lia.
Qed.

Lemma floor_round_aux (P : positive) (e D k : Z) :
  Z.pos (digits2_pos P) = D -> k = D - 53 -> 0 < k ->
  -1074 <= e + k -> e + k < 0 ->
  floorSF (binary_round_aux prec emax false (Z.pos P) e loc_Exact)
  = Some (roundedMantissa (Z.pos P) k / 2 ^ (- (e + k))).
Proof.
  intros HD Hk Hpos Hmin Hneg.
  assert (HP : 2 ^ (D - 1) <= Z.pos P < 2 ^ D).
  { rewrite <- HD, digits2_pos_size. apply size_bounds. }
  pose proof (quotient_bounds _ _ _ HP Hk Hpos) as Hq.
  pose proof (roundedMantissa_bounds (Z.pos P) k) as HM.
  unfold binary_round_aux, shr_fexp.
  change (Zdigits2 (Z.pos P)) with (Z.pos (digits2_pos P)). rewrite HD.
  rewrite fexp_normal by lia.
  replace (D + e - 53 - e) with k by lia.
  change (shr_record_of_loc (Z.pos P) loc_Exact)
    with {| shr_m := Z.pos P; shr_r := false; shr_s := false |}.
  rewrite shr_nonneg by lia. cbv beta iota zeta. cbn [shr_m].
  rewrite round_of_shifted.
  set (M := roundedMantissa (Z.pos P) k) in *.
  destruct M as [|Mp|Mp] eqn:EM; try lia.
  change (shr_record_of_loc (Z.pos Mp) loc_Exact)
    with {| shr_m := Z.pos Mp; shr_r := false; shr_s := false |}.
  change (Zdigits2 (Z.pos Mp)) with (Z.pos (digits2_pos Mp)).
  destruct (Z.ltb_spec (Z.pos Mp) (2 ^ 53)) as [Hlt|Hge].
  - rewrite (digits_unique Mp 53) by (change (2 ^ (53 - 1)) with (2 ^ 52); lia).
    rewrite fexp_normal by lia.
    replace (53 + (e + k) - 53 - (e + k)) with 0 by lia.
    cbn [shr shr_m].
    destruct (Z.leb_spec (e + k) (emax - prec)) as [_|H];
      [|unfold emax, prec in H; lia].
    destruct (e + k) as [|tp|tp] eqn:Et; try lia.
    cbn [floorSF]. rewrite Z.shiftr_div_pow2 by lia. reflexivity.
  - assert (EMp : Z.pos Mp = 2 ^ 53) by lia.
    rewrite (digits_unique Mp 54)
      by (change (2 ^ (54 - 1)) with (2 ^ 53); change (2 ^ 54) with (2 * 2 ^ 53); lia).
    rewrite fexp_normal by lia.
    replace (54 + (e + k) - 53 - (e + k)) with 1 by lia.
    rewrite shr_nonneg by lia. cbn [shr_m].
    rewrite EMp. change (2 ^ 53 / 2 ^ 1) with (2 ^ 52).
    change (2 ^ 52) with (Z.pos (2 ^ 52)) at 1. cbn iota.
    destruct (Z.leb_spec (e + k + 1) (emax - prec)) as [_|H];
      [|unfold emax, prec in H; lia].
    destruct (e + k + 1) as [|tp|tp] eqn:Et; try lia.
    + cbn [floorSF]. replace (- (e + k)) with 1 by lia. reflexivity.
    + cbn [floorSF]. rewrite Z.shiftr_div_pow2 by lia.
      f_equal. replace (- (e + k)) with (Z.pos tp + 1) by lia.
      rewrite Z.pow_add_r by lia.
      change (2 ^ 53) with (2 ^ 52 * 2 ^ 1).
      rewrite Z.mul_comm, (Z.mul_comm (2 ^ Z.pos tp)).
      rewrite Z.div_mul_cancel_l; lia.
Qed.

Lemma iter_xO m k : Z.pos (Pos.iter xO m k) = Z.pos m * 2 ^ Z.pos k.
Proof.
  induction k as [|k IH] using Pos.peano_ind.
  - simpl. lia.
  - rewrite Pos.iter_succ, Pos2Z.inj_succ, Z.pow_succ_r by lia.
    change (Z.pos (Pos.iter xO m k)~0) with (2 * Z.pos (Pos.iter xO m k)).
    rewrite IH. lia.
Qed.

Lemma binary_round_aux_exact m e :
  Z.pos (digits2_pos m) = 53 -> -1074 <= e <= 971 ->
  binary_round_aux prec emax false (Z.pos m) e loc_Exact = S754_finite false m e.
Proof.
  intros Hd He. unfold binary_round_aux, shr_fexp.
  change (Zdigits2 (Z.pos m)) with (Z.pos (digits2_pos m)). rewrite Hd.
  rewrite fexp_normal by lia.
  replace (53 + e - 53 - e) with 0 by lia.
  cbn [shr shr_record_of_loc shr_m loc_of_shr_record round_nearest_even].
  cbv beta iota zeta.
  change (Zdigits2 (Z.pos m)) with (Z.pos (digits2_pos m)). rewrite Hd.
  rewrite fexp_normal by lia.
  replace (53 + e - 53 - e) with 0 by lia.
  cbn [shr shr_record_of_loc shr_m].
  destruct (Z.leb_spec e (emax - prec)) as [_|H]; [reflexivity|].
  unfold emax, prec in H. lia.
Qed.

Lemma Prim2SF_ofZ n d :
  1 <= d <= 53 -> 2 ^ (d - 1) <= n < 2 ^ d ->
  Prim2SF (ofZ n) = S754_finite false (Z.to_pos (n * 2 ^ (53 - d))) (d - 53).
Proof.
  intros Hd Hn. unfold ofZ. rewrite of_uint63_spec, Uint63.of_Z_spec.
  assert (Hpow : 0 < 2 ^ (d - 1)) by (apply Z.pow_pos_nonneg; lia).
  assert (Hw : 2 ^ d <= wB).
  { change wB with (2 ^ 63). apply Z.pow_le_mono_r; lia. }
  rewrite Z.mod_small by lia.
  destruct n as [|p|p]; try lia.
  unfold binary_normalize, binary_round.
  rewrite (digits_unique p d) by assumption.
  rewrite Z.add_0_r, fexp_normal by lia.
  unfold shl_align. rewrite Z.sub_0_r.
  destruct (d - 53) as [|q|q] eqn:E; try lia.
  - replace (53 - d) with 0 by lia. rewrite Z.mul_1_r. cbn [Z.to_pos].
    apply binary_round_aux_exact; [|lia].
    rewrite (digits_unique p d) by assumption. lia.
  - replace (53 - d) with (Z.pos q) by lia.
    assert (Em : Z.pos (Pos.iter xO p q) = Z.pos p * 2 ^ Z.pos q) by apply iter_xO.
    rewrite <- Em. cbn [Z.to_pos].
    apply binary_round_aux_exact; [|lia].
    apply digits_unique. rewrite Em.
    assert (E53 : 2 ^ 53 = 2 ^ d * 2 ^ Z.pos q)
      by (rewrite <- Z.pow_add_r by lia; f_equal; lia).
    assert (E52 : 2 ^ (53 - 1) = 2 ^ (d - 1) * 2 ^ Z.pos q)
      by (rewrite <- Z.pow_add_r by lia; f_equal; lia).
    assert (0 < 2 ^ Z.pos q) by (apply Z.pow_pos_nonneg; lia).
    rewrite E53, E52. split.
    + apply Z.mul_le_mono_nonneg_r; lia.
    + apply Z.mul_lt_mono_pos_r; lia.
Qed.

Lemma floor_mul_ofZ n d c MC EC D :
  1 <= d <= 53 -> 2 ^ (d - 1) <= n < 2 ^ d ->
  Prim2SF c = S754_finite false MC EC ->
  2 ^ (D - 1) <= n * 2 ^ (53 - d) * Z.pos MC < 2 ^ D -> 53 < D ->
  -1074 <= d - 53 + EC + (D - 53) < 0 ->
  floorZ (ofZ n * c)%float
  = Some (roundedMantissa (n * 2 ^ (53 - d) * Z.pos MC) (D - 53)
          / 2 ^ (- (d - 53 + EC + (D - 53)))).
Proof.
  intros Hd Hn Hc HP HD He. unfold floorZ.
  rewrite FloatAxioms.mul_spec, (Prim2SF_ofZ n d Hd Hn), Hc.
  unfold SF64mul, SFmul. cbn [xorb].
  assert (Hpow : 0 < 2 ^ (d - 1)) by (apply Z.pow_pos_nonneg; lia).
  assert (Hpow' : 0 < 2 ^ (53 - d)) by (apply Z.pow_pos_nonneg; lia).
  assert (Hm : 0 < n * 2 ^ (53 - d)) by lia.
  rewrite Pos2Z.inj_mul, Z2Pos.id by exact Hm.
  assert (EP : n * 2 ^ (53 - d) * Z.pos MC
               = Z.pos (Z.to_pos (n * 2 ^ (53 - d)) * MC)).
  { rewrite Pos2Z.inj_mul, Z2Pos.id by exact Hm. reflexivity. }
  rewrite EP in HP |- *.
  rewrite (floor_round_aux _ (d - 53 + EC) D (D - 53)); try lia.
  - reflexivity.
  - apply digits_unique. exact HP.
Qed.

Local Open Scope Z_scope.

Lemma div_of_bounds M T a : T * a <= M < T * (a + 1) -> M / T = a.
Proof. intros H. symmetry. apply (Z.div_unique M T a (M - T * a)); lia. Qed.

Lemma odd_pred_even x : Z.even x = true -> Z.odd (x - 1) = true.
Proof. intros H. rewrite Z.odd_sub, <- Z.negb_even, H. reflexivity. Qed.

(** [P] stands for the exact product of the mantissas of [n] and of 0.95, [K]
    for the weight of the bits rounded away and [T] for the weight of the
    fraction bits left. *)
Lemma floor_rounded_095 n C1 K Kh T :
  0 < n < 2 ^ 32 -> 0 < C1 -> C1 * n < 2 ^ 53 ->
  K = 2 * Kh -> 0 < Kh -> K * T = C1 * 2 ^ 53 ->
  100 < T -> Z.even T = true ->
  n * C1 * 8556839292003942 < 2 ^ 53 * K ->
  let P := n * C1 * 8556839292003942 in
  (if Z.odd (P / Kh) && (negb (P mod Kh =? 0) || Z.odd (P / K))
   then P / K + 1 else P / K) / T = n * 95 / 100.
Proof.
  intros Hn HC HCn HK HKh HW HT HTe HP P.
  change (2 ^ 32) with 4294967296 in *.
  change (2 ^ 53) with 9007199254740992 in *.
  assert (Hid : 100 * P = K * T * (n * 95) - 40 * (C1 * n)).
  { unfold P. rewrite HW. ring. }
  pose proof (Z.div_mod (n * 95) 100 ltac:(lia)) as Ha.
  pose proof (Z.mod_pos_bound (n * 95) 100 ltac:(lia)) as Hr.
  set (a := n * 95 / 100) in *. set (rho := (n * 95) mod 100) in *.
  clearbody a rho.
  pose proof (Z.div_mod P K ltac:(lia)) as Hq.
  pose proof (Z.mod_pos_bound P K ltac:(lia)) as Hqr.
  set (q := P / K) in *. set (r := P mod K) in *.
  rewrite Ha in Hid.
  replace (K * T * (100 * a + rho)) with (100 * (K * T * a) + rho * (K * T)) in Hid by ring.
  assert (HCn' : C1 * n < C1 * 4294967296) by (apply Z.mul_lt_mono_pos_l; lia).
  destruct (Z.eq_dec rho 0) as [Z0|NZ].
  - (* 20 divides n: the product lies just below the integer [a] and is
       rounded up onto it *)
    subst rho.
    set (m := n - a). assert (Hm : n = 20 * m) by (unfold m; lia).
    assert (Ha' : a = 19 * m) by (unfold m; lia).
    clearbody m. clear Ha Hr.
    assert (Hx : 0 < C1 * m) by (apply Z.mul_pos_pos; lia).
    assert (HPd : P = K * T * a - 8 * (C1 * m)).
    { rewrite Hm in Hid.
      replace (C1 * (20 * m)) with (20 * (C1 * m)) in Hid by ring. lia. }
    assert (HKa : 19 * (C1 * m) <= K).
    { fold P in HP. rewrite HPd, HW in HP.
      rewrite Ha' in HP.
      replace (C1 * 9007199254740992 * (19 * m))
        with (9007199254740992 * (19 * (C1 * m))) in HP by ring.
      rewrite Hm in HCn.
      replace (C1 * (20 * m)) with (20 * (C1 * m)) in HCn by ring. lia. }
    assert (Eq : P / K = T * a - 1).
    { symmetry. apply (Z.div_unique P K (T * a - 1) (K - 8 * (C1 * m))); [lia|].
      rewrite HPd. ring. }
    assert (Eh : P / Kh = 2 * (T * a) - 1).
    { symmetry. apply (Z.div_unique P Kh (2 * (T * a) - 1) (Kh - 8 * (C1 * m))); [lia|].
      rewrite HPd, HK. ring. }
    unfold q. rewrite Eh, Eq.
    assert (O1 : Z.odd (2 * (T * a) - 1) = true).
    { apply odd_pred_even. now rewrite Z.even_mul. }
    assert (O2 : Z.odd (T * a - 1) = true).
    { apply odd_pred_even. now rewrite Z.even_mul, HTe. }
    rewrite O1, O2, orb_true_r. cbn [andb].
    replace (T * a - 1 + 1) with (a * T) by ring.
    rewrite Z.div_mul by lia. reflexivity.
  - assert (Hrho : C1 * 9007199254740992 <= rho * (K * T)).
    { rewrite HW. rewrite <- (Z.mul_1_l (C1 * 9007199254740992)) at 1.
      apply Z.mul_le_mono_nonneg_r; lia. }
    assert (Hlo : T * a <= q).
    { destruct (Z.le_gt_cases (T * a) q) as [|Hc]; [assumption|exfalso].
      assert (K * (q + 1) <= K * (T * a)) by (apply Z.mul_le_mono_nonneg_l; lia).
      replace (K * (T * a)) with (K * T * a) in * by ring. lia. }
    assert (Hrho' : rho * (K * T) <= 99 * (K * T)).
    { apply Z.mul_le_mono_nonneg_r; [|lia]. rewrite HW. lia. }
    assert (HKT : 100 * K < K * T) by (rewrite (Z.mul_comm K T); apply Z.mul_lt_mono_pos_r; lia).
    assert (Hhi : q + 1 < T * (a + 1)).
    { destruct (Z.lt_ge_cases (q + 1) (T * (a + 1))) as [|Hc]; [assumption|exfalso].
      assert (K * (T * (a + 1) - 1) <= K * q) by (apply Z.mul_le_mono_nonneg_l; lia).
      replace (K * (T * (a + 1) - 1)) with (K * T * a + K * T - K) in * by ring. lia. }
    apply div_of_bounds. fold q.
    destruct (Z.odd (P / Kh) && (negb (P mod Kh =? 0) || Z.odd q)); lia.
Qed.

(** The same for 0.10, whose double lies just above one tenth. *)
Lemma floor_rounded_010 n C1 K Kh T :
  0 < n < 2 ^ 32 -> 0 < C1 ->
  K = 2 * Kh -> 0 < Kh -> K * T = C1 * 2 ^ 56 ->
  100 < T ->
  let P := n * C1 * 7205759403792794 in
  (if Z.odd (P / Kh) && (negb (P mod Kh =? 0) || Z.odd (P / K))
   then P / K + 1 else P / K) / T = n * 10 / 100.
Proof.
  intros Hn HC HK HKh HW HT P.
  change (2 ^ 32) with 4294967296 in *.
  change (2 ^ 56) with 72057594037927936 in *.
  assert (Hid : 100 * P = K * T * (n * 10) + 40 * (C1 * n)).
  { unfold P. rewrite HW. ring. }
  pose proof (Z.div_mod (n * 10) 100 ltac:(lia)) as Ha.
  pose proof (Z.mod_pos_bound (n * 10) 100 ltac:(lia)) as Hr.
  set (a := n * 10 / 100) in *. set (rho := (n * 10) mod 100) in *.
  clearbody a rho.
  assert (Hr' : rho <= 90) by lia.
  pose proof (Z.div_mod P K ltac:(lia)) as Hq.
  pose proof (Z.mod_pos_bound P K ltac:(lia)) as Hqr.
  set (q := P / K) in *. set (r := P mod K) in *.
  rewrite Ha in Hid.
  replace (K * T * (100 * a + rho)) with (100 * (K * T * a) + rho * (K * T)) in Hid by ring.
  assert (HCn : 0 < C1 * n < C1 * 4294967296).
  { split; [apply Z.mul_pos_pos; lia|apply Z.mul_lt_mono_pos_l; lia]. }
  assert (Hrho : 0 <= rho * (K * T) <= 90 * (K * T)).
  { split; [apply Z.mul_nonneg_nonneg; [lia|rewrite HW; lia]|].
    apply Z.mul_le_mono_nonneg_r; [rewrite HW|]; lia. }
  assert (HKT : 100 * K < K * T)
    by (rewrite (Z.mul_comm K T); apply Z.mul_lt_mono_pos_r; lia).
  assert (Hlo : T * a <= q).
  { destruct (Z.le_gt_cases (T * a) q) as [|Hc]; [assumption|exfalso].
    assert (K * (q + 1) <= K * (T * a)) by (apply Z.mul_le_mono_nonneg_l; lia).
    replace (K * (T * a)) with (K * T * a) in * by ring. lia. }
  assert (Hhi : q + 1 < T * (a + 1)).
  { destruct (Z.lt_ge_cases (q + 1) (T * (a + 1))) as [|Hc]; [assumption|exfalso].
    assert (K * (T * (a + 1) - 1) <= K * q) by (apply Z.mul_le_mono_nonneg_l; lia).
    replace (K * (T * (a + 1) - 1)) with (K * T * a + K * T - K) in * by ring. lia. }
  apply div_of_bounds. fold q.
  destruct (Z.odd (P / Kh) && (negb (P mod Kh =? 0) || Z.odd q)); lia.
Qed.

Lemma mantissa_product_bounds n d (MC : positive) :
  1 <= d <= 53 -> 2 ^ (d - 1) <= n < 2 ^ d ->
  2 ^ 52 <= Z.pos MC < 2 ^ 53 ->
  2 ^ 104 <= n * 2 ^ (53 - d) * Z.pos MC < 2 ^ 106.
Proof.
  intros Hd Hn HM.
  assert (0 < 2 ^ (53 - d)) by (apply Z.pow_pos_nonneg; lia).
  assert (E53 : 2 ^ 53 = 2 ^ d * 2 ^ (53 - d))
    by (rewrite <- Z.pow_add_r by lia; f_equal; lia).
  assert (E52 : 2 ^ 52 = 2 ^ (d - 1) * 2 ^ (53 - d))
    by (rewrite <- Z.pow_add_r by lia; f_equal; lia).
  assert (Hm : 2 ^ 52 <= n * 2 ^ (53 - d) < 2 ^ 53).
  { rewrite E52, E53. split.
    - apply Z.mul_le_mono_nonneg_r; lia.
    - apply Z.mul_lt_mono_pos_r; lia. }
  change (2 ^ 104) with (2 ^ 52 * 2 ^ 52).
  change (2 ^ 106) with (2 ^ 53 * 2 ^ 53).
  split.
  - apply Z.mul_le_mono_nonneg; lia.
  - apply Z.mul_lt_mono_nonneg; lia.
Qed.

(** The width of a positive integer below 2^32. *)
Lemma width_below_2_32 n :
  1 <= n < 2 ^ 32 -> exists d, 1 <= d <= 32 /\ 2 ^ (d - 1) <= n < 2 ^ d.
Proof.
  intros Hn. exists (Z.log2 n + 1).
  pose proof (Z.log2_spec n ltac:(lia)) as Hl.
  pose proof (Z.log2_nonneg n) as H0.
  assert (Hd : Z.log2 n < 32) by (apply Z.log2_lt_pow2; lia).
  split; [lia|].
  replace (Z.log2 n + 1 - 1) with (Z.log2 n) by lia.
  replace (Z.log2 n + 1) with (Z.succ (Z.log2 n)) by lia. exact Hl.
Qed.

Local Open Scope float_scope.

Ltac side_conditions :=
  try assumption; try lia;
  first
    [ reflexivity
    | rewrite <- !Z.pow_add_r by lia; f_equal; lia
    | apply Z.lt_le_trans with (2 ^ 21)%Z;
      [reflexivity|apply Z.pow_le_mono_r; lia]
    | rewrite Z.even_pow by lia; reflexivity
    | idtac ].

Lemma floor_095 n :
  (1 <= n < 2 ^ 32)%Z -> floorZ (ofZ n * 0.95) = Some (n * 95 / 100)%Z.
Proof.
  intros Hn. destruct (width_below_2_32 n Hn) as (d & Hd & Hn').
  assert (Hc : Prim2SF 0.95 = S754_finite false 8556839292003942 (-53))
    by reflexivity.
  pose proof (mantissa_product_bounds n d 8556839292003942 ltac:(lia) Hn'
                ltac:(vm_compute; split; congruence)) as HP.
  assert (HC : (0 < 2 ^ (53 - d))%Z) by (apply Z.pow_pos_nonneg; lia).
  assert (HCn : (2 ^ (53 - d) * n < 2 ^ 53)%Z).
  { replace (2 ^ 53)%Z with (2 ^ (53 - d) * 2 ^ d)%Z
      by (rewrite <- Z.pow_add_r by lia; f_equal; lia).
    apply Z.mul_lt_mono_pos_l; lia. }
  destruct (Z.ltb_spec (n * 2 ^ (53 - d) * 8556839292003942) (2 ^ 105)) as [Hlt|Hge].
  - rewrite (floor_mul_ofZ n d 0.95 _ _ 105 ltac:(lia) Hn' Hc);
      [|change (105 - 1)%Z with 104%Z; lia|lia|lia].
    f_equal. unfold roundedMantissa.
    apply (floor_rounded_095 n (2 ^ (53 - d)) (2 ^ (105 - 53)) (2 ^ (105 - 53 - 1))
             (2 ^ (- (d - 53 + -53 + (105 - 53))))); side_conditions.
  - rewrite (floor_mul_ofZ n d 0.95 _ _ 106 ltac:(lia) Hn' Hc);
      [|change (106 - 1)%Z with 105%Z; lia|lia|lia].
    f_equal. unfold roundedMantissa.
    apply (floor_rounded_095 n (2 ^ (53 - d)) (2 ^ (106 - 53)) (2 ^ (106 - 53 - 1))
             (2 ^ (- (d - 53 + -53 + (106 - 53))))); side_conditions.
Qed.

Lemma floor_010 n :
  (1 <= n < 2 ^ 32)%Z -> floorZ (ofZ n * 0.10) = Some (n * 10 / 100)%Z.
Proof.
  intros Hn. destruct (width_below_2_32 n Hn) as (d & Hd & Hn').
  assert (Hc : Prim2SF 0.10 = S754_finite false 7205759403792794 (-56))
    by reflexivity.
  pose proof (mantissa_product_bounds n d 7205759403792794 ltac:(lia) Hn'
                ltac:(vm_compute; split; congruence)) as HP.
  assert (HC : (0 < 2 ^ (53 - d))%Z) by (apply Z.pow_pos_nonneg; lia).
  destruct (Z.ltb_spec (n * 2 ^ (53 - d) * 7205759403792794) (2 ^ 105)) as [Hlt|Hge].
  - rewrite (floor_mul_ofZ n d 0.10 _ _ 105 ltac:(lia) Hn' Hc);
      [|change (105 - 1)%Z with 104%Z; lia|lia|lia].
    f_equal. unfold roundedMantissa.
    apply (floor_rounded_010 n (2 ^ (53 - d)) (2 ^ (105 - 53)) (2 ^ (105 - 53 - 1))
             (2 ^ (- (d - 53 + -56 + (105 - 53))))); side_conditions.
  - rewrite (floor_mul_ofZ n d 0.10 _ _ 106 ltac:(lia) Hn' Hc);
      [|change (106 - 1)%Z with 105%Z; lia|lia|lia].
    f_equal. unfold roundedMantissa.
    apply (floor_rounded_010 n (2 ^ (53 - d)) (2 ^ (106 - 53)) (2 ^ (106 - 53 - 1))
             (2 ^ (- (d - 53 + -56 + (106 - 53))))); side_conditions.
Qed.

(** *** The order of doubles *)

Local Open Scope Z_scope.

Lemma valid_finite s m e :
  valid_binary (S754_finite s m e) = true ->
  -1074 <= e <= 971
  /\ Z.pos (digits2_pos m) <= 53
  /\ (-1074 < e -> Z.pos (digits2_pos m) = 53).
Proof.
  unfold valid_binary, bounded, canonical_mantissa, fexp, SpecFloat.emin, emax, prec.
  intros H. apply andb_true_iff in H. destruct H as [Hc He].
  apply Z.eqb_eq in Hc. apply Z.leb_le in He. lia.
Qed.

Lemma mantissa_bounds m :
  2 ^ (Z.pos (digits2_pos m) - 1) <= Z.pos m < 2 ^ Z.pos (digits2_pos m).
Proof. rewrite digits2_pos_size. apply size_bounds. Qed.

Lemma scaled_lt m1 e1 m2 e2 :
  Z.pos (digits2_pos m1) <= 53 -> Z.pos (digits2_pos m2) = 53 ->
  -1074 <= e1 < e2 ->
  Z.pos m1 * 2 ^ (e1 + 1074) < Z.pos m2 * 2 ^ (e2 + 1074).
Proof.
  intros H1 H2 He.
  pose proof (mantissa_bounds m1) as B1. pose proof (mantissa_bounds m2) as B2.
  rewrite H2 in B2. change (2 ^ (53 - 1)) with (2 ^ 52) in B2.
  assert (Z.pos m1 < 2 ^ 53).
  { apply Z.lt_le_trans with (1 := proj2 B1). apply Z.pow_le_mono_r; lia. }
  assert (Hp : 0 < 2 ^ (e1 + 1074)) by (apply Z.pow_pos_nonneg; lia).
  assert (E : 2 ^ (e2 + 1074) = 2 ^ (e2 - e1) * 2 ^ (e1 + 1074))
    by (rewrite <- Z.pow_add_r by lia; f_equal; lia).
  assert (2 ^ 1 <= 2 ^ (e2 - e1)) by (apply Z.pow_le_mono_r; lia).
  change (2 ^ 1) with 2 in *. change (2 ^ 52) with 4503599627370496 in *.
  change (2 ^ 53) with 9007199254740992 in *.
  rewrite E, Z.mul_assoc.
  apply Z.mul_lt_mono_pos_r; [exact Hp|]. nia.
Qed.

Lemma key_finite m e :
  valid_binary (S754_finite false m e) = true ->
  0 < Z.pos m * 2 ^ (e + 1074) < 2 ^ 2200.
Proof.
  intros Hv. destruct (valid_finite _ _ _ Hv) as (He & Hd & _).
  pose proof (mantissa_bounds m) as B.
  assert (Hm : Z.pos m < 2 ^ 53).
  { apply Z.lt_le_trans with (1 := proj2 B). apply Z.pow_le_mono_r; lia. }
  assert (Hp : 0 < 2 ^ (e + 1074)) by (apply Z.pow_pos_nonneg; lia).
  split; [lia|].
  apply Z.lt_le_trans with (2 ^ 53 * 2 ^ (e + 1074)).
  - apply Z.mul_lt_mono_pos_r; lia.
  - rewrite <- Z.pow_add_r by lia. apply Z.pow_le_mono_r; lia.
Qed.

Ltac by_compare :=
  cbn [cond_Zopp]; cbv beta iota; f_equal; symmetry;
  first [ apply Z.compare_eq_iff; lia
        | apply Z.compare_lt_iff; lia
        | apply Z.compare_gt_iff; lia ].

Lemma SFcompare_key x y :
  valid_binary x = true -> valid_binary y = true ->
  x <> S754_nan -> y <> S754_nan ->
  SFcompare x y = Some (key x ?= key y).
Proof.
  intros Vx Vy Nx Ny.
  destruct x as [sx|sx| |sx mx ex]; [| |now elim Nx|];
    destruct y as [sy|sy| |sy my ey]; try (now elim Ny).
  - reflexivity.
  - destruct sy; reflexivity.
  - pose proof (key_finite my ey Vy). destruct sy; cbn [SFcompare key cond_Zopp]; by_compare.
  - destruct sx; reflexivity.
  - destruct sx, sy; reflexivity.
  - pose proof (key_finite my ey Vy). destruct sx, sy; cbn [SFcompare key cond_Zopp]; by_compare.
  - pose proof (key_finite mx ex Vx). destruct sx; cbn [SFcompare key cond_Zopp]; by_compare.
  - pose proof (key_finite mx ex Vx). destruct sx, sy; cbn [SFcompare key cond_Zopp]; by_compare.
  - pose proof (key_finite mx ex Vx) as Kx. pose proof (key_finite my ey Vy) as Ky.
    destruct (valid_finite _ _ _ Vx) as (Hex & Hdx & Hnx).
    destruct (valid_finite _ _ _ Vy) as (Hey & Hdy & Hny).
    assert (Hlt : ex < ey -> Z.pos mx * 2 ^ (ex + 1074) < Z.pos my * 2 ^ (ey + 1074))
      by (intros; apply scaled_lt; lia).
    assert (Hgt : ey < ex -> Z.pos my * 2 ^ (ey + 1074) < Z.pos mx * 2 ^ (ex + 1074))
      by (intros; apply scaled_lt; lia).
    assert (Heq : ex = ey ->
                  (Z.pos mx * 2 ^ (ex + 1074) ?= Z.pos my * 2 ^ (ey + 1074))
                  = Pos.compare_cont Eq mx my).
    { intros ->. rewrite <- Zmult_compare_compat_r; [reflexivity|].
      apply Z.lt_gt, Z.pow_pos_nonneg; lia. }
    cbn [SFcompare key cond_Zopp].
    destruct sx, sy.
    + destruct (Z.compare_spec ex ey) as [E|L|G].
      * cbn [cond_Zopp]. rewrite Z.compare_opp, Z.compare_antisym, (Heq E).
        reflexivity.
      * specialize (Hlt L). by_compare.
      * specialize (Hgt G). by_compare.
    + by_compare.
    + by_compare.
    + destruct (Z.compare_spec ex ey) as [E|L|G].
      * cbn [cond_Zopp]. now rewrite (Heq E).
      * specialize (Hlt L). by_compare.
      * specialize (Hgt G). by_compare.
Qed.

(** *** The sign of a difference *)

Lemma shr_fexp_positive m e :
  0 < m -> -1074 <= e ->
  0 < shr_m (fst (shr_fexp prec emax m e loc_Exact))
  /\ -1074 <= snd (shr_fexp prec emax m e loc_Exact).
Proof.
  intros Hm He. unfold shr_fexp.
  destruct m as [|p|p]; try lia.
  change (Zdigits2 (Z.pos p)) with (Z.pos (digits2_pos p)).
  change (shr_record_of_loc (Z.pos p) loc_Exact)
    with {| shr_m := Z.pos p; shr_r := false; shr_s := false |}.
  set (d := Z.pos (digits2_pos p)).
  set (s := fexp prec emax (d + e) - e).
  assert (Hs : 0 < s -> s = d - 53).
  { unfold s, fexp, SpecFloat.emin, emax, prec. lia. }
  destruct (Z_lt_le_dec 0 s) as [Hpos|Hneg].
  - rewrite shr_nonneg by lia. cbn [fst snd shr_m].
    pose proof (mantissa_bounds p) as B. fold d in B.
    pose proof (quotient_bounds (Z.pos p) d s B (Hs Hpos) Hpos) as Q.
    change (2 ^ 52) with 4503599627370496 in Q. lia.
  - destruct s as [|sp|sp]; try lia; cbn [shr fst snd shr_m]; lia.
Qed.

Lemma round_nearest_even_bounds m l :
  m <= round_nearest_even m l <= m + 1.
Proof.
  unfold round_nearest_even.
  destruct l as [|[| |]]; try lia. destruct (Z.even m); lia.
Qed.

(** Rounding a positive mantissa at an exponent that is not below the
    smallest one gives a number of the same sign, never a zero. *)
Lemma binary_round_aux_sign sx (m : positive) e :
  -1074 <= e ->
  (exists m' e', binary_round_aux prec emax sx (Z.pos m) e loc_Exact
                 = S754_finite sx m' e')
  \/ binary_round_aux prec emax sx (Z.pos m) e loc_Exact = S754_infinity sx.
Proof.
  intros He. unfold binary_round_aux.
  destruct (shr_fexp_positive (Z.pos m) e ltac:(lia) He) as [P1 E1].
  destruct (shr_fexp prec emax (Z.pos m) e loc_Exact) as [mrs' e'].
  cbn [fst snd] in P1, E1.
  pose proof (round_nearest_even_bounds (shr_m mrs') (loc_of_shr_record mrs')) as R.
  set (M := round_nearest_even (shr_m mrs') (loc_of_shr_record mrs')) in *.
  destruct (shr_fexp_positive M e' ltac:(lia) E1) as [P2 E2].
  destruct (shr_fexp prec emax M e' loc_Exact) as [mrs'' e''].
  cbn [fst snd] in P2, E2.
  destruct (shr_m mrs'') as [|p|p]; try lia.
  destruct (e'' <=? emax - prec); [left; now exists p, e''|now right].
Qed.

Lemma shl_align_value m e e' :
  e' <= e ->
  Z.pos (fst (shl_align m e e')) = Z.pos m * 2 ^ (e - e')
  /\ snd (shl_align m e e') = e'.
Proof.
  intros H. unfold shl_align.
  destruct (e' - e) as [|d|d] eqn:E; try lia; cbn [fst snd].
  - replace (e - e') with 0 by lia. split; lia.
  - rewrite iter_xO. replace (e - e') with (Z.pos d) by lia. split; lia.
Qed.

Lemma shl_align_exponent m e e' :
  -1074 <= e -> -1074 <= e' -> -1074 <= snd (shl_align m e e').
Proof.
  intros H H'. unfold shl_align. destruct (e' - e); cbn [snd]; lia.
Qed.

Lemma ltb_zero_normalize delta e :
  -1074 <= e ->
  SFltb (S754_zero false) (binary_normalize prec emax delta e false) = (0 <? delta).
Proof.
  intros He. unfold binary_normalize.
  destruct delta as [|p|p]; [reflexivity| |]; unfold binary_round.
  - destruct (shl_align p e (fexp prec emax (Z.pos (digits2_pos p) + e))) as [mz ez] eqn:E.
    assert (Hez : -1074 <= ez).
    { change ez with (snd (mz, ez)). rewrite <- E. apply shl_align_exponent; [lia|].
      unfold fexp, SpecFloat.emin, emax, prec. lia. }
    destruct (binary_round_aux_sign false mz ez Hez) as [(m' & e' & ->)| ->];
      reflexivity.
  - destruct (shl_align p e (fexp prec emax (Z.pos (digits2_pos p) + e))) as [mz ez] eqn:E.
    assert (Hez : -1074 <= ez).
    { change ez with (snd (mz, ez)). rewrite <- E. apply shl_align_exponent; [lia|].
      unfold fexp, SpecFloat.emin, emax, prec. lia. }
    destruct (binary_round_aux_sign true mz ez Hez) as [(m' & e' & ->)| ->];
      reflexivity.
Qed.

(** Aligned at the smaller exponent, the two operands of a subtraction are
    their keys in units of that exponent. *)
Lemma aligned_key s m e ez :
  -1074 <= ez <= e ->
  key (S754_finite s m e)
  = cond_Zopp s (Z.pos (fst (shl_align m e ez))) * 2 ^ (ez + 1074).
Proof.
  intros H. destruct (shl_align_value m e ez ltac:(lia)) as [-> _].
  cbn [key]. assert (E : 2 ^ (e + 1074) = 2 ^ (e - ez) * 2 ^ (ez + 1074))
    by (rewrite <- Z.pow_add_r by lia; f_equal; lia).
  rewrite E. destruct s; cbn [cond_Zopp]; lia.
Qed.

Lemma SFsub_sign x y :
  valid_binary x = true -> valid_binary y = true ->
  x <> S754_nan -> y <> S754_nan ->
  SFltb (S754_zero false) (SFsub prec emax x y) = (key y <? key x).
Proof.
  intros Vx Vy Nx Ny.
  destruct x as [sx|sx| |sx mx ex]; [| |now elim Nx|];
    destruct y as [sy|sy| |sy my ey]; try (now elim Ny).
  - destruct sx, sy; reflexivity.
  - destruct sy; reflexivity.
  - pose proof (key_finite my ey Vy) as K. cbn [SFsub key].
    destruct sy; cbn [negb cond_Zopp SFltb SFcompare]; symmetry;
      [apply Z.ltb_lt|apply Z.ltb_ge]; lia.
  - destruct sx; reflexivity.
  - destruct sx, sy; reflexivity.
  - pose proof (key_finite my ey Vy) as K. cbn [SFsub key].
    destruct sx; cbn [cond_Zopp SFltb SFcompare]; symmetry;
      [apply Z.ltb_ge|apply Z.ltb_lt]; destruct sy; cbn [cond_Zopp]; lia.
  - pose proof (key_finite mx ex Vx) as K. cbn [SFsub key].
    destruct sx; cbn [cond_Zopp SFltb SFcompare]; symmetry;
      [apply Z.ltb_ge|apply Z.ltb_lt]; lia.
  - pose proof (key_finite mx ex Vx) as K. cbn [SFsub key].
    destruct sy; cbn [negb cond_Zopp SFltb SFcompare]; symmetry;
      [apply Z.ltb_lt|apply Z.ltb_ge]; destruct sx; cbn [cond_Zopp]; lia.
  - destruct (valid_finite _ _ _ Vx) as (Hex & _).
    destruct (valid_finite _ _ _ Vy) as (Hey & _).
    cbn [SFsub]. cbv zeta.
    rewrite ltb_zero_normalize by lia.
    rewrite (aligned_key sx mx ex (Z.min ex ey)) by lia.
    rewrite (aligned_key sy my ey (Z.min ex ey)) by lia.
    set (X := cond_Zopp sx (Z.pos (fst (shl_align mx ex (Z.min ex ey))))).
    set (Y := cond_Zopp sy (Z.pos (fst (shl_align my ey (Z.min ex ey))))).
    assert (Hp : 0 < 2 ^ (Z.min ex ey + 1074)) by (apply Z.pow_pos_nonneg; lia).
    destruct (Z.ltb_spec 0 (X - Y)) as [H|H]; symmetry.
    + apply Z.ltb_lt. apply Z.mul_lt_mono_pos_r; lia.
    + apply Z.ltb_ge. apply Z.mul_le_mono_nonneg_r; lia.
Qed.

End RoundingFacts.

(** ** Facts about numbers *)

Module JSFacts.

Import JS Rounding RoundingFacts.
Local Open Scope float_scope.

Lemma not_nan_eqb_refl (v : number) : is_nan v = false -> (v =? v) = true.
Proof.
  unfold is_nan. intros H. now apply negb_false_iff in H.
Qed.

(** A finite number is a zero or has a mantissa. *)
Lemma finite_spec (x : number) :
  is_finite x = true ->
  (exists s, Prim2SF x = S754_zero s) \/ (exists s m e, Prim2SF x = S754_finite s m e).
Proof.
  unfold is_finite, is_infinity, is_nan. intros H.
  apply negb_true_iff, orb_false_iff in H. destruct H as [Hn Hi].
  rewrite !FloatAxioms.eqb_spec in *. rewrite FloatAxioms.abs_spec in Hi.
  destruct (Prim2SF x) as [s|s| |s m e].
  - left. now exists s.
  - simpl in Hi. discriminate.
  - simpl in Hn. discriminate.
  - right. now exists s, m, e.
Qed.

Lemma SFcompare_finite_eq s1 m1 e1 s2 m2 e2 :
  SFcompare (S754_finite s1 m1 e1) (S754_finite s2 m2 e2) = Some Eq ->
  s1 = s2 /\ m1 = m2 /\ e1 = e2.
Proof.
  simpl. destruct s1, s2; try discriminate;
    destruct (Z.compare e1 e2) eqn:He; try discriminate;
    intros H; apply Z.compare_eq in He; subst.
  - repeat split. apply Pos.compare_eq.
    destruct (Pos.compare_cont Eq m1 m2) eqn:Hm; try discriminate.
    exact Hm.
  - repeat split. apply Pos.compare_eq.
    destruct (Pos.compare_cont Eq m1 m2) eqn:Hm; try discriminate.
    exact Hm.
Qed.

(** The difference of two equal finite numbers is a zero. *)
Lemma sub_equal_is_zero (x y : number) :
  is_finite x = true -> (x =? y) = true ->
  exists s, Prim2SF (x - y) = S754_zero s.
Proof.
  intros Hf He. rewrite FloatAxioms.eqb_spec in He. rewrite FloatAxioms.sub_spec.
  unfold SFeqb in He.
  destruct (finite_spec x Hf) as [[s Hx]|(s & m & e & Hx)]; rewrite Hx in *.
  - destruct (Prim2SF y) as [s'|s'| |s' m' e']; simpl in He; try discriminate.
    + destruct s, s'; simpl; eauto.
    + destruct s'; discriminate.
    + destruct s'; discriminate.
  - destruct (Prim2SF y) as [s'|s'| |s' m' e'].
    + simpl in He. destruct s; discriminate.
    + simpl in He. destruct s'; discriminate.
    + simpl in He. discriminate.
    + destruct (SFcompare (S754_finite s m e) (S754_finite s' m' e')) as [[| |]|] eqn:Hc;
        try discriminate.
      apply SFcompare_finite_eq in Hc. destruct Hc as (-> & -> & ->).
      exists false. unfold SF64sub, SFsub. rewrite Z.sub_diag. reflexivity.
Qed.

(** [Math.max(0, d)] is [0] when [d] is a zero of either sign. *)
Lemma max_zero_of_zero (d : number) s :
  Prim2SF d = S754_zero s -> max 0 d = 0.
Proof.
  intros H. unfold max, is_nan.
  rewrite !FloatAxioms.eqb_spec, !FloatAxioms.ltb_spec, H. reflexivity.
Qed.

(** [is_nan] singles out the NaN of the specification of doubles. *)
Lemma is_nan_spec (x : number) :
  is_nan x = match Prim2SF x with S754_nan => true | _ => false end.
Proof.
  unfold is_nan. rewrite FloatAxioms.eqb_spec. unfold SFeqb.
  pose proof (Prim2SF_valid x) as V.
  destruct (Prim2SF x) as [s|s| |s m e] eqn:E; [| |reflexivity|];
    rewrite SFcompare_key by (auto; discriminate);
    now rewrite Z.compare_refl.
Qed.

Lemma ltb_not_nan (x y : number) :
  (x <? y) = true -> is_nan x = false /\ is_nan y = false.
Proof.
  rewrite !is_nan_spec, FloatAxioms.ltb_spec.
  destruct (Prim2SF x) as [sx|sx| |sx mx ex], (Prim2SF y) as [sy|sy| |sy my ey];
    try discriminate; now split.
Qed.

(** [Math.max(0, d)] is NaN when [d] is, [d] itself when [d] is above 0,
    and [0] otherwise. *)
Lemma max_zero_cases (d : number) :
  (is_nan d = true -> is_nan (max 0 d) = true)
  /\ ((0 <? d) = true -> max 0 d = d)
  /\ (is_nan d = false -> (0 <? d) = false -> max 0 d = 0).
Proof.
  unfold max. change (is_nan 0) with false. cbn [orb].
  split; [|split].
  - intros ->. reflexivity.
  - intros L. destruct (ltb_not_nan _ _ L) as [_ N]. now rewrite N, L.
  - intros -> ->. now destruct (d <? 0).
Qed.

Lemma eqb_zero_sym (v : number) : (v =? 0) = true -> (0 =? v) = true.
Proof.
  rewrite !FloatAxioms.eqb_spec. change (Prim2SF 0) with (S754_zero false).
  destruct (Prim2SF v) as [s|s| |s m e]; simpl; try discriminate; auto.
  - destruct s; discriminate.
  - destruct s; discriminate.
Qed.

(** [v || 0] and [v] are the same number for every [v] but NaN. *)
Lemma orElse_zero_eqb (v : number) :
  is_nan v = false -> (orElse (Some v) 0 =? v) = true.
Proof.
  intros H. unfold orElse, truthy. rewrite H, orb_false_r.
  destruct (v =? 0) eqn:E; simpl.
  - now apply eqb_zero_sym.
  - now apply not_nan_eqb_refl.
Qed.

(** *** Sorting keeps the elements *)

Lemma insert_perm cmp x l : Permutation (insert cmp x l) (x :: l).
Proof.
  induction l as [|y l IH]; simpl; [reflexivity|].
  destruct (gtb (cmp x y) 0); [|reflexivity].
  rewrite IH. apply perm_swap.
Qed.

Lemma sort_perm cmp l : Permutation (sort cmp l) l.
Proof.
  induction l as [|x l IH]; simpl; [reflexivity|].
  rewrite insert_perm. now constructor.
Qed.

Lemma sortAscending_perm l : Permutation (sortAscending l) l.
Proof. apply sort_perm. Qed.

Lemma sortAscending_length l : List.length (sortAscending l) = List.length l.
Proof. apply Permutation_length, sortAscending_perm. Qed.

(** *** Sorting puts the elements in ascending order *)

Lemma not_nan_spec (v : number) : is_nan v = false -> Prim2SF v <> S754_nan.
Proof.
  unfold is_nan. intros H E. apply negb_false_iff in H.
  rewrite FloatAxioms.eqb_spec, E in H. discriminate.
Qed.

(** The comparator [(a, b) => a - b] is positive exactly when [a] is the
    larger number. *)
Lemma comparator_sign (x y : number) :
  is_nan x = false -> is_nan y = false ->
  gtb (x - y) 0 = (rank y <? rank x)%Z.
Proof.
  intros Hx Hy. unfold gtb, rank.
  rewrite FloatAxioms.ltb_spec, FloatAxioms.sub_spec.
  change (Prim2SF 0) with (S754_zero false).
  apply SFsub_sign; auto using Prim2SF_valid, not_nan_spec.
Qed.

Lemma leb_rank (x y : number) :
  is_nan x = false -> is_nan y = false ->
  (x <=? y) = (rank x <=? rank y)%Z.
Proof.
  intros Hx Hy. unfold rank.
  rewrite FloatAxioms.leb_spec. unfold SFleb.
  rewrite SFcompare_key by auto using Prim2SF_valid, not_nan_spec.
  unfold Z.leb. now destruct (key (Prim2SF x) ?= key (Prim2SF y))%Z.
Qed.

Lemma insert_HdRel x y l :
  byRank y x -> HdRel byRank y l ->
  HdRel byRank y (insert (fun a b => a - b) x l).
Proof.
  intros Hyx H. destruct l as [|z l]; simpl.
  - now constructor.
  - inversion H; subst. destruct (gtb (x - z) 0); now constructor.
Qed.

Lemma insert_sorted x l :
  is_nan x = false -> Forall (fun v => is_nan v = false) l ->
  Sorted byRank l -> Sorted byRank (insert (fun a b => a - b) x l).
Proof.
  intros Hx Hl Hs. induction l as [|y l IH]; simpl.
  - repeat constructor.
  - inversion Hl as [|? ? Hy Hl']; subst. inversion Hs as [|? ? Hs' Hd]; subst.
    rewrite (comparator_sign x y Hx Hy).
    destruct (Z.ltb_spec (rank y) (rank x)) as [L|G].
    + constructor; [now apply IH|]. apply insert_HdRel; [unfold byRank; lia|exact Hd].
    + constructor; [exact Hs|]. constructor. exact G.
Qed.

Lemma sort_not_nan l :
  Forall (fun v => is_nan v = false) l ->
  Forall (fun v => is_nan v = false) (sortAscending l).
Proof.
  intros H. rewrite Forall_forall in *. intros v Hv. apply H.
  eapply Permutation_in; [apply sortAscending_perm|exact Hv].
Qed.

Lemma sort_sorted l :
  Forall (fun v => is_nan v = false) l -> Sorted byRank (sortAscending l).
Proof.
  induction l as [|x l IH]; intros H; [constructor|].
  inversion H as [|? ? Hx Hl]; subst.
  unfold sortAscending. simpl. apply insert_sorted; [exact Hx| |now apply IH].
  now apply sort_not_nan.
Qed.

(** Without NaN, [sortAscending] puts the numbers in ascending order. *)
Lemma sortAscending_ascending l :
  Forall (fun v => is_nan v = false) l ->
  StronglySorted (fun a b => (a <=? b) = true) (sortAscending l).
Proof.
  intros H. pose proof (sort_not_nan l H) as Hn.
  assert (S : StronglySorted byRank (sortAscending l)).
  { apply Sorted_StronglySorted; [|now apply sort_sorted].
    intros a b c. unfold byRank. lia. }
  induction S as [|a l' S IH Ha]; [constructor|].
  inversion Hn as [|? ? Hna Hnl]; subst.
  constructor; [now apply IH|].
  rewrite Forall_forall in *. intros b Hb.
  rewrite leb_rank by auto. apply Z.leb_le. now apply Ha.
Qed.

(** *** The percentile indices *)

Lemma percentile_index (n : nat) :
  (1 <= n)%nat -> (Z.of_nat n < maxLength)%Z ->
  floorZ (ofNat n * 0.95) = Some (Z.of_nat (n * 95 / 100))
  /\ floorZ (ofNat n * 0.10) = Some (Z.of_nat (n * 10 / 100)).
Proof.
  intros H1 Hn. unfold ofNat, maxLength in *.
  rewrite RoundingFacts.floor_095, RoundingFacts.floor_010 by lia.
  rewrite !Nat2Z.inj_div, !Nat2Z.inj_mul. now split.
Qed.

(** The array lookups of the mic test read the elements at the exact integer
    parts of 95n/100 and 10n/100. *)
Lemma index_percentile {A} (l : list A) :
  l <> [] -> (Z.of_nat (List.length l) < maxLength)%Z ->
  index l (ofNat (List.length l) * 0.95) = nth_error l (List.length l * 95 / 100)
  /\ index l (ofNat (List.length l) * 0.10) = nth_error l (List.length l * 10 / 100).
Proof.
  intros Hne Hn.
  assert (H1 : (1 <= List.length l)%nat)
    by (destruct l; [now elim Hne|simpl; lia]).
  destruct (percentile_index _ H1 Hn) as [H95 H10].
  unfold index. rewrite H95, H10.
  split.
  - destruct (Z.of_nat (List.length l * 95 / 100) <? 0)%Z eqn:E;
      [apply Z.ltb_lt in E; lia|]. now rewrite Nat2Z.id.
  - destruct (Z.of_nat (List.length l * 10 / 100) <? 0)%Z eqn:E;
      [apply Z.ltb_lt in E; lia|]. now rewrite Nat2Z.id.
Qed.

(** *** Order, and the part of a number above zero *)

Lemma ltb_rank (x y : number) :
  is_nan x = false -> is_nan y = false ->
  (x <? y) = (rank x <? rank y)%Z.
Proof.
  intros Hx Hy. unfold rank.
  rewrite FloatAxioms.ltb_spec. unfold SFltb.
  rewrite SFcompare_key by auto using Prim2SF_valid, not_nan_spec.
  unfold Z.ltb. now destruct (key (Prim2SF x) ?= key (Prim2SF y))%Z.
Qed.

Lemma leb_not_nan (x y : number) :
  (x <=? y) = true -> is_nan x = false /\ is_nan y = false.
Proof.
  rewrite !is_nan_spec, FloatAxioms.leb_spec.
  destruct (Prim2SF x) as [sx|sx| |sx mx ex], (Prim2SF y) as [sy|sy| |sy my ey];
    try discriminate; now split.
Qed.

Lemma ltb_trans (x y z : number) :
  (x <? y) = true -> (y <? z) = true -> (x <? z) = true.
Proof.
  intros H1 H2.
  destruct (ltb_not_nan _ _ H1) as [Nx Ny]. destruct (ltb_not_nan _ _ H2) as [_ Nz].
  rewrite ltb_rank in * by assumption. apply Z.ltb_lt in H1, H2. apply Z.ltb_lt. lia.
Qed.

(** [Math.max(0, d)] is never below 0. *)
Lemma max_zero_not_below (d : number) : (max 0 d <? 0) = false.
Proof.
  destruct (max_zero_cases d) as (Hnan & Habove & Hbelow).
  destruct (is_nan d) eqn:N.
  - destruct (max 0 d <? 0) eqn:E; [|reflexivity].
    apply ltb_not_nan in E. destruct E as [E _]. rewrite Hnan in E; congruence.
  - destruct (0 <? d) eqn:L.
    + rewrite (Habove eq_refl).
      rewrite ltb_rank in * by (assumption || reflexivity).
      apply Z.ltb_lt in L. apply Z.ltb_ge. lia.
    + now rewrite (Hbelow eq_refl eq_refl).
Qed.

(** A level [Math.max(0, d)] below a threshold puts the threshold above 0. *)
Lemma max_zero_below (d t : number) :
  (max 0 d <? t) = true -> (0 <? t) = true.
Proof.
  intros H. destruct (max_zero_cases d) as (Hnan & Habove & Hbelow).
  destruct (is_nan d) eqn:N.
  - apply ltb_not_nan in H. destruct H as [H _]. rewrite Hnan in H; congruence.
  - destruct (0 <? d) eqn:L.
    + rewrite (Habove eq_refl) in H. eapply ltb_trans; eassumption.
    + now rewrite (Hbelow eq_refl eq_refl) in H.
Qed.

Lemma normalize_not_nan delta e :
  (-1074 <= e)%Z -> binary_normalize prec emax delta e false <> S754_nan.
Proof.
  intros He. unfold binary_normalize.
  destruct delta as [|p|p]; [discriminate| |]; unfold binary_round.
  - destruct (shl_align p e (fexp prec emax (Z.pos (digits2_pos p) + e))) as [mz ez] eqn:E.
    assert (Hez : (-1074 <= ez)%Z).
    { change ez with (snd (mz, ez)). rewrite <- E. apply shl_align_exponent; [lia|].
      unfold fexp, SpecFloat.emin, emax, prec. lia. }
    destruct (binary_round_aux_sign false mz ez Hez) as [(m' & e' & ->)| ->];
      discriminate.
  - destruct (shl_align p e (fexp prec emax (Z.pos (digits2_pos p) + e))) as [mz ez] eqn:E.
    assert (Hez : (-1074 <= ez)%Z).
    { change ez with (snd (mz, ez)). rewrite <- E. apply shl_align_exponent; [lia|].
      unfold fexp, SpecFloat.emin, emax, prec. lia. }
    destruct (binary_round_aux_sign true mz ez Hez) as [(m' & e' & ->)| ->];
      discriminate.
Qed.

(** The difference of two finite numbers is a number. *)
Lemma sub_finite_not_nan (x y : number) :
  is_finite x = true -> is_finite y = true -> is_nan (x - y) = false.
Proof.
  intros Hx Hy. rewrite is_nan_spec, FloatAxioms.sub_spec.
  pose proof (Prim2SF_valid x) as Vx. pose proof (Prim2SF_valid y) as Vy.
  destruct (finite_spec x Hx) as [[sx Ex]|(sx & mx & ex & Ex)];
    destruct (finite_spec y Hy) as [[sy Ey]|(sy & my & ey & Ey)];
    rewrite Ex, Ey in *.
  - destruct sx, sy; reflexivity.
  - reflexivity.
  - reflexivity.
  - destruct (valid_finite _ _ _ Vx) as (Hex & _).
    destruct (valid_finite _ _ _ Vy) as (Hey & _).
    unfold SF64sub. cbn [SFsub]. cbv zeta.
    pose proof (normalize_not_nan
      (cond_Zopp sx (Z.pos (fst (shl_align mx ex (Z.min ex ey))))
       - cond_Zopp sy (Z.pos (fst (shl_align my ey (Z.min ex ey)))))%Z
      (Z.min ex ey) ltac:(lia)) as H.
    match goal with |- match ?b with _ => _ end = false =>
      destruct b; try reflexivity; now elim H end.
Qed.

(** When the first of two finite numbers is not the larger, the part of
    their difference above 0 is 0. *)
Lemma max_zero_sub (x y : number) :
  is_finite x = true -> is_finite y = true -> (x <=? y) = true ->
  max 0 (x - y) = 0.
Proof.
  intros Hx Hy L.
  destruct (leb_not_nan _ _ L) as [Nx Ny].
  pose proof (comparator_sign x y Nx Ny) as S. unfold gtb in S.
  rewrite leb_rank in L by assumption. apply Z.leb_le in L.
  apply max_zero_cases; [now apply sub_finite_not_nan|].
  rewrite S. apply Z.ltb_ge. lia.
Qed.

Lemma eqb_rank (x y : number) :
  is_nan x = false -> is_nan y = false ->
  (x =? y) = (rank x =? rank y)%Z.
Proof.
  intros Hx Hy. unfold rank.
  rewrite FloatAxioms.eqb_spec. unfold SFeqb.
  rewrite SFcompare_key by auto using Prim2SF_valid, not_nan_spec.
  rewrite Z.eqb_compare.
  now destruct (key (Prim2SF x) ?= key (Prim2SF y))%Z.
Qed.

(** [v || 0] keeps the place of [v] among the numbers. *)
Lemma orElse_zero_rank (v : number) :
  is_nan v = false ->
  is_nan (orElse (Some v) 0) = false /\ rank (orElse (Some v) 0) = rank v.
Proof.
  intros H. unfold orElse, truthy. rewrite H, orb_false_r.
  destruct (v =? 0) eqn:E; cbn [negb].
  - split; [reflexivity|]. rewrite eqb_rank in E by (assumption || reflexivity).
    apply Z.eqb_eq in E. now rewrite E.
  - now split.
Qed.

Lemma StronglySorted_nth {A} (R : A -> A -> Prop) l :
  StronglySorted R l ->
  forall i j a b, (i < j)%nat -> nth_error l i = Some a -> nth_error l j = Some b ->
    R a b.
Proof.
  induction 1 as [|x l Hs IH Hx]; intros i j a b Hij Hi Hj.
  - destruct i; discriminate.
  - destruct j as [|j]; [lia|]. destruct i as [|i]; simpl in *.
    + injection Hi as <-. rewrite Forall_forall in Hx. apply Hx.
      eapply nth_error_In; eassumption.
    + eapply IH; [|eassumption|eassumption]. lia.
Qed.

End JSFacts.

(** ** The diagnostic harness *)

Module AudioCheckSpec.

Import JS JSFacts AudioCheck.
Local Open Scope float_scope.
Local Open Scope harness_scope.

(** *** Runs of the timed loops *)

Lemma forEach_progress {A} (l : list A) st (f : A -> Message) (g : A -> number) s :
  forEach l (fun i => emitProgress st (f i) (g i)) s
  = (Returned tt, s, map (fun i => Progress st (f i) (g i) (results s)) l).
Proof.
  induction l as [|x l IH]; cbn; [reflexivity|].
  rewrite IH. reflexivity.
Qed.

Lemma forLoop_progress limit rounds st (f : number -> Message) (g : number -> number) s :
  loopCount limit = Some rounds ->
  forLoop limit (fun i => emitProgress st (f i) (g i)) s
  = (Returned tt, s,
     map (fun i => Progress st (f i) (g i) (results s))
         (map ofNat (seq 0 rounds))).
Proof. intros H. unfold forLoop. rewrite H. apply forEach_progress. Qed.

Lemma validConfig_loops c :
  validConfig c = true ->
  exists n m, loopCount (echoTestDuration c) = Some n
              /\ loopCount (micTestDuration c) = Some m.
Proof.
  unfold validConfig.
  destruct (loopCount (echoTestDuration c)) as [n|]; [|discriminate].
  destruct (loopCount (micTestDuration c)) as [m|]; [|discriminate].
  intros _. now exists n, m.
Qed.

(** *** Calls that leave the configuration alone and, when asked, end *)

Section Safe.
Variable ends : bool.
Variable c : AudioCheckConfig.

Lemma safe_ret {A} (a : A) : safe ends c (ret a).
Proof. intros s H. cbn. split; [discriminate|exact H]. Qed.

Lemma safe_throw {A} e : safe ends c (@throw A e).
Proof. intros s H. cbn. split; [discriminate|exact H]. Qed.

Lemma safe_get : safe ends c get.
Proof. intros s H. cbn. split; [discriminate|exact H]. Qed.

Lemma safe_effect e : safe ends c (effect e).
Proof. intros s H. cbn. split; [discriminate|exact H]. Qed.

Lemma safe_effects l : safe ends c (effects l).
Proof. intros s H. cbn. split; [discriminate|exact H]. Qed.

Lemma safe_modify f :
  (forall s, config (f s) = config s) -> safe ends c (modify f).
Proof. intros Hf s H. cbn. split; [discriminate|]. now rewrite Hf. Qed.

Lemma safe_await {A} (o : Settled A) : safe ends c (await o).
Proof. destruct o; intros s H; cbn; (split; [discriminate|exact H]). Qed.

Lemma safe_bind {A B} (m : M A) (f : A -> M B) :
  safe ends c m -> (forall a, safe ends c (f a)) -> safe ends c (bind m f).
Proof.
  intros Hm Hf s H. specialize (Hm s H). unfold outcome, final in *. cbn.
  destruct (m s) as [[[a|e|] s1] t1]; cbn in *.
  - destruct Hm as [_ Hc]. specialize (Hf a s1 Hc). unfold outcome, final in Hf.
    destruct (f a s1) as [[o s2] t2]. exact Hf.
  - split; [discriminate|apply Hm].
  - split; [|apply Hm]. intros He _. now apply (proj1 Hm).
Qed.

Lemma safe_bind_get {B} (f : State -> M B) :
  (forall s0, config s0 = c -> safe ends c (f s0)) -> safe ends c (bind get f).
Proof.
  intros Hf s H. specialize (Hf s H s H). unfold outcome, final in *. cbn.
  destruct (f s s) as [[o s2] t2]. exact Hf.
Qed.

Lemma safe_tryCatch {A} (m : M A) (h : Error -> M A) :
  safe ends c m -> (forall e, safe ends c (h e)) -> safe ends c (tryCatch m h).
Proof.
  intros Hm Hh s H. specialize (Hm s H). unfold outcome, final in *. cbn.
  destruct (m s) as [[[a|e|] s1] t1]; cbn in *.
  - exact Hm.
  - destruct Hm as [_ Hc]. specialize (Hh e s1 Hc). unfold outcome, final in Hh.
    destruct (h e s1) as [[o s2] t2]. exact Hh.
  - exact Hm.
Qed.

Lemma safe_tryFinally {A} (m : M A) (f : M unit) :
  safe ends c m -> safe ends c f -> safe ends c (tryFinally m f).
Proof.
  intros Hm Hf s H. specialize (Hm s H). unfold outcome, final in *. cbn.
  destruct (m s) as [[[a|e|] s1] t1]; cbn in *; destruct Hm as [Hd Hc];
    try (now split);
    specialize (Hf s1 Hc); unfold outcome, final in Hf;
    destruct (f s1) as [[[[]|e'|] s2] t2]; cbn in *; destruct Hf as [Hd' Hc'];
    split; try discriminate; try assumption;
    intros He _; now apply (Hd' He).
Qed.

Lemma safe_emitProgress st msg p : safe ends c (emitProgress st msg p).
Proof. intros s H. cbn. split; [discriminate|exact H]. Qed.

Lemma safe_forEach {A} (l : list A) body :
  (forall x, safe ends c (body x)) -> safe ends c (forEach l body).
Proof.
  intros Hb. induction l as [|x l IH]; simpl.
  - apply safe_ret.
  - apply safe_bind; [apply Hb|intros _; exact IH].
Qed.

Lemma safe_forLoop limit body :
  (ends = true -> loopCount limit <> None) ->
  (forall i, safe ends c (body i)) -> safe ends c (forLoop limit body).
Proof.
  intros Hl Hb. unfold forLoop.
  destruct (loopCount limit) as [n|]; [now apply safe_forEach|].
  intros s H. cbn. split; [|exact H]. intros He _. now apply (Hl He).
Qed.
End Safe.

Create HintDb safe.
#[local] Hint Resolve safe_ret safe_throw safe_get safe_effect safe_effects
  safe_await safe_emitProgress : safe.

Ltac safe_step :=
  match goal with
  | |- safe _ _ (bind get _) => apply safe_bind_get; intros ? ?
  | |- safe _ _ (bind _ _) => apply safe_bind; [|intros ?]
  | |- safe _ _ (tryCatch _ _) => apply safe_tryCatch; [|intros ?]
  | |- safe _ _ (tryFinally _ _) => apply safe_tryFinally
  | |- safe _ _ (modify _) => apply safe_modify; intros ?; reflexivity
  | |- safe _ _ (forLoop _ _) => apply safe_forLoop; [assumption|intros ?]
  | |- safe _ _ (match ?x with _ => _ end) => destruct x
  | |- safe _ _ _ => solve [auto with safe]
  end.

Section SafeMethods.
Variable ends : bool.
Variable env : Platform.
Variable c : AudioCheckConfig.

Lemma safe_stopOscillator o : safe ends c (stopOscillator o).
Proof. unfold stopOscillator. repeat safe_step. Qed.

Lemma safe_cleanup : safe ends c cleanup.
Proof. unfold cleanup. repeat safe_step; apply safe_stopOscillator. Qed.

Lemma safe_setupVolumeMeter : safe ends c (setupVolumeMeter env).
Proof. unfold setupVolumeMeter. repeat safe_step. Qed.

Lemma safe_init : safe ends c (init env).
Proof.
  unfold init. repeat safe_step;
    solve [apply safe_setupVolumeMeter | apply safe_cleanup].
Qed.

Lemma safe_getSampleRate : safe ends c (getSampleRate env).
Proof. unfold getSampleRate, getMaxSupportedSampleRate. repeat safe_step. Qed.

Lemma safe_runEchoTest :
  (ends = true -> loopCount (echoTestDuration c) <> None) ->
  safe ends c (runEchoTest env).
Proof.
  intros Hl. unfold runEchoTest, measureBackgroundNoise, echoCheckpoint.
  apply safe_bind_get. intros s Hs. rewrite Hs.
  repeat safe_step; apply safe_stopOscillator.
Qed.

Lemma safe_runMicTest :
  (ends = true -> loopCount (micTestDuration c) <> None) ->
  safe ends c (runMicTest env).
Proof.
  intros Hl. unfold runMicTest, micCheckpoint.
  apply safe_bind_get. intros s Hs. rewrite Hs.
  repeat safe_step.
Qed.

Lemma safe_getCompleteResults : safe ends c (getCompleteResults env).
Proof. unfold getCompleteResults. repeat safe_step. Qed.
End SafeMethods.

(** With a valid configuration [runAllTests] ends. *)
Lemma runAllTests_ends env s :
  validConfig (config s) = true -> outcome (runAllTests env s) <> Diverged.
Proof.
  intros Hv. destruct (validConfig_loops _ Hv) as (n & m & Hn & Hm).
  assert (S : safe true (config s) (runAllTests env)).
  { unfold runAllTests.
    apply safe_bind; [apply safe_init|intros _].
    apply safe_tryFinally; [|apply safe_cleanup].
    apply safe_bind; [apply safe_getSampleRate|intros _].
    apply safe_bind; [apply safe_runEchoTest; congruence|intros _].
    apply safe_bind; [apply safe_runMicTest; congruence|intros _].
    repeat safe_step. apply safe_getCompleteResults. }
  exact (proj1 (S s eq_refl) eq_refl).
Qed.

(** *** What a returned result went through *)

Lemma bind_returned {A B} (m : M A) (f : A -> M B) s b :
  outcome (bind m f s) = Returned b ->
  exists a, outcome (m s) = Returned a /\ outcome (f a (final (m s))) = Returned b.
Proof.
  unfold outcome, final. cbn.
  destruct (m s) as [[[a|e|] s1] t1]; cbn; try discriminate.
  destruct (f a s1) as [[o s2] t2] eqn:E. cbn. intros ->.
  exists a. split; [reflexivity|]. now rewrite E.
Qed.

Lemma tryFinally_returned {A} (m : M A) (f : M unit) s a :
  outcome (tryFinally m f s) = Returned a -> outcome (m s) = Returned a.
Proof.
  unfold outcome. cbn.
  destruct (m s) as [[[a'|e|] s1] t1]; cbn;
    destruct (f s1) as [[[[]|e'|] s2] t2]; cbn; congruence.
Qed.

Lemma isComplete_populated s :
  isComplete s = true ->
  exists rate e m,
    results s = {| p_sampleRate := Some rate; p_echoTest := Some e;
                   p_microphoneTest := Some m |}
    /\ truthy rate = true.
Proof.
  unfold isComplete. destruct (results s) as [[rate|] [e|] [m|]]; cbn;
    rewrite ?andb_false_r; try discriminate.
  rewrite !andb_true_r. intros H. now exists rate, e, m.
Qed.

(** A result [runAllTests] returns was built by [getCompleteResults] from a
    complete record, under the configuration the run began with. *)
Lemma runAllTests_returned env s r :
  outcome (runAllTests env s) = Returned r ->
  exists s', config s' = config s /\ isComplete s' = true
    /\ r = {| timestamp := now env;
              sampleRate := p_sampleRate (results s');
              echoTest := p_echoTest (results s');
              microphoneTest := p_microphoneTest (results s');
              overallPassed := isTestPassed s' |}.
Proof.
  intros H. unfold runAllTests in H.
  apply bind_returned in H. destruct H as (_ & _ & H).
  apply tryFinally_returned in H.
  pose proof (proj2 (safe_init false env (config s) s eq_refl)) as C1.
  set (s1 := final (init env s)) in *. clearbody s1.
  apply bind_returned in H. destruct H as (_ & _ & H).
  pose proof (proj2 (safe_getSampleRate false env (config s) s1 C1)) as C2.
  set (s2 := final (getSampleRate env s1)) in *. clearbody s2.
  apply bind_returned in H. destruct H as (_ & _ & H).
  assert (C3 : config (final (runEchoTest env s2)) = config s).
  { apply (safe_runEchoTest false env (config s)); [discriminate|exact C2]. }
  set (s3 := final (runEchoTest env s2)) in *. clearbody s3.
  apply bind_returned in H. destruct H as (_ & _ & H).
  assert (C4 : config (final (runMicTest env s3)) = config s).
  { apply (safe_runMicTest false env (config s)); [discriminate|exact C3]. }
  set (s4 := final (runMicTest env s3)) in *. clearbody s4.
  apply bind_returned in H. destruct H as (s4' & Hg & H).
  cbn in Hg. injection Hg as <-. cbn in H. unfold outcome in H.
  destruct (isComplete s4) eqn:Hc; cbn in H; [|discriminate].
  injection H as <-. exists s4. now repeat split.
Qed.

(** *** The verdict *)

Lemma returned_verdict env s r :
  outcome (runAllTests env s) = Returned r ->
  exists rate e m,
    sampleRate r = Some rate /\ echoTest r = Some e
    /\ microphoneTest r = Some m
    /\ overallPassed r = specVerdict (config s) rate e m.
Proof.
  intros H.
  destruct (runAllTests_returned env s r H) as (s' & Hc & Hk & ->).
  destruct (isComplete_populated s' Hk) as (rate & e & m & Hr & _).
  exists rate, e, m. cbn. rewrite Hr. cbn. repeat split.
  unfold isTestPassed, specVerdict. rewrite Hr, Hc. reflexivity.
Qed.

(** C1. Whenever the three sub-results are present the verdict
    [isTestPassed] computes is the conjunction of the four checks, and so is
    the [overallPassed] field of every result [runAllTests] returns; with
    the default thresholds (24000, 0.001, 0.005, 0.05) and a measured noise
    of 0.006 the verdict is false whatever the sample rate, the echo outcome
    and the microphone level are. *)
Theorem overall_verdict_is_conjunction :
  (forall s rate e m,
      isTestPassed
        (set_results {| p_sampleRate := Some rate; p_echoTest := Some e;
                        p_microphoneTest := Some m |} s)
      = specVerdict (config s) rate e m)
  /\ (forall env s r,
         outcome (runAllTests env s) = Returned r ->
         exists rate e m,
           sampleRate r = Some rate /\ echoTest r = Some e
           /\ microphoneTest r = Some m
           /\ overallPassed r = specVerdict (config s) rate e m)
  /\ (forall rate e lvl,
         isTestPassed
           (set_results {| p_sampleRate := Some rate; p_echoTest := Some e;
                           p_microphoneTest := Some {| level := lvl; noise := 0.006 |} |}
              (new noOptions))
         = false).
Proof.
  split; [|split].
  - intros s rate e m. reflexivity.
  - exact returned_verdict.
  - intros rate e lvl. unfold isTestPassed. cbn.
    apply andb_false_r.
Qed.

Lemma overall_verdict_witness :
  outcome (runAllTests quietRoom (new noOptions)) = Returned quietRoomResults
  /\ exists rate e m,
       sampleRate quietRoomResults = Some rate
       /\ echoTest quietRoomResults = Some e
       /\ microphoneTest quietRoomResults = Some m
       /\ overallPassed quietRoomResults
          = specVerdict (config (new noOptions)) rate e m.
Proof.
  split; [vm_compute; reflexivity|].
  apply (proj1 (proj2 overall_verdict_is_conjunction) quietRoom (new noOptions)
           quietRoomResults).
  vm_compute. reflexivity.
Defined.

(** C2. Under a valid configuration [runAllTests] either returns a result
    whose sample rate, echo outcome and microphone outcome are all present
    (with its verdict), or throws; it never hands back a result with a
    missing part. *)
Theorem run_all_tests_complete_or_throws env s :
  validConfig (config s) = true ->
  (exists r rate e m,
      outcome (runAllTests env s) = Returned r
      /\ sampleRate r = Some rate /\ echoTest r = Some e
      /\ microphoneTest r = Some m
      /\ overallPassed r = specVerdict (config s) rate e m)
  \/ (exists err, outcome (runAllTests env s) = Thrown err).
Proof.
  intros Hv. pose proof (runAllTests_ends env s Hv) as Hd.
  destruct (outcome (runAllTests env s)) as [r|err|] eqn:Ho.
  - left.
    destruct (returned_verdict env s r Ho) as (rate & e & m & H).
    now exists r, rate, e, m.
  - right. now exists err.
  - now elim Hd.
Qed.

Lemma run_all_tests_witness :
  validConfig (config (new noOptions)) = true
  /\ ((exists r rate e m,
          outcome (runAllTests quietRoom (new noOptions)) = Returned r
          /\ sampleRate r = Some rate /\ echoTest r = Some e
          /\ microphoneTest r = Some m
          /\ overallPassed r = specVerdict (config (new noOptions)) rate e m)
      \/ (exists err,
             outcome (runAllTests quietRoom (new noOptions)) = Thrown err)).
Proof.
  split; [reflexivity|].
  apply (run_all_tests_complete_or_throws quietRoom (new noOptions)).
  reflexivity.
Defined.

(** *** The echo test *)

Ltac open_state s Hi :=
  destruct s as [ac st so vm os ga ru cf re vh bn];
  unfold isInitialized in Hi; cbn in Hi;
  destruct ac as [ctx|]; [|discriminate];
  destruct so as [src|]; [|discriminate];
  destruct vm as [w|]; [|discriminate].

Lemma runEchoTest_ok env s :
  isInitialized s = true -> echoFault env = None ->
  validConfig (config s) = true ->
  let lvl := max 0 (average (echoVolumes env) - average (noiseVolumes env)) in
  let r := {| passed := lvl <? echoThreshold (config s); echoLevel := lvl |} in
  outcome (runEchoTest env s) = Returned r
  /\ final (runEchoTest env s)
     = set_isRunning false
         (set_results (record_echoTest r (results s))
            (set_gainNode None
               (set_oscillator None
                  (set_backgroundNoiseLevel (average (noiseVolumes env)) s)))).
Proof.
  intros Hi Hf Hv. destruct (validConfig_loops _ Hv) as (n & m & Hn & Hm).
  open_state s Hi. cbn in Hn.
  unfold runEchoTest, echoCheckpoint. rewrite Hf. cbn.
  erewrite forLoop_progress by exact Hn. cbn.
  split; reflexivity.
Qed.

Lemma runEchoTest_fault env s p e :
  isInitialized s = true -> echoFault env = Some (p, e) ->
  validConfig (config s) = true ->
  outcome (runEchoTest env s) = Returned {| passed := false; echoLevel := 1 |}
  /\ results (final (runEchoTest env s)) = results s
  /\ isRunning (final (runEchoTest env s)) = false
  /\ In (Progress StageError (Failure "Echo test failed: " e) 0 (results s))
        (trace (runEchoTest env s)).
Proof.
  intros Hi Hf Hv. destruct (validConfig_loops _ Hv) as (n & m & Hn & Hm).
  open_state s Hi. cbn in Hn.
  unfold runEchoTest, echoCheckpoint. rewrite Hf.
  destruct p; cbn; try (erewrite forLoop_progress by exact Hn; cbn);
    repeat split; auto 20 using in_eq, in_cons, in_or_app.
Qed.

(** *** The mic test *)

Lemma runMicTest_ok env s :
  isInitialized s = true -> micFault env = None ->
  validConfig (config s) = true ->
  let sortedVolumes := sortAscending (micVolumes env) in
  let r := {| level := percentile sortedVolumes 0.95;
              noise := percentile sortedVolumes 0.10 |} in
  outcome (runMicTest env s) = Returned r
  /\ final (runMicTest env s)
     = set_isRunning false
         (set_results (record_microphoneTest r (results s))
            (set_volumeHistory (micVolumes env) s)).
Proof.
  intros Hi Hf Hv. destruct (validConfig_loops _ Hv) as (n & m & Hn & Hm).
  open_state s Hi. cbn in Hm.
  unfold runMicTest, micCheckpoint. rewrite Hf. cbn.
  erewrite forLoop_progress by exact Hm. cbn.
  split; reflexivity.
Qed.

Lemma runMicTest_fault env s p e :
  isInitialized s = true -> micFault env = Some (p, e) ->
  validConfig (config s) = true ->
  outcome (runMicTest env s) = Returned {| level := 0; noise := 1 |}
  /\ results (final (runMicTest env s)) = results s.
Proof.
  intros Hi Hf Hv. destruct (validConfig_loops _ Hv) as (n & m & Hn & Hm).
  open_state s Hi. cbn in Hm.
  unfold runMicTest, micCheckpoint. rewrite Hf.
  destruct p; cbn; try (erewrite forLoop_progress by exact Hm; cbn);
    split; reflexivity.
Qed.

(** *** Claims on the two tests *)

(** C3. An error raised inside the body of the echo test or of the mic test
    does not reach the caller: [runEchoTest] returns the worst case
    (failed, level 1) and [runMicTest] the worst case (level 0, noise 1).
    The echo outcome handed back is however not stored: the harness's
    record of results is left as it was before the call. *)
Theorem fault_returns_worst_case_unrecorded env s p e q e' :
  isInitialized s = true -> validConfig (config s) = true ->
  echoFault env = Some (p, e) -> micFault env = Some (q, e') ->
  outcome (runEchoTest env s) = Returned {| passed := false; echoLevel := 1 |}
  /\ p_echoTest (results (final (runEchoTest env s))) = p_echoTest (results s)
  /\ outcome (runMicTest env s) = Returned {| level := 0; noise := 1 |}.
Proof.
  intros Hi Hv He Hm.
  destruct (runEchoTest_fault env s p e Hi He Hv) as (H1 & H2 & _).
  destruct (runMicTest_fault env s q e' Hi Hm Hv) as (H3 & _).
  rewrite H2. now repeat split.
Qed.

Lemma fault_returns_worst_case_witness :
  let s := initialized faultyPlatform noOptions in
  (isInitialized s = true /\ validConfig (config s) = true)
  /\ (outcome (runEchoTest faultyPlatform s)
      = Returned {| passed := false; echoLevel := 1 |}
      /\ p_echoTest (results (final (runEchoTest faultyPlatform s))) = None
      /\ outcome (runMicTest faultyPlatform s)
         = Returned {| level := 0; noise := 1 |})
  /\ outcome (runAllTests faultyPlatform (new noOptions))
     = Thrown "Audio check is not complete"%string.
Proof.
  split; [split; reflexivity|]. split; [|reflexivity].
  exact (fault_returns_worst_case_unrecorded faultyPlatform
           (initialized faultyPlatform noOptions)
           AtCreateOscillator "NotSupportedError"%string
           AtInstallHandler "InvalidStateError"%string
           eq_refl eq_refl eq_refl eq_refl).
Defined.

Lemma average_specAverage l : average l = specAverage l.
Proof. destruct l; reflexivity. Qed.

(** C4. When the echo test runs through, the baseline it keeps is the
    average of the samples of the baseline second and the echo level is
    [max(0, average measured level - baseline)], the averages being the sum
    of the samples over their number: the level is the excess of the
    measured average over the baseline when that excess is above 0, and 0
    when it is not (NaN when it is NaN). The test passes exactly when the
    level is below the threshold, and the outcome is stored. If the average
    measured level is finite and equals the baseline, the level is 0 and
    the test passes under every threshold above 0. *)
Theorem echo_level_formula env s :
  isInitialized s = true -> echoFault env = None ->
  validConfig (config s) = true ->
  let measured := specAverage (echoVolumes env) in
  let baseline := specAverage (noiseVolumes env) in
  let excess := measured - baseline in
  let lvl := max 0 excess in
  let r := {| passed := lvl <? echoThreshold (config s); echoLevel := lvl |} in
  outcome (runEchoTest env s) = Returned r
  /\ backgroundNoiseLevel (final (runEchoTest env s)) = baseline
  /\ p_echoTest (results (final (runEchoTest env s))) = Some r
  /\ ((0 <? excess) = true -> lvl = excess)
  /\ (is_nan excess = false -> (0 <? excess) = false -> lvl = 0)
  /\ (is_nan excess = true -> is_nan lvl = true)
  /\ (is_finite measured = true -> (measured =? baseline) = true ->
      lvl = 0
      /\ ((0 <? echoThreshold (config s)) = true -> passed r = true)).
Proof.
  intros Hi Hf Hv measured baseline excess lvl r.
  destruct (runEchoTest_ok env s Hi Hf Hv) as [Ho Hs].
  rewrite !average_specAverage in Ho, Hs.
  split; [exact Ho|]. rewrite Hs. split; [reflexivity|]. split; [reflexivity|].
  destruct (max_zero_cases excess) as (Hnan & Habove & Hbelow).
  split; [exact Habove|]. split; [exact Hbelow|]. split; [exact Hnan|].
  intros Hfin Heq.
  destruct (sub_equal_is_zero measured baseline Hfin Heq) as [sg Hz].
  assert (Hl : lvl = 0) by (unfold lvl; exact (max_zero_of_zero _ sg Hz)).
  split; [exact Hl|]. intros Ht. unfold r. cbn. now rewrite Hl.
Qed.

Lemma echo_level_witness :
  ((isInitialized (initialized loudRoom noOptions) = true
    /\ echoFault loudRoom = None
    /\ validConfig (config (initialized loudRoom noOptions)) = true)
   /\ (specAverage (echoVolumes loudRoom) = 0.30000000000000004
       /\ specAverage (noiseVolumes loudRoom) = 0.0015)
   /\ outcome (runEchoTest loudRoom (initialized loudRoom noOptions))
      = Returned {| passed := false; echoLevel := 0.29850000000000004 |}
   /\ backgroundNoiseLevel (final (runEchoTest loudRoom (initialized loudRoom noOptions)))
      = 0.0015)
  /\ ((isInitialized (initialized deadRoom noOptions) = true
       /\ echoFault deadRoom = None
       /\ validConfig (config (initialized deadRoom noOptions)) = true)
      /\ (is_finite (specAverage (echoVolumes deadRoom)) = true
          /\ (specAverage (echoVolumes deadRoom)
               =? specAverage (noiseVolumes deadRoom)) = true
          /\ (0 <? echoThreshold (config (initialized deadRoom noOptions))) = true)
      /\ outcome (runEchoTest deadRoom (initialized deadRoom noOptions))
         = Returned {| passed := true; echoLevel := 0 |}
      /\ max 0 (specAverage (echoVolumes deadRoom)
                - specAverage (noiseVolumes deadRoom)) = 0).
Proof.
  pose proof (echo_level_formula loudRoom (initialized loudRoom noOptions)
                eq_refl eq_refl eq_refl) as L.
  pose proof (echo_level_formula deadRoom (initialized deadRoom noOptions)
                eq_refl eq_refl eq_refl) as D.
  split.
  - split; [repeat split; reflexivity|]. split; [split; reflexivity|].
    split; [exact (proj1 L)|exact (proj1 (proj2 L))].
  - split; [repeat split; reflexivity|]. split; [repeat split; reflexivity|].
    split; [exact (proj1 D)|].
    exact (proj1 (proj2 (proj2 (proj2 (proj2 (proj2 (proj2 D))))) eq_refl eq_refl)).
Defined.

(** C5. When the mic test runs through on a non-empty history of [n]
    readings, none of them NaN, the level it reports is the element at index
    [floor(0.95 n)] of the sorted history and the noise is the element at
    index [floor(0.10 n)]; both indices are within the array, and the sorted
    history is the readings rearranged in ascending order. (The index
    arithmetic of the source is on doubles; for every length an array can
    have it gives the exact integer parts.) *)
Theorem mic_percentiles env s :
  isInitialized s = true -> micFault env = None ->
  validConfig (config s) = true ->
  let history := micVolumes env in
  let n := List.length history in
  history <> [] -> (Z.of_nat n < maxLength)%Z ->
  Forall (fun v => is_nan v = false) history ->
  (Permutation (sortAscending history) history
   /\ StronglySorted (fun a b => (a <=? b) = true) (sortAscending history))
  /\ exists r v95 v10,
      outcome (runMicTest env s) = Returned r
      /\ volumeHistory (final (runMicTest env s)) = history
      /\ nth_error (sortAscending history) (n * 95 / 100) = Some v95
      /\ nth_error (sortAscending history) (n * 10 / 100) = Some v10
      /\ (level r =? v95) = true
      /\ (noise r =? v10) = true.
Proof.
  intros Hi Hf Hv history n Hne Hn Hnan.
  split; [split; [apply sortAscending_perm|now apply sortAscending_ascending]|].
  destruct (runMicTest_ok env s Hi Hf Hv) as [Ho Hs].
  fold history in Ho, Hs.
  assert (Hlen : List.length (sortAscending history) = n)
    by apply sortAscending_length.
  assert (Hpos : (0 < n)%nat).
  { unfold n. destruct history; [now elim Hne|simpl; lia]. }
  assert (H95 : (n * 95 / 100 < n)%nat) by (apply Nat.Div0.div_lt_upper_bound; lia).
  assert (H10 : (n * 10 / 100 < n)%nat) by (apply Nat.Div0.div_lt_upper_bound; lia).
  destruct (nth_error (sortAscending history) (n * 95 / 100)) as [v95|] eqn:E95;
    [|apply nth_error_None in E95; lia].
  destruct (nth_error (sortAscending history) (n * 10 / 100)) as [v10|] eqn:E10;
    [|apply nth_error_None in E10; lia].
  assert (Hsorted : Forall (fun v => is_nan v = false) (sortAscending history)).
  { rewrite Forall_forall in *. intros v Hv'. apply Hnan.
    eapply Permutation_in; [apply sortAscending_perm|exact Hv']. }
  rewrite Forall_forall in Hsorted.
  destruct (index_percentile (sortAscending history)) as [I95 I10];
    [intros E; rewrite E in Hlen; simpl in Hlen; lia|rewrite Hlen; exact Hn|].
  rewrite Hlen in I95, I10.
  eexists _, v95, v10. split; [exact Ho|]. rewrite Hs.
  split; [reflexivity|]. split; [reflexivity|]. split; [reflexivity|].
  cbn. unfold percentile. rewrite Hlen, I95, I10, E95, E10.
  split; apply orElse_zero_eqb; apply Hsorted; eapply nth_error_In; eassumption.
Qed.

Lemma mic_percentiles_witness :
  let env := platformWith [] [] hundredLevels in
  let s := initialized env noOptions in
  (isInitialized s = true /\ micFault env = None
   /\ validConfig (config s) = true)
  /\ (sortAscending hundredLevels = hundredLevels
      /\ nth_error hundredLevels 95 = Some 0.96
      /\ nth_error hundredLevels 10 = Some 0.11)
  /\ exists r v95 v10,
       outcome (runMicTest env s) = Returned r
       /\ volumeHistory (final (runMicTest env s)) = hundredLevels
       /\ nth_error (sortAscending hundredLevels) 95 = Some v95
       /\ nth_error (sortAscending hundredLevels) 10 = Some v10
       /\ (level r =? v95) = true
       /\ (noise r =? v10) = true.
Proof.
  split; [repeat split; reflexivity|]. split; [repeat split; reflexivity|].
  apply (proj2 (A := Permutation (sortAscending hundredLevels) hundredLevels
                     /\ StronglySorted (fun a b => (a <=? b) = true)
                          (sortAscending hundredLevels))).
  apply (mic_percentiles (platformWith [] [] hundredLevels)
           (initialized (platformWith [] [] hundredLevels) noOptions)
           eq_refl eq_refl eq_refl).
  - discriminate.
  - reflexivity.
  - unfold hundredLevels. cbn -[is_nan ofNat PrimFloat.div].
    repeat (constructor; [reflexivity|]). constructor.
Defined.

(** C10. When the measurement window of the mic test ends with no reading
    in the history and no error, [runMicTest] takes the success path: it
    returns level 0 and noise 0 and stores them as the microphone result.
    That noise passes the background-noise check of the default
    configuration, whereas the noise 1 of the error path fails it. *)
Theorem mic_empty_history_reads_zero env s :
  isInitialized s = true -> micFault env = None ->
  validConfig (config s) = true -> micVolumes env = [] ->
  outcome (runMicTest env s) = Returned {| level := 0; noise := 0 |}
  /\ p_microphoneTest (results (final (runMicTest env s)))
     = Some {| level := 0; noise := 0 |}
  /\ (0 <? maxBackgroundNoise defaultConfig) = true
  /\ (forall p e,
        outcome (runMicTest (withMicFault env p e) s)
        = Returned {| level := 0; noise := 1 |})
  /\ (1 <? maxBackgroundNoise defaultConfig) = false.
Proof.
  intros Hi Hf Hv He.
  destruct (runMicTest_ok env s Hi Hf Hv) as [Ho Hs].
  rewrite He in Ho, Hs.
  split; [exact Ho|]. split; [rewrite Hs; reflexivity|].
  split; [reflexivity|]. split; [|reflexivity].
  intros p e. now apply (runMicTest_fault (withMicFault env p e) s p e).
Qed.

Lemma mic_empty_history_witness :
  let s := initialized deadRoom noOptions in
  (isInitialized s = true /\ micFault deadRoom = None
   /\ validConfig (config s) = true /\ micVolumes deadRoom = [])
  /\ outcome (runMicTest deadRoom s) = Returned {| level := 0; noise := 0 |}.
Proof.
  split; [repeat split; reflexivity|].
  exact (proj1 (mic_empty_history_reads_zero deadRoom
                  (initialized deadRoom noOptions)
                  eq_refl eq_refl eq_refl eq_refl)).
Defined.

(** *** The sample-rate probe *)

Lemma probeRates_find env rates :
  probeRates env rates = find (accepts env) rates.
Proof.
  induction rates as [|rate rest IH]; simpl; [reflexivity|].
  unfold accepts at 1. destruct (probe env rate) as [actual|]; [|exact IH].
  destruct (abs (actual - rate) <? 1); [reflexivity|exact IH].
Qed.

(** C6. The probe goes through 96000, 88200, 48000, 44100, 24000, 22050,
    16000, 8000 in that (descending) order, takes a candidate exactly when
    the rate realized for it is within 1 Hz of the request, and returns the
    first candidate taken (the context's own rate, or 24000, when none is);
    on a platform that honours only 48000 and 16000 it returns 48000. *)
Theorem sample_rate_probe_first_match :
  (testRates = [96000; 88200; 48000; 44100; 24000; 22050; 16000; 8000]
   /\ descending testRates = true)
  /\ (forall env s,
        getMaxSupportedSampleRate env s
        = (Returned
             match find (accepts env) testRates with
             | Some rate => rate
             | None => orElse (option_map ctx_sampleRate (audioContext s)) 24000
             end, s, []))
  /\ (forall env s,
        (forall rate, In rate testRates ->
           accepts env rate = ((rate =? 48000) || (rate =? 16000))) ->
        outcome (getMaxSupportedSampleRate env s) = Returned 48000).
Proof.
  split; [split; reflexivity|]. split.
  - intros env s. unfold getMaxSupportedSampleRate.
    rewrite probeRates_find.
    destruct (find (accepts env) testRates); reflexivity.
  - intros env s H. unfold getMaxSupportedSampleRate.
    rewrite probeRates_find. unfold testRates at 1. simpl find.
    rewrite !H by (unfold testRates; simpl; auto 10). reflexivity.
Qed.

Lemma sample_rate_probe_witness :
  (forall rate, In rate testRates ->
     accepts quietRoom rate = ((rate =? 48000) || (rate =? 16000)))
  /\ outcome (getMaxSupportedSampleRate quietRoom (new noOptions)) = Returned 48000.
Proof.
  assert (H : forall rate, In rate testRates ->
                accepts quietRoom rate = ((rate =? 48000) || (rate =? 16000))).
  { intros rate Hin. unfold testRates in Hin. simpl in Hin.
    repeat (destruct Hin as [<-|Hin]; [reflexivity|]). now elim Hin. }
  split; [exact H|].
  exact (proj2 (proj2 sample_rate_probe_first_match) quietRoom (new noOptions) H).
Defined.

(** *** Releasing the resources *)

Lemma cleanup_run s : cleanup s = (Returned tt, released s, cleanupEffects s).
Proof.
  destruct s as [ac st so vm os ga ru cf re vh bn].
  destruct ac, st as [[trs]|], so, vm, os as [[[|]]|], ga;
    cbn; rewrite ?app_nil_r; reflexivity.
Qed.

(** Nothing is left for a second call to release. *)
Lemma released_twice s :
  released (released s) = released s /\ cleanupEffects (released s) = [].
Proof. split; reflexivity. Qed.

(** C9. [cleanup] can be called in every state and raises no error. After
    it every resource field is cleared and [isRunning] is false; a started
    oscillator has been stopped, the meter and the source disconnected and
    every track of the stream stopped. A second call finds nothing to
    release: it does nothing and changes nothing. *)
Theorem cleanup_idempotent s :
  let r1 := cleanup s in
  let s1 := final r1 in
  outcome r1 = Returned tt
  /\ (audioContext s1 = None /\ stream s1 = None /\ source s1 = None
      /\ volMeterWorklet s1 = None /\ oscillator s1 = None
      /\ gainNode s1 = None /\ isRunning s1 = false)
  /\ (forall st t, stream s = Some st -> In t (tracks st) ->
                   In (TrackStop t) (trace r1))
  /\ (forall o, oscillator s = Some o -> osc_started o = true ->
                In OscillatorStop (trace r1))
  /\ (volMeterWorklet s <> None -> In MeterDisconnect (trace r1))
  /\ (source s <> None -> In SourceDisconnect (trace r1))
  /\ cleanup s1 = (Returned tt, s1, []).
Proof.
  intros r1 s1. subst s1 r1. rewrite !cleanup_run. unfold final, trace. cbn [fst snd].
  split; [reflexivity|]. split; [repeat split|].
  unfold cleanupEffects. repeat split.
  - intros st t Hst Ht. rewrite Hst. repeat (apply in_or_app; right).
    now apply in_map.
  - intros o Ho Hs. rewrite Ho, Hs. now left.
  - intros H. destruct (volMeterWorklet s); [|now elim H].
    apply in_or_app; right. apply in_or_app; right. now left.
  - intros H. destruct (source s); [|now elim H].
    do 3 (apply in_or_app; right). now left.
Qed.

Lemma cleanup_idempotent_witness :
  trace (cleanup midTone)
  = [OscillatorStop; OscillatorDisconnect; GainDisconnect; MeterDisconnect;
     SourceDisconnect; TrackStop 0]
  /\ cleanup (final (cleanup midTone))
     = (Returned tt, final (cleanup midTone), []).
Proof.
  split; [reflexivity|].
  exact (proj2 (proj2 (proj2 (proj2 (proj2 (proj2 (cleanup_idempotent midTone))))))).
Defined.

End AudioCheckSpec.

(** ** The diagnostic harness: whole runs *)

Module AudioCheckRuns.

Import JS Rounding JSFacts AudioCheck AudioCheckSpec.
Local Open Scope float_scope.
Local Open Scope harness_scope.

Lemma init_granted env s ctx st :
  isRunning s = false -> grants env = Some (ctx, st) ->
    init env s
    = (Returned tt, acquired ctx st s,
       [Progress StageInit (Text "Initializing audio system...") 0 (results s);
        Progress StageInit (Text "Audio system initialized") 100 (results s)]).
Proof.
  intros Hr Hg. unfold grants in Hg.
  destruct (mediaDevices env) eqn:E1, (webAudio env) eqn:E2; try discriminate.
  destruct (sharedContext env) as [c|] eqn:E3; try discriminate.
  destruct (getUserMedia env) as [m|] eqn:E4; try discriminate.
  destruct (addModule env) as [[]|] eqn:E5; try discriminate.
  injection Hg as <- <-.
  unfold init, setupVolumeMeter. cbn. rewrite Hr, E1, E2, E3, E4. cbn. rewrite E5. cbn.
  reflexivity.
Qed.

Lemma stopped_app t1 t2 : stopped (t1 ++ t2) = stopped t1 ++ stopped t2.
Proof. apply flat_map_app. Qed.

Lemma In_stopped t tr : In (TrackStop t) tr <-> In t (stopped tr).
Proof.
  unfold stopped. rewrite in_flat_map. split.
  - intros H. exists (TrackStop t). split; [exact H|now left].
  - intros (e & He & Ht). destruct e; simpl in Ht; try now elim Ht.
    destruct Ht as [<-|[]]. exact He.
Qed.

Lemma stopped_map_TrackStop l : stopped (map TrackStop l) = l.
Proof. induction l as [|x l IH]; simpl; congruence. Qed.

Lemma stopped_cleanupEffects s :
  stopped (cleanupEffects s)
  = match stream s with Some st => tracks st | None => [] end.
Proof.
  unfold cleanupEffects.
  destruct (oscillator s) as [[[|]]|], (gainNode s), (volMeterWorklet s), (source s),
    (stream s); cbn; rewrite ?stopped_map_TrackStop; reflexivity.
Qed.

Lemma init_thrown env s e :
  isRunning s = false -> outcome (init env s) = Thrown e ->
  let s' := final (init env s) in
  (audioContext s' = None /\ stream s' = None /\ source s' = None
   /\ volMeterWorklet s' = None /\ oscillator s' = None /\ gainNode s' = None
   /\ isRunning s' = false)
  /\ results s' = results s
  /\ In (Progress StageError (Failure "Initialization failed: " e) 0 (results s))
        (trace (init env s))
  /\ (forall ctx st,
        mediaDevices env = true -> webAudio env = true ->
        sharedContext env = Fulfilled ctx -> getUserMedia env = Fulfilled st ->
        stopped (trace (init env s)) = tracks st).
Proof.
  intros Hr. unfold init, setupVolumeMeter, outcome, final, trace.
  cbn -[cleanup]. rewrite Hr.
  destruct (mediaDevices env) eqn:E1; cbn -[cleanup].
  2:{ rewrite cleanup_run. cbn. intros H. injection H as <-.
      repeat split; auto; try discriminate. }
  destruct (webAudio env) eqn:E2; cbn -[cleanup].
  2:{ rewrite cleanup_run. cbn. intros H. injection H as <-.
      repeat split; auto; try discriminate. }
  destruct (sharedContext env) as [c|e1] eqn:E3; cbn -[cleanup].
  2:{ rewrite cleanup_run. cbn. intros H. injection H as <-.
      repeat split; auto; try discriminate. }
  destruct (getUserMedia env) as [m|e1] eqn:E4; cbn -[cleanup].
  2:{ rewrite cleanup_run. cbn. intros H. injection H as <-.
      repeat split; auto; try discriminate. }
  destruct (addModule env) as [[]|e1] eqn:E5; cbn -[cleanup].
  1:{ discriminate. }
  rewrite cleanup_run. cbn -[cleanupEffects stopped]. intros H. injection H as <-.
  repeat split; auto using in_eq, in_cons.
  intros ctx st _ _ _ H. injection H as <-.
  match goal with |- stopped (?a :: ?b :: ?l) = _ => change (stopped l = tracks m) end.
  rewrite app_nil_r, stopped_cleanupEffects. reflexivity.
Qed.

Section Session.

Lemma session_ret {A} (a : A) : keepsSession (ret a).
Proof. intros s. now repeat split. Qed.

Lemma session_throw {A} e : keepsSession (@throw A e).
Proof. intros s. now repeat split. Qed.

Lemma session_get : keepsSession get.
Proof. intros s. now repeat split. Qed.

Lemma session_effect e : stopped [e] = [] -> keepsSession (effect e).
Proof. intros H s. now repeat split. Qed.

Lemma session_emitProgress st msg p : keepsSession (emitProgress st msg p).
Proof. intros s. now repeat split. Qed.

Lemma session_modify f :
  (forall s, audioContext (f s) = audioContext s /\ stream (f s) = stream s
             /\ source (f s) = source s
             /\ volMeterWorklet (f s) = volMeterWorklet s) ->
  keepsSession (modify f).
Proof. intros Hf s. split; [apply Hf|reflexivity]. Qed.

Lemma session_bind {A B} (m : M A) (f : A -> M B) :
  keepsSession m -> (forall a, keepsSession (f a)) -> keepsSession (bind m f).
Proof.
  intros Hm Hf s. specialize (Hm s). unfold final, trace in *. cbn -[stopped].
  destruct (m s) as [[[a|e|] s1] t1]; cbn -[stopped] in *; try exact Hm.
  specialize (Hf a s1). unfold final, trace in Hf.
  destruct (f a s1) as [[o s2] t2]. cbn -[stopped] in *.
  destruct Hm as [(H1 & H2 & H3 & H4) H5]. destruct Hf as [(G1 & G2 & G3 & G4) G5].
  rewrite stopped_app, H5, G5. repeat split; congruence.
Qed.

Lemma session_bind_get {B} (f : State -> M B) :
  (forall s0, keepsSession (f s0)) -> keepsSession (bind get f).
Proof. intros Hf. apply session_bind; [apply session_get|exact Hf]. Qed.

Lemma session_tryCatch {A} (m : M A) (h : Error -> M A) :
  keepsSession m -> (forall e, keepsSession (h e)) -> keepsSession (tryCatch m h).
Proof.
  intros Hm Hh s. specialize (Hm s). unfold final, trace in *. cbn -[stopped].
  destruct (m s) as [[[a|e|] s1] t1]; cbn -[stopped] in *; try exact Hm.
  specialize (Hh e s1). unfold final, trace in Hh.
  destruct (h e s1) as [[o s2] t2]. cbn -[stopped] in *.
  destruct Hm as [(H1 & H2 & H3 & H4) H5]. destruct Hh as [(G1 & G2 & G3 & G4) G5].
  rewrite stopped_app, H5, G5. repeat split; congruence.
Qed.

Lemma session_forEach {A} (l : list A) body :
  (forall x, keepsSession (body x)) -> keepsSession (forEach l body).
Proof.
  intros Hb. induction l as [|x l IH]; simpl.
  - apply session_ret.
  - apply session_bind; [apply Hb|intros _; exact IH].
Qed.

Lemma session_forLoop limit body :
  (forall i, keepsSession (body i)) -> keepsSession (forLoop limit body).
Proof.
  intros Hb. unfold forLoop.
  destruct (loopCount limit) as [n|]; [now apply session_forEach|].
  intros s. now repeat split.
Qed.

End Session.

Create HintDb session.
#[local] Hint Resolve session_ret session_throw session_get session_emitProgress
  : session.

Ltac session_step :=
  match goal with
  | |- keepsSession (bind get _) => apply session_bind_get; intros ?
  | |- keepsSession (bind _ _) => apply session_bind; [|intros ?]
  | |- keepsSession (tryCatch _ _) => apply session_tryCatch; [|intros ?]
  | |- keepsSession (modify _) => apply session_modify; intros ?; now repeat split
  | |- keepsSession (effect _) => apply session_effect; reflexivity
  | |- keepsSession (forLoop _ _) => apply session_forLoop; intros ?
  | |- keepsSession (match ?x with _ => _ end) => destruct x
  | |- keepsSession _ => solve [auto with session]
  end.

Lemma session_stopOscillator o : keepsSession (stopOscillator o).
Proof. unfold stopOscillator. repeat session_step. Qed.

Lemma session_getSampleRate env : keepsSession (getSampleRate env).
Proof. unfold getSampleRate, getMaxSupportedSampleRate. repeat session_step. Qed.

Lemma session_runEchoTest env : keepsSession (runEchoTest env).
Proof.
  unfold runEchoTest, measureBackgroundNoise, echoCheckpoint.
  repeat session_step; apply session_stopOscillator.
Qed.

Lemma session_runMicTest env : keepsSession (runMicTest env).
Proof. unfold runMicTest, micCheckpoint. repeat session_step. Qed.

Lemma bind_run {A B} (m : M A) (f : A -> M B) s a :
  outcome (m s) = Returned a ->
  bind m f s
  = (outcome (f a (final (m s))), final (f a (final (m s))),
     trace (m s) ++ trace (f a (final (m s)))).
Proof.
  unfold outcome, final, trace. cbn.
  destruct (m s) as [[[a'|e|] s1] t1]; cbn; try discriminate.
  intros H. injection H as <-. now destruct (f a' s1) as [[o s2] t2].
Qed.

Lemma isInitialized_kept {A} (m : M A) s :
  keepsSession m -> isInitialized (final (m s)) = isInitialized s.
Proof.
  intros H. destruct (H s) as [(H1 & H2 & H3 & H4) _].
  unfold isInitialized. now rewrite H1, H3, H4.
Qed.

Lemma getMaxSupportedSampleRate_run env s :
  getMaxSupportedSampleRate env s
  = (Returned match probeRates env testRates with
              | Some rate => rate
              | None => orElse (option_map ctx_sampleRate (audioContext s)) 24000
              end, s, []).
Proof.
  unfold getMaxSupportedSampleRate. cbn -[probeRates testRates].
  now destruct (probeRates env testRates).
Qed.

Lemma getSampleRate_run env s ctx :
  audioContext s = Some ctx ->
  let rate := ctx_sampleRate ctx in
  let recorded := record_sampleRate rate (results s) in
  getSampleRate env s
  = (Returned rate, set_isRunning false (set_results recorded s),
     [Progress StageSampleRate (Text "Checking sample rate capabilities...") 0
        (results s);
      Progress StageSampleRate
        (SampleRateReport rate (geb rate (targetSampleRate (config s)))
           match probeRates env testRates with
           | Some max => max
           | None => orElse (Some rate) 24000
           end)
        100 recorded]).
Proof.
  intros H rate recorded. unfold getSampleRate.
  cbn -[getMaxSupportedSampleRate]. rewrite H. cbn -[getMaxSupportedSampleRate].
  rewrite getMaxSupportedSampleRate_run. cbn -[probeRates testRates]. rewrite H.
  reflexivity.
Qed.

(** The echo test on an initialized harness: it returns, and stores its
    outcome exactly when no error came up. *)
Lemma runEchoTest_round env s :
  isInitialized s = true -> validConfig (config s) = true ->
  exists r, outcome (runEchoTest env s) = Returned r
    /\ results (final (runEchoTest env s))
       = match echoFault env with
         | None => record_echoTest r (results s)
         | Some _ => results s
         end.
Proof.
  intros Hi Hv. destruct (echoFault env) as [[p e]|] eqn:Hf.
  - destruct (runEchoTest_fault env s p e Hi Hf Hv) as (H1 & H2 & _).
    eexists. split; [exact H1|exact H2].
  - destruct (runEchoTest_ok env s Hi Hf Hv) as [H1 H2].
    eexists. split; [exact H1|]. rewrite H2. reflexivity.
Qed.

Lemma runMicTest_round env s :
  isInitialized s = true -> validConfig (config s) = true ->
  exists r, outcome (runMicTest env s) = Returned r
    /\ results (final (runMicTest env s))
       = match micFault env with
         | None => record_microphoneTest r (results s)
         | Some _ => results s
         end.
Proof.
  intros Hi Hv. destruct (micFault env) as [[p e]|] eqn:Hf.
  - destruct (runMicTest_fault env s p e Hi Hf Hv) as (H1 & H2).
    eexists. split; [exact H1|exact H2].
  - destruct (runMicTest_ok env s Hi Hf Hv) as [H1 H2].
    eexists. split; [exact H1|]. rewrite H2. reflexivity.
Qed.

Lemma tests_round env s ctx :
  isInitialized s = true -> audioContext s = Some ctx ->
  validConfig (config s) = true ->
  exists e m,
    outcome (tests env s) = Returned m
    /\ config (final (tests env s)) = config s
    /\ stream (final (tests env s)) = stream s
    /\ stopped (trace (tests env s)) = []
    /\ p_sampleRate (results (final (tests env s))) = Some (ctx_sampleRate ctx)
    /\ p_echoTest (results (final (tests env s)))
       = match echoFault env with
         | None => Some e
         | Some _ => p_echoTest (results s)
         end
    /\ p_microphoneTest (results (final (tests env s)))
       = match micFault env with
         | None => Some m
         | Some _ => p_microphoneTest (results s)
         end.
Proof.
  intros Hi Hc Hv. unfold tests.
  assert (O1 : outcome (getSampleRate env s) = Returned (ctx_sampleRate ctx))
    by now rewrite (getSampleRate_run env s ctx Hc).
  assert (F1 : final (getSampleRate env s)
               = set_isRunning false
                   (set_results (record_sampleRate (ctx_sampleRate ctx) (results s)) s))
    by now rewrite (getSampleRate_run env s ctx Hc).
  pose proof (isInitialized_kept (getSampleRate env) s (session_getSampleRate env)) as I1.
  pose proof (proj2 (safe_getSampleRate false env (config s) s eq_refl)) as C1.
  pose proof (session_getSampleRate env s) as [(_ & S1 & _) T1].
  rewrite (bind_run _ _ _ _ O1).
  set (s1 := final (getSampleRate env s)) in *.
  rewrite Hi in I1. rewrite <- C1 in Hv.
  destruct (runEchoTest_round env s1 I1 Hv) as (e & O2 & R2).
  pose proof (isInitialized_kept (runEchoTest env) s1 (session_runEchoTest env)) as I2.
  assert (C2 : config (final (runEchoTest env s1)) = config s1).
  { apply (safe_runEchoTest false env (config s1)); [discriminate|reflexivity]. }
  pose proof (session_runEchoTest env s1) as [(_ & S2 & _) T2].
  rewrite (bind_run _ _ _ _ O2).
  set (s2 := final (runEchoTest env s1)) in *.
  rewrite I1 in I2. rewrite <- C2 in Hv.
  destruct (runMicTest_round env s2 I2 Hv) as (m & O3 & R3).
  assert (C3 : config (final (runMicTest env s2)) = config s2).
  { apply (safe_runMicTest false env (config s2)); [discriminate|reflexivity]. }
  pose proof (session_runMicTest env s2) as [(_ & S3 & _) T3].
  set (s3 := final (runMicTest env s2)) in *.
  exists e, m. unfold outcome, final, trace. cbn [fst snd].
  fold (outcome (runMicTest env s2)). fold (final (runMicTest env s2)). fold s3.
  fold (trace (runMicTest env s2)). fold (trace (runEchoTest env s1)).
  fold (trace (getSampleRate env s)).
  rewrite !stopped_app, T1, T2, T3.
  split; [exact O3|]. split; [congruence|]. split; [congruence|].
  split; [reflexivity|].
  rewrite R3. assert (E1 : results s1 = record_sampleRate (ctx_sampleRate ctx) (results s))
    by now rewrite F1.
  destruct (micFault env), (echoFault env); rewrite ?R2, ?E1; cbn; auto.
Qed.

Lemma bind_assoc {A B C} (m : M A) (f : A -> M B) (g : B -> M C) s :
  bind (bind m f) g s = bind m (fun a => bind (f a) g) s.
Proof.
  cbn. destruct (m s) as [[[a|e|] s1] t1]; cbn; try reflexivity.
  destruct (f a s1) as [[[b|e|] s2] t2]; cbn; try reflexivity.
  destruct (g b s2) as [[o s3] t3]. now rewrite app_assoc.
Qed.

Lemma bind_ext {A B} (m : M A) (f g : A -> M B) s :
  (forall a s', f a s' = g a s') -> bind m f s = bind m g s.
Proof.
  intros H. cbn. destruct (m s) as [[[a|e|] s1] t1]; cbn; try reflexivity.
  now rewrite H.
Qed.

(** What [runAllTests] does on an idle harness once [init] has gone
    through: the three tests, the closing event, the result or the refusal
    of [getCompleteResults], and [cleanup]. *)
Lemma runAllTests_granted env s ctx st :
  isRunning s = false -> grants env = Some (ctx, st) ->
  validConfig (config s) = true ->
  let s4 := final (tests env (acquired ctx st s)) in
  exists t,
    stopped t = []
    /\ runAllTests env s
       = (if isComplete s4
          then Returned {| timestamp := now env;
                           sampleRate := p_sampleRate (results s4);
                           echoTest := p_echoTest (results s4);
                           microphoneTest := p_microphoneTest (results s4);
                           overallPassed := isTestPassed s4 |}
          else Thrown "Audio check is not complete"%string,
          released s4,
          t ++ Progress StageComplete (CompleteReport (isTestPassed s4)) 100
                 (results s4) :: cleanupEffects s4).
Proof.
  intros Hr Hg Hv s4.
  pose proof (init_granted env s ctx st Hr Hg) as Hi.
  set (s1 := acquired ctx st s) in *.
  destruct (tests_round env s1 ctx eq_refl eq_refl Hv)
    as (e & m & O & _ & _ & T & _).
  fold s4 in O.
  exists (trace (init env s) ++ trace (tests env s1)).
  split; [rewrite stopped_app, T, Hi; reflexivity|].
  unfold runAllTests.
  rewrite (bind_run _ _ s tt) by now rewrite Hi.
  replace (final (init env s)) with s1 by now rewrite Hi.
  assert (B : forall k : M AudioTestResults,
             (getSampleRate env ;; runEchoTest env ;; runMicTest env ;; k) s1
             = (outcome (k s4), final (k s4), trace (tests env s1) ++ trace (k s4))).
  { intros k.
    transitivity (bind (tests env) (fun _ => k) s1).
    - unfold tests. rewrite bind_assoc. apply bind_ext. intros _ s'.
      now rewrite bind_assoc.
    - now rewrite (bind_run _ _ _ _ O). }
  unfold outcome, final, trace. cbn [tryFinally fst snd]. rewrite B.
  unfold outcome, final, trace. cbn -[cleanup isComplete isTestPassed tests].
  destruct (isComplete s4); cbn -[cleanup isComplete isTestPassed tests];
    rewrite cleanup_run; rewrite <- !app_assoc; reflexivity.
Qed.

(** What [init] does on an idle harness when the platform withholds
    something: the opening event, the error event, [cleanup], and the error
    thrown on. *)
Lemma init_refused_run env s :
  isRunning s = false -> grants env = None ->
  exists e s0,
    init env s
    = (Thrown e, released s0,
       [Progress StageInit (Text "Initializing audio system...") 0 (results s);
        Progress StageError (Failure "Initialization failed: " e) 0 (results s)]
       ++ cleanupEffects s0).
Proof.
  intros Hr Hg. unfold grants in Hg.
  unfold init, setupVolumeMeter. cbn -[cleanup]. rewrite Hr.
  destruct (mediaDevices env); cbn -[cleanup] in *;
    [|rewrite cleanup_run; eexists _, _; cbn -[cleanupEffects released];
      rewrite app_nil_r; reflexivity].
  destruct (webAudio env); cbn -[cleanup] in *;
    [|rewrite cleanup_run; eexists _, _; cbn -[cleanupEffects released];
      rewrite app_nil_r; reflexivity].
  destruct (sharedContext env) as [c|e1]; cbn -[cleanup];
    [|rewrite cleanup_run; eexists _, _; cbn -[cleanupEffects released];
      rewrite app_nil_r; reflexivity].
  destruct (getUserMedia env) as [m|e1]; cbn -[cleanup];
    [|rewrite cleanup_run; eexists _, _; cbn -[cleanupEffects released];
      rewrite app_nil_r; reflexivity].
  destruct (addModule env) as [[]|e1]; cbn -[cleanup];
    [discriminate|rewrite cleanup_run; eexists _, _; cbn -[cleanupEffects released];
      rewrite app_nil_r; reflexivity].
Qed.

Lemma init_refused env s :
  isRunning s = false -> grants env = None ->
  exists e, outcome (init env s) = Thrown e.
Proof.
  intros Hr Hg. destruct (init_refused_run env s Hr Hg) as (e & s0 & ->).
  now exists e.
Qed.

Lemma runAllTests_refused env s e :
  outcome (init env s) = Thrown e ->
  runAllTests env s = (Thrown e, final (init env s), trace (init env s)).
Proof.
  unfold runAllTests, outcome, final, trace. cbn -[init cleanup].
  destruct (init env s) as [[[a|e'|] s1] t1]; cbn; try discriminate.
  now intros [= ->].
Qed.

(** Where [runAllTests] leaves an idle harness: in a state [cleanup] left. *)
Lemma runAllTests_final env s :
  isRunning s = false -> validConfig (config s) = true ->
  exists s0, final (runAllTests env s) = released s0.
Proof.
  intros Hr Hv. destruct (grants env) as [[ctx st]|] eqn:Hg.
  - destruct (runAllTests_granted env s ctx st Hr Hg Hv) as (t & _ & ->).
    eexists. reflexivity.
  - destruct (init_refused_run env s Hr Hg) as (e & s0 & E).
    rewrite (runAllTests_refused env s e) by now rewrite E.
    rewrite E. now exists s0.
Qed.

(** X1. From an idle harness [init] runs through exactly when the platform
    has both capabilities and grants the shared context, the microphone and
    the meter module. It then holds the context, the stream, a source and
    the meter, is initialized and not running, leaves the results as they
    were, and has emitted the two ['init'] events and nothing else: no
    track is stopped, also not one of a stream held before. *)
Theorem init_acquires_session env s :
  isRunning s = false ->
  (outcome (init env s) = Returned tt <-> exists ctx st, grants env = Some (ctx, st))
  /\ (forall ctx st, grants env = Some (ctx, st) ->
        init env s
        = (Returned tt, acquired ctx st s,
           [Progress StageInit (Text "Initializing audio system...") 0 (results s);
            Progress StageInit (Text "Audio system initialized") 100 (results s)])
        /\ isInitialized (acquired ctx st s) = true).
Proof.
  intros Hr. split.
  - split.
    + intros Ho. destruct (grants env) as [[ctx st]|] eqn:Hg; [now exists ctx, st|].
      destruct (init_refused env s Hr Hg) as [e He]. congruence.
    + intros (ctx & st & Hg). now rewrite (init_granted env s ctx st Hr Hg).
  - intros ctx st Hg. split; [now apply init_granted|reflexivity].
Qed.

Lemma init_acquires_session_witness :
  isRunning (new noOptions) = false
  /\ isInitialized (final (init quietRoom (new noOptions))) = true.
Proof.
  split; [reflexivity|].
  destruct (init_acquires_session quietRoom (new noOptions) eq_refl) as [_ H].
  destruct (H {| ctx_sampleRate := 24000 |} {| tracks := [O] |} eq_refl) as [-> Hi].
  exact Hi.
Defined.

(** X2. When [init] fails on an idle harness, the error thrown is the one
    reported in an ['error'] event, every resource field is cleared and
    [isRunning] is false again, the results are untouched, and a stream the
    microphone had already granted has every track stopped. *)
Theorem init_failure_releases env s e :
  isRunning s = false -> outcome (init env s) = Thrown e ->
  let s' := final (init env s) in
  (audioContext s' = None /\ stream s' = None /\ source s' = None
   /\ volMeterWorklet s' = None /\ oscillator s' = None /\ gainNode s' = None
   /\ isRunning s' = false)
  /\ results s' = results s
  /\ In (Progress StageError (Failure "Initialization failed: " e) 0 (results s))
        (trace (init env s))
  /\ (forall ctx st,
        mediaDevices env = true -> webAudio env = true ->
        sharedContext env = Fulfilled ctx -> getUserMedia env = Fulfilled st ->
        forall t, In t (tracks st) -> In (TrackStop t) (trace (init env s))).
Proof.
  intros Hr Ho s'. destruct (init_thrown env s e Hr Ho) as (H1 & H2 & H3 & H4).
  split; [exact H1|]. split; [exact H2|]. split; [exact H3|].
  intros ctx st M W C G t Ht. apply In_stopped. now rewrite (H4 ctx st M W C G).
Qed.

Lemma init_failure_releases_witness :
  let env := withoutMeterModule quietRoom "AbortError"%string in
  (isRunning (new noOptions) = false
   /\ outcome (init env (new noOptions)) = Thrown "AbortError"%string)
  /\ stream (final (init env (new noOptions))) = None
  /\ In (TrackStop 0) (trace (init env (new noOptions))).
Proof.
  split; [split; reflexivity|].
  pose proof (init_failure_releases (withoutMeterModule quietRoom "AbortError"%string)
                (new noOptions) "AbortError"%string eq_refl eq_refl) as H.
  split; [exact (proj1 (proj2 (proj1 H)))|].
  apply (proj2 (proj2 (proj2 H)) {| ctx_sampleRate := 24000 |} {| tracks := [O] |}
           eq_refl eq_refl eq_refl eq_refl O).
  now left.
Defined.

(** X3. On a harness whose [isRunning] flag is set, [init] and
    [runAllTests] throw 'AudioCheck is already running' at once, without an
    event or a change of state: [runAllTests] does not get to its [finally],
    so nothing is released. *)
Theorem busy_harness_refuses env s :
  isRunning s = true ->
  init env s = (Thrown "AudioCheck is already running"%string, s, [])
  /\ runAllTests env s = (Thrown "AudioCheck is already running"%string, s, []).
Proof.
  intros H.
  assert (E : init env s = (Thrown "AudioCheck is already running"%string, s, []))
    by (unfold init; cbn; now rewrite H).
  split; [exact E|].
  rewrite (runAllTests_refused env s "AudioCheck is already running"%string); now rewrite E.
Qed.

Lemma busy_harness_refuses_witness :
  isRunning midTone = true
  /\ runAllTests quietRoom midTone
     = (Thrown "AudioCheck is already running"%string, midTone, []).
Proof.
  split; [reflexivity|].
  exact (proj2 (busy_harness_refuses quietRoom midTone eq_refl)).
Defined.

(** X4. Once [cleanup] has run the harness is not initialized, and
    [getSampleRate], [runEchoTest] and [runMicTest] refuse with
    'AudioCheck not initialized. Call init() first.', without an event or a
    change of state. *)
Theorem tests_refuse_after_cleanup env s :
  let s' := final (cleanup s) in
  let refusal := "AudioCheck not initialized. Call init() first."%string in
  isInitialized s' = false
  /\ getSampleRate env s' = (Thrown refusal, s', [])
  /\ runEchoTest env s' = (Thrown refusal, s', [])
  /\ runMicTest env s' = (Thrown refusal, s', []).
Proof.
  intros s' refusal. subst s'. rewrite cleanup_run. unfold final. cbn [fst snd].
  repeat split.
Qed.

(** X5. [getSampleRate] returns and records the rate of the shared context;
    what the probe of the hardware finds only shows in the second progress
    message. Whatever the platform's probe answers, the value returned and
    the state left are the same. *)
Theorem sample_rate_is_the_context_rate env s ctx :
  audioContext s = Some ctx ->
  let rate := ctx_sampleRate ctx in
  let recorded := record_sampleRate rate (results s) in
  getSampleRate env s
  = (Returned rate, set_isRunning false (set_results recorded s),
     [Progress StageSampleRate (Text "Checking sample rate capabilities...") 0
        (results s);
      Progress StageSampleRate
        (SampleRateReport rate (geb rate (targetSampleRate (config s)))
           match probeRates env testRates with
           | Some max => max
           | None => orElse (Some rate) 24000
           end)
        100 recorded])
  /\ forall env',
       outcome (getSampleRate env' s) = outcome (getSampleRate env s)
       /\ final (getSampleRate env' s) = final (getSampleRate env s).
Proof.
  intros H rate recorded. split; [now apply getSampleRate_run|].
  intros env'.
  rewrite (getSampleRate_run env s ctx H), (getSampleRate_run env' s ctx H).
  now split.
Qed.

Lemma sample_rate_is_the_context_rate_witness :
  let s := initialized quietRoom noOptions in
  audioContext s = Some {| ctx_sampleRate := 24000 |}
  /\ outcome (getSampleRate quietRoom s) = Returned 24000
  /\ outcome (getMaxSupportedSampleRate quietRoom s) = Returned 48000.
Proof.
  split; [reflexivity|]. split; [|reflexivity].
  now rewrite (proj1 (sample_rate_is_the_context_rate quietRoom
                        (initialized quietRoom noOptions)
                        {| ctx_sampleRate := 24000 |} eq_refl)).
Defined.

(** X6. On an initialized harness the echo test always returns, with or
    without an error inside; the level it returns is never below 0, and it
    passes only under a threshold above 0. *)
Theorem echo_level_not_negative env s :
  isInitialized s = true -> validConfig (config s) = true ->
  exists r,
    outcome (runEchoTest env s) = Returned r
    /\ (echoLevel r <? 0) = false
    /\ (passed r = true -> (0 <? echoThreshold (config s)) = true).
Proof.
  intros Hi Hv. destruct (echoFault env) as [[p e]|] eqn:Hf.
  - destruct (runEchoTest_fault env s p e Hi Hf Hv) as (H & _).
    eexists. split; [exact H|]. split; [reflexivity|discriminate].
  - destruct (runEchoTest_ok env s Hi Hf Hv) as [H _].
    eexists. split; [exact H|]. cbn [echoLevel passed].
    split; [apply max_zero_not_below|apply max_zero_below].
Qed.

Lemma echo_level_not_negative_witness :
  let s := initialized quietRoom noOptions in
  (isInitialized s = true /\ validConfig (config s) = true)
  /\ exists r,
       outcome (runEchoTest quietRoom s) = Returned r
       /\ (echoLevel r <? 0) = false
       /\ (passed r = true -> (0 <? echoThreshold (config s)) = true).
Proof.
  split; [split; reflexivity|].
  exact (echo_level_not_negative quietRoom (initialized quietRoom noOptions)
           eq_refl eq_refl).
Defined.

(** X7. When the average level during the tone is not above the baseline
    (both finite), in particular when the meter delivered nothing while the
    tone played, the echo level is exactly 0 and the test passes exactly
    when the threshold is above 0. *)
Theorem echo_level_zero_up_to_baseline env s :
  isInitialized s = true -> echoFault env = None ->
  validConfig (config s) = true ->
  let measured := specAverage (echoVolumes env) in
  let baseline := specAverage (noiseVolumes env) in
  is_finite measured = true -> is_finite baseline = true ->
  (measured <=? baseline) = true ->
  outcome (runEchoTest env s)
  = Returned {| passed := 0 <? echoThreshold (config s); echoLevel := 0 |}.
Proof.
  intros Hi Hf Hv measured baseline Fm Fb L.
  destruct (runEchoTest_ok env s Hi Hf Hv) as [H _]. rewrite H.
  rewrite (average_specAverage (echoVolumes env)),
    (average_specAverage (noiseVolumes env)).
  fold measured baseline. now rewrite (max_zero_sub measured baseline Fm Fb L).
Qed.

Lemma echo_level_zero_witness :
  let s := initialized silentTone noOptions in
  (isInitialized s = true /\ echoFault silentTone = None
   /\ validConfig (config s) = true)
  /\ (is_finite (specAverage (echoVolumes silentTone)) = true
      /\ is_finite (specAverage (noiseVolumes silentTone)) = true
      /\ (specAverage (echoVolumes silentTone)
          <=? specAverage (noiseVolumes silentTone)) = true)
  /\ outcome (runEchoTest silentTone s)
     = Returned {| passed := true; echoLevel := 0 |}.
Proof.
  split; [repeat split; reflexivity|]. split; [repeat split; reflexivity|].
  exact (echo_level_zero_up_to_baseline silentTone (initialized silentTone noOptions)
           eq_refl eq_refl eq_refl eq_refl eq_refl eq_refl).
Defined.

(** X8. When the echo test or the mic test hits an error and the harness
    holds no earlier outcome of that test, [runAllTests] throws
    'Audio check is not complete': the worst-case values the failed test
    handed back never reach a result. *)
Theorem failed_test_aborts_first_run env s ctx st :
  isRunning s = false -> grants env = Some (ctx, st) ->
  validConfig (config s) = true ->
  ((exists f, echoFault env = Some f) /\ p_echoTest (results s) = None)
  \/ ((exists f, micFault env = Some f) /\ p_microphoneTest (results s) = None) ->
  outcome (runAllTests env s) = Thrown "Audio check is not complete"%string.
Proof.
  intros Hr Hg Hv Hf.
  destruct (runAllTests_granted env s ctx st Hr Hg Hv) as (t & _ & ->).
  destruct (tests_round env (acquired ctx st s) ctx eq_refl eq_refl Hv)
    as (e & m & _ & _ & _ & _ & R1 & R2 & R3).
  set (s4 := final (tests env (acquired ctx st s))) in *.
  change (results (acquired ctx st s)) with (results s) in R2, R3.
  assert (Hc : isComplete s4 = false).
  { unfold isComplete.
    destruct Hf as [[[f Hf] Hn]|[[f Hf] Hn]]; rewrite Hf in *.
    - rewrite R2, Hn. now rewrite !andb_false_r.
    - rewrite R3, Hn. now rewrite !andb_false_r. }
  now rewrite Hc.
Qed.

Lemma failed_test_aborts_first_run_witness :
  let env := withMicFault quietRoom AtMeasure "TypeError"%string in
  (isRunning (new noOptions) = false
   /\ grants env = Some ({| ctx_sampleRate := 24000 |}, {| tracks := [O] |})
   /\ validConfig (config (new noOptions)) = true
   /\ (exists f, micFault env = Some f)
   /\ p_microphoneTest (results (new noOptions)) = None)
  /\ outcome (runAllTests env (new noOptions))
     = Thrown "Audio check is not complete"%string.
Proof.
  split; [repeat split; now eexists|].
  apply (failed_test_aborts_first_run (withMicFault quietRoom AtMeasure "TypeError"%string)
           (new noOptions) {| ctx_sampleRate := 24000 |} {| tracks := [O] |}
           eq_refl eq_refl eq_refl).
  right. split; [now eexists|reflexivity].
Defined.

(** X9. The results of a harness outlive a run. When the echo test hits an
    error in a later run, the result of that run carries the echo outcome
    of the earlier run. *)
Theorem failed_test_keeps_earlier_result env s ctx st f old :
  isRunning s = false -> grants env = Some (ctx, st) ->
  validConfig (config s) = true -> truthy (ctx_sampleRate ctx) = true ->
  echoFault env = Some f -> micFault env = None ->
  p_echoTest (results s) = Some old ->
  exists r,
    outcome (runAllTests env s) = Returned r /\ echoTest r = Some old.
Proof.
  intros Hr Hg Hv Ht He Hm Ho.
  destruct (runAllTests_granted env s ctx st Hr Hg Hv) as (t & _ & ->).
  destruct (tests_round env (acquired ctx st s) ctx eq_refl eq_refl Hv)
    as (e & m & _ & _ & _ & _ & R1 & R2 & R3).
  set (s4 := final (tests env (acquired ctx st s))) in *.
  change (results (acquired ctx st s)) with (results s) in R2, R3.
  rewrite He in R2. rewrite Hm in R3.
  assert (Hc : isComplete s4 = true).
  { unfold isComplete. rewrite R1, R2, R3, Ho. now rewrite Ht. }
  rewrite Hc. eexists. split; [reflexivity|]. cbn [echoTest]. congruence.
Qed.

Lemma failed_test_keeps_earlier_result_witness :
  let s := final (runAllTests quietRoom (new noOptions)) in
  let env := withEchoFault quietRoom AtStart "InvalidStateError"%string in
  let old := {| passed := true; echoLevel := 0.011833333333333335 |} in
  (isRunning s = false
   /\ grants env = Some ({| ctx_sampleRate := 24000 |}, {| tracks := [O] |})
   /\ validConfig (config s) = true /\ truthy 24000 = true
   /\ echoFault env = Some (AtStart, "InvalidStateError"%string)
   /\ micFault env = None /\ p_echoTest (results s) = Some old)
  /\ exists r, outcome (runAllTests env s) = Returned r /\ echoTest r = Some old.
Proof.
  split; [repeat split; reflexivity|].
  exact (failed_test_keeps_earlier_result
           (withEchoFault quietRoom AtStart "InvalidStateError"%string)
           (final (runAllTests quietRoom (new noOptions)))
           {| ctx_sampleRate := 24000 |} {| tracks := [O] |}
           (AtStart, "InvalidStateError"%string)
           {| passed := true; echoLevel := 0.011833333333333335 |}
           eq_refl eq_refl eq_refl eq_refl eq_refl eq_refl eq_refl).
Defined.

(** X10. Whether it returns or throws, [runAllTests] on an idle harness
    ends with every resource field cleared and [isRunning] false; the
    harness is not initialized afterwards, and a single test refuses. *)
Theorem run_releases_the_session env s :
  isRunning s = false -> validConfig (config s) = true ->
  let s' := final (runAllTests env s) in
  (audioContext s' = None /\ stream s' = None /\ source s' = None
   /\ volMeterWorklet s' = None /\ oscillator s' = None /\ gainNode s' = None
   /\ isRunning s' = false)
  /\ isInitialized s' = false
  /\ runEchoTest env s'
     = (Thrown "AudioCheck not initialized. Call init() first."%string, s', []).
Proof.
  intros Hr Hv s'. destruct (runAllTests_final env s Hr Hv) as (s0 & H).
  subst s'. rewrite H. repeat split.
Qed.

Lemma run_releases_the_session_witness :
  (isRunning (new noOptions) = false /\ validConfig (config (new noOptions)) = true)
  /\ stream (final (runAllTests quietRoom (new noOptions))) = None
  /\ isInitialized (final (runAllTests quietRoom (new noOptions))) = false.
Proof.
  split; [split; reflexivity|].
  pose proof (run_releases_the_session quietRoom (new noOptions) eq_refl eq_refl) as H.
  split; [exact (proj1 (proj2 (proj1 H)))|exact (proj1 (proj2 H))].
Defined.

(** X11. The tracks [runAllTests] stops are exactly those of the stream its
    own [init] was granted. A stream the harness held before the call,
    from an earlier [init], is overwritten, and a track of it that the new
    stream does not share is never stopped. *)
Theorem run_stops_only_its_own_stream env s ctx st :
  isRunning s = false -> grants env = Some (ctx, st) ->
  validConfig (config s) = true ->
  forall t, In (TrackStop t) (trace (runAllTests env s)) <-> In t (tracks st).
Proof.
  intros Hr Hg Hv t.
  destruct (runAllTests_granted env s ctx st Hr Hg Hv) as (tr & Ht & ->).
  destruct (tests_round env (acquired ctx st s) ctx eq_refl eq_refl Hv)
    as (e & m & _ & _ & S & _).
  rewrite In_stopped. unfold trace. cbn [snd].
  rewrite stopped_app, Ht.
  change (stopped (?a :: ?l)) with (stopped l).
  rewrite stopped_cleanupEffects, S. reflexivity.
Qed.

Lemma run_stops_only_its_own_stream_witness :
  let s := initialized (withStream quietRoom {| tracks := [1; 2]%nat |}) noOptions in
  (isRunning s = false
   /\ grants quietRoom = Some ({| ctx_sampleRate := 24000 |}, {| tracks := [O] |})
   /\ validConfig (config s) = true)
  /\ stream s = Some {| tracks := [1; 2]%nat |}
  /\ (In (TrackStop 1) (trace (runAllTests quietRoom s)) <-> In 1%nat [O]).
Proof.
  split; [repeat split; reflexivity|]. split; [reflexivity|].
  exact (run_stops_only_its_own_stream quietRoom
           (initialized (withStream quietRoom {| tracks := [1; 2]%nat |}) noOptions)
           {| ctx_sampleRate := 24000 |} {| tracks := [O] |}
           eq_refl eq_refl eq_refl 1%nat).
Defined.

(** The two percentiles of a sorted history are in order. *)
Lemma percentile_order l :
  Forall (fun v => is_nan v = false) l ->
  (Z.of_nat (List.length l) < maxLength)%Z ->
  (percentile (sortAscending l) 0.10 <=? percentile (sortAscending l) 0.95) = true.
Proof.
  intros Hn Hl. unfold percentile.
  destruct l as [|x l'] eqn:El; [reflexivity|]. rewrite <- El in *.
  set (sorted := sortAscending l).
  set (n := List.length l).
  assert (Hlen : List.length sorted = n) by apply sortAscending_length.
  assert (Hpos : (0 < n)%nat) by (unfold n; rewrite El; simpl; lia).
  destruct (index_percentile sorted) as [I95 I10];
    [intros E; rewrite E in Hlen; simpl in Hlen; lia|rewrite Hlen; exact Hl|].
  rewrite Hlen in *. rewrite I95, I10.
  assert (H95 : (n * 95 / 100 < n)%nat) by (apply Nat.Div0.div_lt_upper_bound; lia).
  assert (H10 : (n * 10 / 100 <= n * 95 / 100)%nat)
    by (apply Nat.Div0.div_le_mono; lia).
  destruct (nth_error sorted (n * 95 / 100)) as [v95|] eqn:E95;
    [|apply nth_error_None in E95; lia].
  destruct (nth_error sorted (n * 10 / 100)) as [v10|] eqn:E10;
    [|apply nth_error_None in E10; lia].
  pose proof (sort_not_nan l Hn) as Hs. fold sorted in Hs.
  rewrite Forall_forall in Hs.
  assert (N95 : is_nan v95 = false) by (apply Hs; eapply nth_error_In; eassumption).
  assert (N10 : is_nan v10 = false) by (apply Hs; eapply nth_error_In; eassumption).
  destruct (orElse_zero_rank v95 N95) as [M95 R95].
  destruct (orElse_zero_rank v10 N10) as [M10 R10].
  rewrite leb_rank by assumption. rewrite R95, R10. apply Z.leb_le.
  destruct (Nat.eq_dec (n * 10 / 100) (n * 95 / 100)) as [E|E].
  - rewrite E in E10. assert (v10 = v95) by congruence. subst. lia.
  - assert (L : (v10 <=? v95) = true).
    { apply (StronglySorted_nth _ sorted (sortAscending_ascending l Hn)
               (n * 10 / 100) (n * 95 / 100)); [lia|assumption|assumption]. }
    rewrite leb_rank in L by assumption. now apply Z.leb_le.
Qed.

(** X12. For a history without NaN readings (empty or not) the mic test
    never reports more noise than level: its percentiles are in order. *)
Theorem mic_noise_not_above_level env s :
  isInitialized s = true -> validConfig (config s) = true ->
  micFault env = None ->
  (Z.of_nat (List.length (micVolumes env)) < maxLength)%Z ->
  Forall (fun v => is_nan v = false) (micVolumes env) ->
  exists r,
    outcome (runMicTest env s) = Returned r /\ (noise r <=? level r) = true.
Proof.
  intros Hi Hv Hf Hl Hn.
  destruct (runMicTest_ok env s Hi Hf Hv) as [H _].
  eexists. split; [exact H|]. cbn [noise level]. now apply percentile_order.
Qed.

Lemma mic_noise_not_above_level_witness :
  let s := initialized quietRoom noOptions in
  (isInitialized s = true /\ validConfig (config s) = true
   /\ micFault quietRoom = None)
  /\ exists r,
       outcome (runMicTest quietRoom s) = Returned r
       /\ (noise r <=? level r) = true.
Proof.
  split; [repeat split; reflexivity|].
  apply (mic_noise_not_above_level quietRoom (initialized quietRoom noOptions)
           eq_refl eq_refl eq_refl).
  - reflexivity.
  - repeat (constructor; [reflexivity|]). constructor.
Defined.

End AudioCheckRuns.

(** ** The hook and the view *)

Module UseAudioCheckSpec.

Import JS UseAudioCheck.
Local Open Scope float_scope.

Lemma listen_results t h : results (fold_left listen t h) = results h.
Proof.
  revert h. induction t as [|e t IH]; intros h; [reflexivity|].
  simpl. rewrite IH. destruct e; try reflexivity.
  unfold listen, handleProgress. cbn. now destruct stage.
Qed.

Lemma listen_isInitialized t h :
  isInitialized (fold_left listen t h) = isInitialized h.
Proof.
  revert h. induction t as [|e t IH]; intros h; [reflexivity|].
  simpl. rewrite IH. destruct e; try reflexivity.
  unfold listen, handleProgress. cbn. now destruct stage.
Qed.

Lemma listen_cleanupEffects s h :
  fold_left listen (AudioCheck.cleanupEffects s) h = h.
Proof.
  unfold AudioCheck.cleanupEffects.
  rewrite !fold_left_app.
  assert (T : forall l h', fold_left listen (map AudioCheck.TrackStop l) h' = h')
    by (induction l; simpl; auto).
  destruct (AudioCheck.stream s); [rewrite T|];
    destruct (AudioCheck.oscillator s) as [[[|]]|], (AudioCheck.gainNode s),
      (AudioCheck.volMeterWorklet s), (AudioCheck.source s); reflexivity.
Qed.

(** Once the closing event of a run has been heard, the hook is idle and
    shows no error. *)
Lemma listen_complete t msg p r cl h :
  let h' := fold_left listen
              (t ++ AudioCheck.Progress AudioCheck.StageComplete msg p r
                 :: AudioCheck.cleanupEffects cl) h in
  isRunning h' = false /\ error h' = None.
Proof.
  intros h'. subst h'. rewrite fold_left_app. simpl.
  rewrite listen_cleanupEffects. now split.
Qed.

Lemma runAllTests_thrown env h ac e :
  isRunning h = false ->
  AudioCheck.outcome (AudioCheck.runAllTests env ac) = AudioCheck.Thrown e ->
  exists h' ac',
    runAllTests env h (Some ac) = (Settles None, h', Some ac')
    /\ isRunning h' = false /\ results h' = None
    /\ error h' = Some (AudioCheck.Text e).
Proof.
  intros Hr Ho. unfold runAllTests, during. rewrite Hr.
  unfold AudioCheck.outcome in Ho.
  destruct (AudioCheck.runAllTests env ac) as [[o ac'] t]. cbn in Ho. subst o.
  eexists _, _. split; [reflexivity|]. cbn.
  split; [reflexivity|]. split; [|reflexivity]. now rewrite listen_results.
Qed.

(** X13. [runAllTests] of the hook, called while the hook is idle, always
    settles and leaves the hook idle. It hands back the result of the
    harness, stored in [results] with no error shown, or [null] with
    [results] empty and [error] the message the harness threw. *)
Theorem hook_run_settles_idle env h ac :
  isRunning h = false ->
  AudioCheck.validConfig (AudioCheck.config ac) = true ->
  exists reply h' ac',
    runAllTests env h (Some ac) = (Settles reply, h', Some ac')
    /\ isRunning h' = false
    /\ match reply with
       | Some r =>
           AudioCheck.outcome (AudioCheck.runAllTests env ac) = AudioCheck.Returned r
           /\ results h' = Some r /\ error h' = None
       | None =>
           results h' = None
           /\ exists e,
                AudioCheck.outcome (AudioCheck.runAllTests env ac) = AudioCheck.Thrown e
                /\ error h' = Some (AudioCheck.Text e)
       end.
Proof.
  intros Hr Hv.
  assert (Thrown_case : forall e,
    AudioCheck.outcome (AudioCheck.runAllTests env ac) = AudioCheck.Thrown e ->
    exists reply h' ac',
      runAllTests env h (Some ac) = (Settles reply, h', Some ac')
      /\ isRunning h' = false
      /\ match reply with
         | Some r =>
             AudioCheck.outcome (AudioCheck.runAllTests env ac) = AudioCheck.Returned r
             /\ results h' = Some r /\ error h' = None
         | None =>
             results h' = None
             /\ exists e,
                  AudioCheck.outcome (AudioCheck.runAllTests env ac) = AudioCheck.Thrown e
                  /\ error h' = Some (AudioCheck.Text e)
         end).
  { intros e He.
    destruct (runAllTests_thrown env h ac e Hr He) as (h' & ac' & E & R & S & T).
    exists None, h', ac'. split; [exact E|]. split; [exact R|]. split; [exact S|].
    now exists e. }
  destruct (AudioCheck.isRunning ac) eqn:Hb.
  { apply (Thrown_case "AudioCheck is already running"%string).
    unfold AudioCheck.runAllTests, AudioCheck.init, AudioCheck.outcome. cbn.
    now rewrite Hb. }
  destruct (AudioCheck.grants env) as [[ctx st]|] eqn:Hg.
  2:{ destruct (AudioCheckRuns.init_refused env ac Hb Hg) as [e He].
      apply (Thrown_case e). now rewrite (AudioCheckRuns.runAllTests_refused env ac e He). }
  destruct (AudioCheckRuns.runAllTests_granted env ac ctx st Hb Hg Hv) as (t & _ & E).
  set (s4 := AudioCheck.final (AudioCheck.tests env (AudioCheck.acquired ctx st ac))) in *.
  destruct (AudioCheck.isComplete s4) eqn:Hc.
  2:{ apply (Thrown_case "Audio check is not complete"%string). now rewrite E. }
  pose proof (listen_complete t
                (AudioCheck.CompleteReport (AudioCheck.isTestPassed s4)) 100
                (AudioCheck.results s4) s4
                (setProgress None (setResults None (setError None (setIsRunning true h)))))
    as [L1 L2].
  unfold runAllTests, during. rewrite Hr, E.
  eexists (Some _), _, _. split; [reflexivity|].
  split; [exact L1|]. split; [reflexivity|]. split; [reflexivity|exact L2].
Qed.


Lemma hook_run_settles_idle_witness :
  (isRunning (fst (mounted viewConfig)) = false
   /\ AudioCheck.validConfig (AudioCheck.config (AudioCheck.new viewConfig)) = true)
  /\ exists reply h' ac',
       runAllTests AudioCheck.quietRoom (fst (mounted viewConfig))
         (Some (AudioCheck.new viewConfig))
       = (Settles reply, h', Some ac')
       /\ isRunning h' = false.
Proof.
  split; [split; reflexivity|].
  destruct (hook_run_settles_idle AudioCheck.quietRoom (fst (mounted viewConfig))
              (AudioCheck.new viewConfig) eq_refl eq_refl)
    as (reply & h' & ac' & H1 & H2 & _).
  now exists reply, h', ac'.
Defined.

(** X14. [handleRunAllTests] of the view goes on to the session only from
    an initialized, idle hook and only with a result whose four checks all
    hold: rate at or above the target, echo test passed, level at or above
    the minimum, noise below the maximum. *)
Theorem session_entered_only_on_pass env h ac h' ref' :
  handleRunAllTests env h (Some ac) = (Settles true, h', ref') ->
  (isInitialized h = true /\ isRunning h = false)
  /\ exists r rate e m,
       results h' = Some r
       /\ AudioCheck.sampleRate r = Some rate /\ AudioCheck.echoTest r = Some e
       /\ AudioCheck.microphoneTest r = Some m
       /\ geb rate (AudioCheck.targetSampleRate (AudioCheck.config ac)) = true
       /\ AudioCheck.passed e = true
       /\ geb (AudioCheck.level m) (AudioCheck.minMicLevel (AudioCheck.config ac)) = true
       /\ (AudioCheck.noise m <? AudioCheck.maxBackgroundNoise (AudioCheck.config ac)) = true.
Proof.
  unfold handleRunAllTests, runAllTests, during.
  destruct (isInitialized h); cbn [negb]; [|discriminate].
  destruct (isRunning h); [discriminate|].
  destruct (AudioCheck.runAllTests env ac) as [[[r|e|] ac'] t] eqn:E;
    try discriminate.
  intros H. injection H as Hp <- _. split; [now split|].
  assert (Ho : AudioCheck.outcome (AudioCheck.runAllTests env ac) = AudioCheck.Returned r)
    by now rewrite E.
  destruct (AudioCheckSpec.returned_verdict env ac r Ho) as (rate & e & m & R1 & R2 & R3 & V).
  rewrite Hp in V. symmetry in V. unfold AudioCheck.specVerdict in V.
  apply andb_true_iff in V. destruct V as [V V4].
  apply andb_true_iff in V. destruct V as [V V3].
  apply andb_true_iff in V. destruct V as [V1 V2].
  exists r, rate, e, m. now repeat split.
Qed.


Lemma session_entered_only_on_pass_witness :
  let h := fst (viewStarted AudioCheck.quietRoom) in
  let ac := AudioCheck.initialized AudioCheck.quietRoom viewConfig in
  let run := handleRunAllTests AudioCheck.quietRoom h (Some ac) in
  (snd (viewStarted AudioCheck.quietRoom) = Some ac
   /\ run = (Settles true, snd (fst run), snd run))
  /\ exists r, results (snd (fst run)) = Some r
              /\ AudioCheck.overallPassed r = true.
Proof.
  split; [split; vm_compute; reflexivity|].
  assert (E : handleRunAllTests AudioCheck.quietRoom
                (fst (viewStarted AudioCheck.quietRoom))
                (Some (AudioCheck.initialized AudioCheck.quietRoom viewConfig))
              = (Settles true,
                 snd (fst (handleRunAllTests AudioCheck.quietRoom
                             (fst (viewStarted AudioCheck.quietRoom))
                             (Some (AudioCheck.initialized AudioCheck.quietRoom viewConfig)))),
                 snd (handleRunAllTests AudioCheck.quietRoom
                        (fst (viewStarted AudioCheck.quietRoom))
                        (Some (AudioCheck.initialized AudioCheck.quietRoom viewConfig)))))
    by (vm_compute; reflexivity).
  destruct (session_entered_only_on_pass _ _ _ _ _ E)
    as [_ (r & rate & e & m & H & _)].
  exists r. split; [exact H|].
  revert H. vm_compute. intros H. injection H as <-. reflexivity.
Defined.


(** X15. After [init] of the hook on an idle harness, the hook's
    [isInitialized] flag says what the harness is: set, with no error shown,
    exactly when the harness ran through; cleared, with the hook idle, the
    stream released and [error] the message thrown, when it failed. *)
Theorem hook_init_flag env h ac :
  AudioCheck.isRunning ac = false ->
  exists h' ac',
    init env h (Some ac) = (Settles tt, h', Some ac')
    /\ isInitialized h' = AudioCheck.isInitialized ac'
    /\ (isInitialized h' = true ->
        error h' = None /\ isRunning h' = isRunning h
        /\ AudioCheck.outcome (AudioCheck.init env ac) = AudioCheck.Returned tt)
    /\ (isInitialized h' = false ->
        isRunning h' = false /\ AudioCheck.stream ac' = None
        /\ exists e,
             AudioCheck.outcome (AudioCheck.init env ac) = AudioCheck.Thrown e
             /\ error h' = Some (AudioCheck.Text e)).
Proof.
  intros Hb. unfold init, during.
  destruct (AudioCheck.grants env) as [[ctx st]|] eqn:Hg.
  - rewrite (AudioCheckRuns.init_granted env ac ctx st Hb Hg).
    eexists _, _. split; [reflexivity|]. cbn.
    split; [reflexivity|]. split; [|discriminate].
    intros _. now repeat split.
  - destruct (AudioCheckRuns.init_refused_run env ac Hb Hg) as (e & s0 & ->).
    eexists _, _. split; [reflexivity|].
    rewrite fold_left_app, listen_cleanupEffects.
    split; [reflexivity|]. split; [discriminate|].
    intros _. split; [reflexivity|]. split; [reflexivity|].
    exists e. now split.
Qed.

Lemma hook_init_flag_witness :
  AudioCheck.isRunning (AudioCheck.new viewConfig) = false
  /\ exists h' ac',
       init AudioCheck.quietRoom (fst (mounted viewConfig))
         (Some (AudioCheck.new viewConfig))
       = (Settles tt, h', Some ac')
       /\ isInitialized h' = AudioCheck.isInitialized ac'.
Proof.
  split; [reflexivity|].
  destruct (hook_init_flag AudioCheck.quietRoom (fst (mounted viewConfig))
              (AudioCheck.new viewConfig) eq_refl) as (h' & ac' & H1 & H2 & _).
  now exists h', ac'.
Defined.

Lemma during_run {A} (call : AudioCheck.M A) h ac o ac' t :
  call ac = (o, ac', t) -> during call h ac = (o, fold_left listen t h, ac').
Proof. intros E. unfold during. now rewrite E. Qed.

Lemma runTest_returns env test ac :
  AudioCheck.isInitialized ac = true ->
  AudioCheck.validConfig (AudioCheck.config ac) = true ->
  exists r, AudioCheck.outcome (runTest env test ac) = AudioCheck.Returned r.
Proof.
  intros Hi Hv. destruct test; unfold runTest.
  - assert (exists ctx, AudioCheck.audioContext ac = Some ctx) as [ctx Hc].
    { unfold AudioCheck.isInitialized in Hi.
      destruct (AudioCheck.audioContext ac) as [ctx|]; [now exists ctx|discriminate]. }
    rewrite (AudioCheckRuns.bind_run _ _ _ (AudioCheck.ctx_sampleRate ctx))
      by now rewrite (AudioCheckRuns.getSampleRate_run env ac ctx Hc).
    eexists. reflexivity.
  - destruct (AudioCheckRuns.runEchoTest_round env ac Hi Hv) as (r & Ho & _).
    rewrite (AudioCheckRuns.bind_run _ _ _ r Ho). eexists. reflexivity.
  - destruct (AudioCheckRuns.runMicTest_round env ac Hi Hv) as (r & Ho & _).
    rewrite (AudioCheckRuns.bind_run _ _ _ r Ho). eexists. reflexivity.
Qed.

Lemma tested_hook env test h ac
    (caught : AudioCheck.Error -> Hook -> AudioCheck.State
              -> Reply (option TestResult) * Hook * option AudioCheck.State) :
  AudioCheck.isInitialized ac = true ->
  AudioCheck.validConfig (AudioCheck.config ac) = true ->
  exists r h' ac',
    match during (runTest env test) h ac with
    | (AudioCheck.Returned result, h, audioCheck) =>
        (Settles (Some result), setIsRunning false h, Some audioCheck)
    | (AudioCheck.Thrown message, h, audioCheck) => caught message h audioCheck
    | (AudioCheck.Diverged, h, audioCheck) => (Hangs, h, Some audioCheck)
    end = (Settles (Some r), h', Some ac')
    /\ isRunning h' = false
    /\ isInitialized h' = isInitialized h
    /\ AudioCheck.outcome (runTest env test ac) = AudioCheck.Returned r
    /\ ac' = AudioCheck.final (runTest env test ac).
Proof.
  intros Hi Hv. destruct (runTest_returns env test ac Hi Hv) as [r Hr].
  unfold during. unfold AudioCheck.outcome, AudioCheck.final in *.
  destruct (runTest env test ac) as [[o ac'] t]. cbn in Hr. subst o.
  eexists _, _, _. split; [reflexivity|]. split; [reflexivity|].
  split; [apply listen_isInitialized|]. now split.
Qed.

(** X16. [runIndividualTest], called while hook and harness are idle,
    always settles and leaves the hook idle. It initializes the harness
    first when needed, hands back what the test returns on the initialized
    harness, and hands back [null] only when initializing was needed and
    the platform refused. *)
Theorem individual_test_settles env test h ac :
  isRunning h = false -> AudioCheck.isRunning ac = false ->
  AudioCheck.validConfig (AudioCheck.config ac) = true ->
  exists reply h' ac',
    runIndividualTest env test h (Some ac) = (Settles reply, h', Some ac')
    /\ isRunning h' = false
    /\ match reply with
       | Some r =>
           exists ready,
             AudioCheck.outcome (runTest env test ready) = AudioCheck.Returned r
             /\ ac' = AudioCheck.final (runTest env test ready)
             /\ ((AudioCheck.isInitialized ac = true /\ ready = ac)
                 \/ (AudioCheck.isInitialized ac = false
                     /\ isInitialized h' = true
                     /\ exists ctx st,
                          AudioCheck.grants env = Some (ctx, st)
                          /\ ready = AudioCheck.acquired ctx st ac))
       | None =>
           AudioCheck.isInitialized ac = false /\ AudioCheck.grants env = None
           /\ exists e,
                AudioCheck.outcome (AudioCheck.init env ac) = AudioCheck.Thrown e
                /\ error h' = Some (AudioCheck.Text e)
       end.
Proof.
  intros Hr Hb Hv. unfold runIndividualTest. rewrite Hr.
  destruct (AudioCheck.isInitialized ac) eqn:Hi.
  - destruct (tested_hook env test (setError None (setIsRunning true h)) ac
                (fun message h audioCheck =>
                   (Settles None,
                    setIsRunning false (setError (Some (AudioCheck.Text message)) h),
                    Some audioCheck)) Hi Hv)
      as (r & h' & ac' & E & R & _ & O & F).
    cbv zeta. rewrite E. exists (Some r), h', ac'.
    split; [reflexivity|]. split; [exact R|].
    exists ac. split; [exact O|]. split; [exact F|]. left. now split.
  - cbv zeta.
    destruct (AudioCheck.grants env) as [[ctx st]|] eqn:Hg.
    + rewrite (during_run _ _ _ _ _ _ (AudioCheckRuns.init_granted env ac ctx st Hb Hg)).
      set (h1 := setIsInitialized true _).
      destruct (tested_hook env test h1 (AudioCheck.acquired ctx st ac)
                  (fun message h audioCheck =>
                     (Settles None,
                      setIsRunning false (setError (Some (AudioCheck.Text message)) h),
                      Some audioCheck)) eq_refl Hv)
        as (r & h' & ac' & E & R & I & O & F).
      rewrite E. exists (Some r), h', ac'. split; [reflexivity|]. split; [exact R|].
      exists (AudioCheck.acquired ctx st ac).
      split; [exact O|]. split; [exact F|]. right. split; [reflexivity|].
      split; [exact I|]. now exists ctx, st.
    + destruct (AudioCheckRuns.init_refused_run env ac Hb Hg) as (e & s0 & E).
      rewrite (during_run _ _ _ _ _ _ E).
      eexists None, _, _. split; [reflexivity|]. split; [reflexivity|].
      split; [reflexivity|]. split; [reflexivity|]. exists e.
      split; [now rewrite E|reflexivity].
Qed.

Lemma individual_test_settles_witness :
  (isRunning (fst (mounted viewConfig)) = false
   /\ AudioCheck.isRunning (AudioCheck.new viewConfig) = false
   /\ AudioCheck.validConfig (AudioCheck.config (AudioCheck.new viewConfig)) = true)
  /\ exists reply h' ac',
       runIndividualTest AudioCheck.quietRoom EchoTest (fst (mounted viewConfig))
         (Some (AudioCheck.new viewConfig))
       = (Settles reply, h', Some ac')
       /\ isRunning h' = false.
Proof.
  split; [repeat split; reflexivity|].
  destruct (individual_test_settles AudioCheck.quietRoom EchoTest
              (fst (mounted viewConfig)) (AudioCheck.new viewConfig)
              eq_refl eq_refl eq_refl) as (reply & h' & ac' & H1 & H2 & _).
  now exists reply, h', ac'.
Defined.

End UseAudioCheckSpec.

(** ** The capture pipeline *)

Module AudioRecorderSpec.

Import AudioRecorder.

(** When the attempt runs to its end, a [stop] made meanwhile is carried
    out: the stream granted is closed again. *)
Lemma stop_during_start_then_success rate :
  let sys := run (new rate true)
               [CallStart; CallStop; Resolve 0; Resolve 0; Resolve 0; Resolve 0] in
  stream (recorder sys) = None /\ live (device sys) = []
  /\ opens (device sys) = 1 /\ closes (device sys) = 1
  /\ recording (recorder sys) = false.
Proof. repeat split. Qed.

(** When the device request itself is refused there is nothing to close. *)
Lemma stop_during_start_then_denied rate :
  let sys := run (new rate true) [CallStart; CallStop; Reject 0] in
  stream (recorder sys) = None /\ live (device sys) = []
  /\ opens (device sys) = 0 /\ closes (device sys) = 0.
Proof. repeat split. Qed.

(** C7. [stop] called while [start] is in flight is put off until the
    attempt settles, but it is carried out only when the attempt succeeds.
    When the attempt fails after the device has granted a stream (at the
    context, or at either worklet module), the [stop] that was put off is
    dropped: the stream stays in [this.stream] with its track live, one
    open and no close. *)
Theorem stop_during_failed_start_leaves_stream rate granted :
  1 <= granted <= 3 ->
  let sys := run (new rate true) (stopThenFail granted) in
  inFlight sys 0 = false
  /\ starting (recorder sys) = None
  /\ stream (recorder sys) = Some 0
  /\ live (device sys) = [0]
  /\ opens (device sys) = 1
  /\ closes (device sys) = 0.
Proof.
  intros H.
  assert (E : granted = 1 \/ granted = 2 \/ granted = 3) by lia.
  destruct E as [->|[->| ->]]; repeat split.
Qed.

Lemma stop_during_failed_start_witness :
  1 <= 1 <= 3
  /\ let sys := run (new 16000%float true)
                  [CallStart; CallStop; Resolve 0; Reject 0] in
     inFlight sys 0 = false
     /\ starting (recorder sys) = None
     /\ stream (recorder sys) = Some 0
     /\ live (device sys) = [0]
     /\ opens (device sys) = 1
     /\ closes (device sys) = 0.
Proof.
  split; [lia|].
  apply (stop_during_failed_start_leaves_stream 16000%float 1). lia.
Defined.

(** C8, as the specification has it, fails: on a recorder whose first
    [start] is still in flight a second [start] replaces the attempt in
    [this.starting] and asks the device again; once both requests are
    granted two streams are open. *)
Lemma second_start_acquires_again :
  let one := run (new 16000%float true) [CallStart] in
  let two := run (new 16000%float true) [CallStart; CallStart] in
  let both := run (new 16000%float true)
                [CallStart; CallStart; Resolve 0; Resolve 1] in
  (starting (recorder one) = Some 0 /\ inFlight one 0 = true)
  /\ joinsAttemptInFlight one = false
  /\ starting (recorder two) = Some 1
  /\ requests (device two) = 2
  /\ opens (device both) = 2
  /\ live (device both) = [0; 1].
Proof. repeat split. Qed.

Lemma inFlight_start sys p :
  inFlight sys p = true -> inFlight (start sys) p = true.
Proof.
  unfold inFlight, start. destruct (mediaDevices sys); [|trivial]. cbn.
  destruct (nth_error (promises sys) p) as [pr|] eqn:E; [|discriminate].
  intros H. rewrite nth_error_app1; [now rewrite E|].
  apply nth_error_Some. congruence.
Qed.

Lemma set_promise_before l v w x :
  set_promise (List.length l) w (l ++ v :: x) = l ++ w :: x.
Proof.
  unfold set_promise. rewrite firstn_app, firstn_all, Nat.sub_diag.
  cbn [firstn]. rewrite app_nil_r. f_equal. f_equal.
  change (v :: x) with ([v] ++ x). rewrite app_assoc.
  replace (S (List.length l)) with (List.length (l ++ [v]))
    by (rewrite length_app; simpl; lia).
  rewrite skipn_app, skipn_all, Nat.sub_diag. reflexivity.
Qed.

Lemma nth_error_middle {A} (l : list A) v x :
  nth_error (l ++ v :: x) (List.length l) = Some v.
Proof. rewrite nth_error_app2 by lia. now rewrite Nat.sub_diag. Qed.

Lemma resolve_request sys p k x :
  promises sys = p ++ Pending AwaitUserMedia k :: x ->
  resolve (List.length p) sys
  = {| recorder :=
         {| stream := Some (opens (device sys));
            audioContext := audioContext (recorder sys);
            source := source (recorder sys); outputs := outputs (recorder sys);
            recording := recording (recorder sys);
            recordingWorklet := recordingWorklet (recorder sys);
            vuWorklet := vuWorklet (recorder sys);
            sampleRate := sampleRate (recorder sys);
            starting := starting (recorder sys) |};
       promises := p ++ Pending AwaitContext k :: x;
       device := snd (grant (device sys));
       mediaDevices := mediaDevices sys |}.
Proof.
  intros E. unfold resolve. rewrite E, nth_error_middle, set_promise_before.
  reflexivity.
Qed.

Lemma two_starts_granted sys :
  mediaDevices sys = true ->
  let fresh := List.length (promises sys) in
  let both := run sys [CallStart; CallStart; Resolve fresh; Resolve (S fresh)] in
  requests (device both) = S (S (requests (device sys)))
  /\ opens (device both) = S (S (opens (device sys)))
  /\ closes (device both) = closes (device sys)
  /\ live (device both)
     = live (device sys) ++ [opens (device sys); S (opens (device sys))]
  /\ inFlight both fresh = true /\ inFlight both (S fresh) = true.
Proof.
  intros H fresh both. subst both fresh. unfold run. cbn [fold_left step].
  set (two := start (start sys)).
  assert (E2 : promises two
               = promises sys ++ Pending AwaitUserMedia 0 :: [Pending AwaitUserMedia 0]).
  { unfold two, start. rewrite H. cbn. rewrite ?H. cbn. now rewrite <- app_assoc. }
  assert (D2 : device two = request (request (device sys))).
  { unfold two, start. rewrite H. cbn. now rewrite ?H. }
  rewrite (resolve_request two (promises sys) 0 _ E2).
  set (three := Build_System _ _ _ _).
  assert (E3 : promises three
               = (promises sys ++ [Pending AwaitContext 0])
                   ++ Pending AwaitUserMedia 0 :: []).
  { unfold three. cbn [promises]. now rewrite <- app_assoc. }
  replace (S (List.length (promises sys)))
    with (List.length (promises sys ++ [Pending AwaitContext 0]))
    by (rewrite length_app; simpl; lia).
  rewrite (resolve_request three _ 0 _ E3).
  unfold inFlight. cbn [promises device].
  rewrite nth_error_middle.
  replace ((promises sys ++ [Pending AwaitContext 0]) ++ [Pending AwaitContext 0])
    with (promises sys ++ Pending AwaitContext 0 :: [Pending AwaitContext 0])
    by (now rewrite <- app_assoc).
  rewrite nth_error_middle.
  unfold three. cbn [device]. rewrite D2. cbn. rewrite <- app_assoc.
  now repeat split.
Qed.

(** C8, amended. [start] has no guard against an attempt in flight: on a
    platform with media capture every call asks the device for a stream of
    its own and puts a new pending attempt in [this.starting], whether or
    not an earlier attempt has settled, and the attempts already in flight
    stay in flight. Two calls in a row therefore make two device requests,
    and once both are granted two streams are open, none of them closed,
    with both attempts still in flight. *)
Theorem start_always_begins_new_attempt sys :
  mediaDevices sys = true ->
  let fresh := List.length (promises sys) in
  requests (device (start sys)) = S (requests (device sys))
  /\ starting (recorder (start sys)) = Some fresh
  /\ inFlight sys fresh = false
  /\ inFlight (start sys) fresh = true
  /\ (forall p, inFlight sys p = true -> inFlight (start sys) p = true)
  /\ (let both := run sys [CallStart; CallStart; Resolve fresh; Resolve (S fresh)] in
      requests (device both) = S (S (requests (device sys)))
      /\ opens (device both) = S (S (opens (device sys)))
      /\ closes (device both) = closes (device sys)
      /\ live (device both)
         = live (device sys) ++ [opens (device sys); S (opens (device sys))]
      /\ inFlight both fresh = true /\ inFlight both (S fresh) = true).
Proof.
  intros H fresh. split; [|split; [|split; [|split; [|split]]]].
  - unfold start. rewrite H. reflexivity.
  - unfold start. rewrite H. reflexivity.
  - unfold inFlight.
    now rewrite (proj2 (nth_error_None (promises sys) fresh) (le_n _)).
  - unfold inFlight, start. rewrite H. cbn.
    rewrite nth_error_app2 by apply le_n.
    fold fresh. now rewrite Nat.sub_diag.
  - intros p. apply inFlight_start.
  - exact (two_starts_granted sys H).
Qed.

Lemma start_always_begins_new_attempt_witness :
  let sys := run (new 16000%float true) [CallStart] in
  mediaDevices sys = true
  /\ (requests (device (start sys)) = 2
      /\ starting (recorder (start sys)) = Some 1
      /\ inFlight sys 1 = false
      /\ inFlight (start sys) 1 = true
      /\ (forall p, inFlight sys p = true -> inFlight (start sys) p = true)
      /\ (let both := run sys [CallStart; CallStart; Resolve 1; Resolve 2] in
          requests (device both) = 3
          /\ opens (device both) = 2
          /\ closes (device both) = 0
          /\ live (device both) = [0; 1]
          /\ inFlight both 1 = true /\ inFlight both 2 = true)).
Proof.
  split; [reflexivity|].
  exact (start_always_begins_new_attempt
           (run (new 16000%float true) [CallStart]) eq_refl).
Defined.

End AudioRecorderSpec.

(** ** The capture pipeline: every run *)

Module AudioRecorderRuns.

Import AudioRecorder.

Lemma nth_error_set_promise q v l p :
  q < List.length l ->
  nth_error (set_promise q v l) p = if Nat.eqb p q then Some v else nth_error l p.
Proof.
  intros Hq. unfold set_promise.
  assert (Hf : List.length (firstn q l) = q) by (rewrite length_firstn; lia).
  destruct (Nat.eqb_spec p q) as [->|Hne].
  - rewrite nth_error_app2 by lia. now rewrite Hf, Nat.sub_diag.
  - destruct (Nat.lt_ge_cases p q) as [Hlt|Hge].
    + rewrite nth_error_app1 by lia. now rewrite nth_error_firstn, (proj2 (Nat.ltb_lt _ _) Hlt).
    + rewrite nth_error_app2 by lia. rewrite Hf.
      destruct (p - q) as [|d] eqn:E; [lia|]. cbn [nth_error].
      rewrite nth_error_skipn. f_equal. lia.
Qed.

Lemma inFlight_set_promise sys q st k p rec dev md :
  inFlight sys q = true ->
  inFlight sys p = true ->
  inFlight {| recorder := rec; promises := set_promise q (Pending st k) (promises sys);
              device := dev; mediaDevices := md |} p = true.
Proof.
  unfold inFlight. cbn [promises]. intros Hq Hp.
  assert (q < List.length (promises sys)).
  { apply nth_error_Some. destruct (nth_error (promises sys) q); [discriminate|discriminate]. }
  rewrite nth_error_set_promise by assumption.
  now destruct (Nat.eqb p q).
Qed.

Lemma iter_handleStop_keeps k sys :
  starting (recorder (Nat.iter k handleStop sys)) = starting (recorder sys)
  /\ promises (Nat.iter k handleStop sys) = promises sys.
Proof.
  induction k as [|k IH]; [now split|]. exact IH.
Qed.

Lemma startingInFlight_step sys a :
  startingInFlight sys -> startingInFlight (step sys a).
Proof.
  intros H. destruct a as [| |q|q]; cbn [step].
  - unfold start. destruct (mediaDevices sys); [|exact H].
    unfold startingInFlight, inFlight. cbn.
    rewrite nth_error_app2 by lia. now rewrite Nat.sub_diag.
  - unfold stop. unfold startingInFlight in H.
    destruct (starting (recorder sys)) as [p|] eqn:Es;
      [|unfold startingInFlight; cbn; now rewrite Es].
    destruct (nth_error (promises sys) p) as [[st k| |]|] eqn:Ep;
      try (unfold inFlight in H; rewrite Ep in H; discriminate).
    unfold startingInFlight. cbn [recorder]. rewrite Es.
    now apply inFlight_set_promise.
  - unfold resolve.
    destruct (nth_error (promises sys) q) as [[[| | |] k| |]|] eqn:Eq; try exact H.
    + unfold startingInFlight in *. cbn [recorder starting].
      destruct (starting (recorder sys)) as [p|]; [|exact I].
      apply inFlight_set_promise; [unfold inFlight; now rewrite Eq|exact H].
    + destruct (stream (recorder sys)).
      * unfold startingInFlight in *. cbn [recorder starting].
        destruct (starting (recorder sys)) as [p|]; [|exact I].
        apply inFlight_set_promise; [unfold inFlight; now rewrite Eq|exact H].
      * exact I.
    + unfold startingInFlight in *. cbn [recorder starting].
      destruct (starting (recorder sys)) as [p|]; [|exact I].
      apply inFlight_set_promise; [unfold inFlight; now rewrite Eq|exact H].
    + unfold startingInFlight.
      now rewrite (proj1 (iter_handleStop_keeps k _)).
  - unfold reject. destruct (nth_error (promises sys) q) as [[st k| |]|]; try exact H.
    exact I.
Qed.

Lemma startingInFlight_run l : forall sys,
  startingInFlight sys -> startingInFlight (run sys l).
Proof.
  induction l as [|a l IH]; intros sys H; [exact H|].
  apply IH. now apply startingInFlight_step.
Qed.

(** X17. However a recorder is used, the promise in [this.starting], when
    there is one, has not settled: [stop] never waits on an attempt that is
    over. *)
Theorem starting_is_never_settled rate supported l :
  let sys := run (new rate supported) l in
  match starting (recorder sys) with
  | Some p => inFlight sys p = true
  | None => True
  end.
Proof. apply startingInFlight_run. exact I. Qed.

Lemma inFlight_iter_handleStop k sys q :
  inFlight (Nat.iter k handleStop sys) q = inFlight sys q.
Proof.
  unfold inFlight. now rewrite (proj2 (iter_handleStop_keeps k sys)).
Qed.

(** X18. An attempt that settles clears [this.starting] also when the field
    holds a newer attempt: with two attempts in flight, once one of them
    completes or fails the field is empty although the other is still in
    flight, and a [stop] made then is carried out at once. *)
Theorem settled_attempt_clears_starting sys p q :
  p <> q -> inFlight sys p = true -> inFlight sys q = true ->
  (forall k, nth_error (promises sys) p = Some (Pending AwaitVuModule k) ->
     starting (recorder (resolve p sys)) = None
     /\ inFlight (resolve p sys) q = true
     /\ stop (resolve p sys) = handleStop (resolve p sys))
  /\ (starting (recorder (reject p sys)) = None
      /\ inFlight (reject p sys) q = true
      /\ stop (reject p sys) = handleStop (reject p sys)).
Proof.
  intros Hne Hp Hq.
  assert (Hlen : p < List.length (promises sys)).
  { unfold inFlight in Hp. apply nth_error_Some.
    destruct (nth_error (promises sys) p); discriminate. }
  split.
  - intros k Hk.
    assert (S : starting (recorder (resolve p sys)) = None).
    { unfold resolve. rewrite Hk.
      now rewrite (proj1 (iter_handleStop_keeps k _)). }
    split; [exact S|]. split.
    + unfold resolve. rewrite Hk. rewrite inFlight_iter_handleStop.
      unfold inFlight in *. cbn [promises].
      rewrite nth_error_set_promise by exact Hlen.
      destruct (Nat.eqb_spec q p) as [->|_]; [now elim Hne|exact Hq].
    + unfold stop. now rewrite S.
  - assert (E : reject p sys = fail p sys).
    { unfold reject. unfold inFlight in Hp.
      destruct (nth_error (promises sys) p) as [[st k| |]|]; try discriminate.
      reflexivity. }
    rewrite E. split; [reflexivity|]. split; [|reflexivity].
    unfold inFlight in *. cbn [fail promises].
    rewrite nth_error_set_promise by exact Hlen.
    destruct (Nat.eqb_spec q p) as [->|_]; [now elim Hne|exact Hq].
Qed.

Lemma settled_attempt_clears_starting_witness :
  let sys := run (new 16000%float true)
               [CallStart; CallStart; Resolve 0; Resolve 1;
                Resolve 0; Resolve 0] in
  (0 <> 1 /\ inFlight sys 0 = true /\ inFlight sys 1 = true
   /\ nth_error (promises sys) 0 = Some (Pending AwaitVuModule 0))
  /\ starting (recorder sys) = Some 1
  /\ starting (recorder (resolve 0 sys)) = None
  /\ inFlight (resolve 0 sys) 1 = true
  /\ stop (resolve 0 sys) = handleStop (resolve 0 sys).
Proof.
  split; [repeat split; discriminate|]. split; [reflexivity|].
  exact (proj1 (settled_attempt_clears_starting
                  (run (new 16000%float true)
                     [CallStart; CallStart; Resolve 0; Resolve 1; Resolve 0; Resolve 0])
                  0 1 ltac:(discriminate) eq_refl eq_refl) 0 eq_refl).
Defined.

Lemma handleStop_idempotent sys : handleStop (handleStop sys) = handleStop sys.
Proof.
  destruct sys as [[st ac so out rec rw vw sr sg] ps d md].
  unfold handleStop. cbn. now destruct so.
Qed.

Lemma iter_handleStop_once k sys :
  Nat.iter (S k) handleStop sys = handleStop sys.
Proof.
  induction k as [|k IH]; [reflexivity|].
  change (Nat.iter (S (S k)) handleStop sys)
    with (handleStop (Nat.iter (S k) handleStop sys)).
  rewrite IH. apply handleStop_idempotent.
Qed.

Lemma stops_counted rate k :
  run (new rate true) (CallStart :: repeat CallStop k)
  = {| recorder := set_starting (Some 0) (recorder (new rate true));
       promises := [Pending AwaitUserMedia k];
       device := request (device (new rate true));
       mediaDevices := true |}.
Proof.
  induction k as [|k IH]; [reflexivity|].
  replace (CallStart :: repeat CallStop (S k))
    with ((CallStart :: repeat CallStop k) ++ [CallStop])
    by (cbn [repeat app]; f_equal; symmetry; apply repeat_cons).
  unfold run in *. rewrite fold_left_app, IH. reflexivity.
Qed.

(** X19. [stop] can be repeated: the closure it runs does nothing more the
    second time, two calls on a recorder with no attempt in flight are one,
    and any number of calls made while a first attempt is in flight leave
    the recorder, once the attempt has run through, where one call does. *)
Theorem repeated_stop_is_one_stop :
  (forall sys, handleStop (handleStop sys) = handleStop sys)
  /\ (forall sys, starting (recorder sys) = None -> stop (stop sys) = stop sys)
  /\ (forall rate k,
        run (new rate true) (CallStart :: repeat CallStop (S k) ++ repeat (Resolve 0) 4)
        = run (new rate true) ([CallStart; CallStop] ++ repeat (Resolve 0) 4)).
Proof.
  split; [exact handleStop_idempotent|]. split.
  - intros sys H. unfold stop. rewrite H. cbn [handleStop recorder starting].
    rewrite H. apply handleStop_idempotent.
  - intros rate k. unfold run.
    change (CallStart :: repeat CallStop (S k) ++ repeat (Resolve 0) 4)
      with ((CallStart :: repeat CallStop (S k)) ++ repeat (Resolve 0) 4).
    rewrite fold_left_app. fold (run (new rate true) (CallStart :: repeat CallStop (S k))).
    rewrite stops_counted. cbn -[Nat.iter handleStop].
    rewrite iter_handleStop_once. reflexivity.
Qed.

Lemma unreferenced_handleStop id sys :
  unreferenced id sys -> unreferenced id (handleStop sys).
Proof.
  intros (Hin & Hlt & Hne). unfold unreferenced, handleStop. cbn.
  destruct (stream (recorder sys)) as [i|]; [|repeat split; auto; discriminate].
  unfold stopTrack. destruct (existsb (Nat.eqb i) (live (device sys))); cbn.
  - split; [|split; [exact Hlt|discriminate]].
    apply filter_In. split; [exact Hin|].
    apply negb_true_iff, Nat.eqb_neq. congruence.
  - split; [exact Hin|]. split; [exact Hlt|discriminate].
Qed.

Lemma unreferenced_iter_handleStop id k sys :
  unreferenced id sys -> unreferenced id (Nat.iter k handleStop sys).
Proof.
  intros H. induction k as [|k IH]; [exact H|].
  now apply unreferenced_handleStop.
Qed.

Lemma unreferenced_step id sys a :
  unreferenced id sys -> unreferenced id (step sys a).
Proof.
  intros H. destruct a as [| |q|q]; cbn [step].
  - unfold start. destruct (mediaDevices sys); exact H.
  - unfold stop. destruct (starting (recorder sys)) as [p|];
      [|now apply unreferenced_handleStop].
    destruct (nth_error (promises sys) p) as [[st k| |]|];
      try exact H. now apply unreferenced_handleStop.
  - unfold resolve.
    destruct (nth_error (promises sys) q) as [[[| | |] k| |]|]; try exact H.
    + destruct H as (Hin & Hlt & Hne). unfold unreferenced. cbn.
      split; [apply in_or_app; now left|]. split; [lia|].
      intros E. injection E as E. lia.
    + destruct H as (Hin & Hlt & Hne).
      destruct (stream (recorder sys)) eqn:Es; unfold unreferenced; cbn;
        (split; [exact Hin|]; split; [exact Hlt|]); [exact Hne|discriminate].
    + apply (unreferenced_iter_handleStop id k). exact H.
  - unfold reject. destruct (nth_error (promises sys) q) as [[st k| |]|]; exact H.
Qed.

Lemma unreferenced_run id l : forall sys,
  unreferenced id sys -> unreferenced id (run sys l).
Proof.
  induction l as [|a l IH]; intros sys H; [exact H|].
  apply IH. now apply unreferenced_step.
Qed.

(** X20. A live stream that [this.stream] no longer holds is never
    released: whatever calls and settlements follow, its track stays
    live. *)
Theorem unreferenced_stream_stays_live sys id l :
  In id (live (device sys)) -> id < opens (device sys) ->
  stream (recorder sys) <> Some id ->
  In id (live (device (run sys l))).
Proof.
  intros Hin Hlt Hne.
  apply (unreferenced_run id l sys). now repeat split.
Qed.

Lemma unreferenced_stream_stays_live_witness :
  let sys := run (new 16000%float true)
               [CallStart; CallStart; Resolve 0; Resolve 1] in
  let rest := [Resolve 0; Resolve 0; Resolve 0; Resolve 1; Resolve 1; Resolve 1;
               CallStop; CallStop] in
  (In 0 (live (device sys)) /\ 0 < opens (device sys)
   /\ stream (recorder sys) = Some 1)
  /\ In 0 (live (device (run sys rest)))
  /\ (opens (device (run sys rest)) = 2 /\ closes (device (run sys rest)) = 1).
Proof.
  split; [split; [now left|split; [repeat constructor|reflexivity]]|].
  split; [|split; reflexivity].
  apply (unreferenced_stream_stays_live
           (run (new 16000%float true) [CallStart; CallStart; Resolve 0; Resolve 1])
           0); [now left|repeat constructor|discriminate].
Defined.

End AudioRecorderRuns.
